(** * rhythm-signal: beat grid, onset detector, timeline window, tempo oracle
      and project persistence.

    Conventions of the embedding.
    - A Python [float] (and a NumPy float32 cell) is read at one of two
      levels.  Where a property is about a real-valued result (a time, a
      strength, a bound of the window) the float is the exact rational [Q]
      it stands for, and rounding error is outside the model; equality of
      values is [Qeq] ([==]).  Where the code turns floats into an integer
      or a decision that rounding moves (the beat index, the beat flash, the
      grid lines of a redraw) the float is a binary64 value, still a [Q],
      and every arithmetic result is rounded to the nearest double, ties to
      even (module [F64]).  NaN, infinities and overflow are outside the
      model at both levels.
    - A Python [int] is a [Z].
    - A Python exception is a constructor of [exn]; a call that may raise
      returns a [result]. *)

From Stdlib Require Import ZArith QArith Qround Qminmax Qabs Qpower List Lia
  Lqa Bool String Sorted.
From Stdlib Require Floats.
Import ListNotations.
Local Open Scope Z_scope.
Local Open Scope Q_scope.

(* ------------------------------------------------------------------ *)
(** ** Python numerics *)

Module Py.

(** [a < b] on floats, as a boolean. *)
Definition Qltb (a b : Q) : bool := negb (Qle_bool b a).

(** Builtin [max(a, b)]: the first argument unless the second is larger. *)
Definition max (a b : Q) : Q := if Qltb a b then b else a.

(** Builtin [min(a, b)]: the first argument unless the second is smaller. *)
Definition min (a b : Q) : Q := if Qltb b a then b else a.

(** [int(x)] on a float: truncation toward zero. *)
Definition int (x : Q) : Z := Z.quot (Qnum x) (Zpos (Qden x)).

(** Exceptions the modelled code can raise. *)
Inductive exn : Set :=
| ZeroDivisionError
| KeyError
| TypeError
| FileNotFoundError
| ImportError
| OtherError.

Inductive result (A : Type) : Type :=
| Ok (a : A)
| Raise (e : exn).
Arguments Ok {A} a.
Arguments Raise {A} e.

Definition bind {A B : Type} (r : result A) (k : A -> result B) : result B :=
  match r with
  | Ok a => k a
  | Raise e => Raise e
  end.

(** [a / b] on floats. *)
Definition truediv (a b : Q) : result Q :=
  if Qeq_bool b 0 then Raise ZeroDivisionError else Ok (a / b).

(** Builtin [round(x)]: to the nearest integer, ties to the even one. *)
Definition round (x : Q) : Z :=
  let f := Qfloor x in
  let r := x - inject_Z f in
  if Qltb r (1 # 2) then f
  else if Qltb (1 # 2) r then (f + 1)%Z
  else if Z.even f then f else (f + 1)%Z.

(** [range(a, b)]. *)
Definition range (a b : Z) : list Z :=
  map (fun k => (a + Z.of_nat k)%Z) (seq 0 (Z.to_nat (b - a))).

(** [len(l)]. *)
Definition len {A : Type} (l : list A) : Z := Z.of_nat (List.length l).

(** [l[i]] for an index the caller keeps inside [0 .. len(l) - 1]. *)
Definition idx (l : list Q) (i : Z) : Q := nth (Z.to_nat i) l 0.

(** [l[a:b]] for [0 <= a]. *)
Definition slice {A : Type} (l : list A) (a b : Z) : list A :=
  firstn (Z.to_nat (b - a)) (skipn (Z.to_nat a) l).

(** Pointwise combination of two arrays of the same length. *)
Fixpoint map2 {A B C : Type} (f : A -> B -> C) (l : list A) (r : list B)
  : list C :=
  match l, r with
  | a :: l', b :: r' => f a b :: map2 f l' r'
  | _, _ => []
  end.

End Py.

Notation "x <- c ;; k" := (Py.bind c (fun x => k))
  (at level 61, c at next level, right associativity).

(* ------------------------------------------------------------------ *)
(** ** Doubles: binary64 arithmetic, round to nearest, ties to even *)

Module F64.

(** [2^e]. *)
Definition pow2 (e : Z) : Q := 2 ^ e.

(** The binary exponent of a positive [x]:
    [2^(ilog2 x) <= x < 2^(ilog2 x + 1)]. *)
Definition ilog2 (x : Q) : Z :=
  let c := (Z.log2 (Qnum x) - Z.log2 (Zpos (Qden x)))%Z in
  if Qle_bool (pow2 c) x then c else (c - 1)%Z.

(** The exponent of the last bit a double keeps of a positive [x]: 53
    significant bits, and nothing finer than [2^-1074]. *)
Definition ulp_exp (x : Q) : Z := Z.max (ilog2 x - 52) (-1074).

(** A positive [x] rounded to the nearest multiple of that last bit. *)
Definition round_pos (x : Q) : Q :=
  let e := ulp_exp x in
  inject_Z (Py.round (x / pow2 e)) * pow2 e.

(** The double nearest to [x], the one with the even significand on a tie;
    also [float(x)] on an int. *)
Definition rnd (x : Q) : Q :=
  Qred (if Py.Qltb 0 x then round_pos x
        else if Py.Qltb x 0 then - round_pos (- x)
        else 0).

(** [a + b], [a - b], [a * b] on doubles. *)
Definition add (a b : Q) : Q := rnd (a + b).
Definition sub (a b : Q) : Q := rnd (a - b).
Definition mul (a b : Q) : Q := rnd (a * b).

(** [a / b] on doubles, for [b <> 0]. *)
Definition div (a b : Q) : Q := rnd (a / b).

(** [a / b] on doubles. *)
Definition truediv (a b : Q) : Py.result Q :=
  if Qeq_bool b 0 then Py.Raise Py.ZeroDivisionError else Py.Ok (div a b).

(** [float(z)] on an int. *)
Definition of_int (z : Z) : Q := rnd (inject_Z z).

(** C's [fmod(a, b)] for [b <> 0]: what is left of [a] after the whole
    multiples of [b], with the sign of [a]; the result is exact. *)
Definition fmod (a b : Q) : Q :=
  let r := Qabs a - inject_Z (Qfloor (Qabs a / Qabs b)) * Qabs b in
  if Py.Qltb a 0 then - r else r.

(** The last step of [//]: the floor of the quotient, or the next whole
    number when more than a half is left. *)
Definition snap (q : Q) : Q :=
  if Qeq_bool q 0 then 0
  else
    let f := inject_Z (Qfloor q) in
    if Py.Qltb (1 # 2) (sub q f) then add f 1 else f.

(** [a // b] on doubles, for [b <> 0], as CPython computes it: the quotient
    of [a - fmod(a, b)] by [b], one less when the remainder and [b] differ
    in sign, snapped to the nearest whole number. *)
Definition floordiv (a b : Q) : Q :=
  let r := fmod a b in
  let q := div (sub a r) b in
  let q :=
    if negb (Qeq_bool r 0) && negb (Bool.eqb (Py.Qltb b 0) (Py.Qltb r 0))
    then sub q 1 else q in
  snap q.

(** The rational a finite double of the kernel stands for. *)
Definition of_prim (f : PrimFloat.float) : option Q :=
  match FloatOps.Prim2SF f with
  | SpecFloat.S754_zero _ => Some 0
  | SpecFloat.S754_finite s m e =>
      Some (Qred ((if s then -1 else 1) * inject_Z (Zpos m) * pow2 e))
  | _ => None
  end.

End F64.

(* ------------------------------------------------------------------ *)
(** ** NumPy array operations used by the detector *)

Module Np.

(** [np.max(a)] of a non-empty array ([0] stands for the empty case, which
    the detector guards with [b > a]). *)
Definition max (a : list Q) : Q :=
  match a with
  | [] => 0
  | x :: r => fold_left Py.max r x
  end.

(** [np.abs(a)]. *)
Definition abs (a : list Q) : list Q := map Qabs a.

(** Zero-padded read used by the convolution. *)
Definition pad (a : list Q) (i : Z) : Q :=
  if (i <? 0)%Z then 0 else nth (Z.to_nat i) a 0.

(** [np.convolve(a, v, mode="same")] for [len(v) <= len(a)]: the centred
    [len(a)] cells of the full convolution [c[n] = sum_j v[j] * a[n - j]]. *)
Definition convolve_same (a v : list Q) : list Q :=
  let off := ((Py.len v - 1) / 2)%Z in
  map (fun i =>
         fold_left Qplus
           (map (fun j => Py.idx v j * pad a (i + off - j))
                (Py.range 0 (Py.len v)))
           0)
      (Py.range 0 (Py.len a)).

(** [np.ones(k) / k]. *)
Definition ones_over (k : positive) : list Q := repeat (1 # k) (Pos.to_nat k).

(** [np.diff(a, prepend=p)]. *)
Definition diff_prepend (a : list Q) (p : Q) : list Q :=
  Py.map2 (fun prev cur => cur - prev) (p :: a) a.

(** [d[d < 0] = 0.0]. *)
Definition clip_negative (d : list Q) : list Q :=
  map (fun x => if Py.Qltb x 0 then 0 else x) d.

(** [np.sort]. *)
Fixpoint insert (x : Q) (l : list Q) : list Q :=
  match l with
  | [] => [x]
  | y :: r => if Qle_bool x y then x :: l else y :: insert x r
  end.

Definition sort (l : list Q) : list Q := fold_right insert [] l.

(** [np.percentile(a, q)] with the default linear interpolation, for a
    non-empty array and [0 <= q <= 100]: with the virtual index
    [(len(a) - 1) * q / 100] split into its floor [lo] and fraction [g], the
    value [s[lo] + (s[lo + 1] - s[lo]) * g] of the sorted array [s] (the upper
    index is clipped to the last cell). *)
Definition percentile (a : list Q) (q : Q) : Q :=
  let s := sort a in
  let vi := inject_Z (Py.len a - 1) * (q / 100) in
  let lo := Qfloor vi in
  let hi := Z.min (lo + 1) (Py.len a - 1) in
  let g := vi - inject_Z lo in
  Py.idx s lo + (Py.idx s hi - Py.idx s lo) * g.

End Np.

(* ------------------------------------------------------------------ *)
(** ** core/grid.py *)

Module Grid.

Record BeatGrid : Set := mkBeatGrid {
  bpm : Q;
  downbeat_t0 : Q;
  beats_per_bar : Z
}.

Definition beat_seconds (self : BeatGrid) : Q :=
  let bpm := Py.max 30 (Py.min 300 (bpm self)) in
  60 / bpm.

(** [beat_seconds] as the double the call returns: [float(self.bpm)] is the
    nearest double, the clamp keeps it or takes a bound, and the quotient is
    rounded.  For a BPM that is a double this is [beat_seconds] rounded. *)
Definition beat_seconds_f64 (self : BeatGrid) : Q :=
  let bpm := Py.max 30 (Py.min 300 (F64.rnd (bpm self))) in
  F64.div 60 bpm.

(** In doubles: the beat index is decided by the rounded beat length and
    the rounded elapsed time. *)
Definition beat_index_at (self : BeatGrid) (t : Q) : option Z :=
  let beat_s := beat_seconds_f64 self in
  let dt := F64.sub (F64.rnd t) (F64.rnd (downbeat_t0 self)) in
  if Py.Qltb dt 0 then None
  else Some (Py.int (F64.floordiv dt beat_s)).

(** The elapsed time [dt] of [beat_index_at]. *)
Definition elapsed (self : BeatGrid) (t : Q) : Q :=
  F64.sub (F64.rnd t) (F64.rnd (downbeat_t0 self)).

(** The clamp of the specification, [clamp(x, lo, hi)]. *)
Definition clamp (x lo hi : Q) : Q := Qmax lo (Qmin hi x).

End Grid.

(* ------------------------------------------------------------------ *)
(** ** core/detector.py *)

Module Detector.

(** A hit under construction: [(t, strength)]. *)
Abbreviation hit := (Q * Q)%type (only parsing).

(** Line 15: [hop = max(1, int(sr * hop_ms / 1000.0))]. *)
Definition hop_of (sr : Z) (hop_ms : Q) : Z :=
  Z.max 1 (Py.int (inject_Z sr * hop_ms / 1000)).

(** Line 18: [m = (n + hop - 1) // hop]. *)
Definition frames_of (n hop : Z) : Z := ((n + hop - 1) / hop)%Z.

(** Lines 19-24: the per-frame peak envelope. *)
Definition envelope (y : list Q) (hop : Z) : list Q :=
  let n := Py.len y in
  let m := frames_of n hop in
  map (fun i =>
         let a := (i * hop)%Z in
         let b := Z.min n (a + hop) in
         if (b >? a)%Z then Np.max (Np.abs (Py.slice y a b)) else 0)
      (Py.range 0 m).

(** Lines 26-31: three-point moving average when there are at least three
    frames. *)
Definition smooth (m : Z) (env : list Q) : list Q :=
  let k := 3%positive in
  if (m >=? Zpos k)%Z then Np.convolve_same env (Np.ones_over k)
  else env.

(** Lines 33-36. *)
Definition score_of (env_s : list Q) : list Q :=
  let d := Np.clip_negative (Np.diff_prepend env_s (hd 0 env_s)) in
  Py.map2 (fun e x => (6 # 10) * e + (4 # 10) * x) env_s d.

(** Lines 38-39. *)
Definition threshold (score : list Q) : Q :=
  let thr := Np.percentile score 92 in
  Py.max thr (8 # 100).

(** Line 41: [min_gap = int(max(1, (min_gap_ms / hop_ms)))]. *)
Definition min_gap_of (min_gap_ms hop_ms : Q) : Py.result Z :=
  q <- Py.truediv min_gap_ms hop_ms ;;
  Py.Ok (Py.int (Py.max 1 q)).

(** [hits[-1] = (hits[-1][0], v)] on a non-empty list. *)
Definition set_last_strength (hits : list hit) (v : Q) : list hit :=
  removelast hits ++ [(fst (last hits (0, 0)), v)].

(** Whether frame [i] passes lines 46-49: at or above the threshold and not
    below either neighbour. *)
Definition qualifies (score : list Q) (thr : Q) (i : Z) : bool :=
  negb (Py.Qltb (Py.idx score i) thr)
  && (Qle_bool (Py.idx score (i - 1)) (Py.idx score i)
      && Qle_bool (Py.idx score (i + 1)) (Py.idx score i)).

(** The body of the loop of lines 45-59 on the pair [(hits, last_i)]. *)
Definition scan_step (score : list Q) (thr : Q) (min_gap hop sr : Z)
  (st : list hit * Z) (i : Z) : Py.result (list hit * Z) :=
  let '(hits, last_i) := st in
  if Py.Qltb (Py.idx score i) thr then Py.Ok st
  else if negb (Qle_bool (Py.idx score (i - 1)) (Py.idx score i)
                && Qle_bool (Py.idx score (i + 1)) (Py.idx score i))
  then Py.Ok st
  else if (i - last_i <? min_gap)%Z then
    match hits with
    | [] => Py.Ok st
    | _ :: _ =>
        if Py.Qltb (snd (last hits (0, 0))) (Py.idx score i)
        then Py.Ok (set_last_strength hits (Py.idx score i), i)
        else Py.Ok st
    end
  else
    t <- Py.truediv (inject_Z (i * hop)) (inject_Z sr) ;;
    Py.Ok (hits ++ [(t, Py.idx score i)], i).

(** Lines 42-59: [for i in range(1, m - 1)], from [hits = []] and
    [last_i = -10**9]. *)
Definition scan (m : Z) (score : list Q) (thr : Q) (min_gap hop sr : Z)
  : Py.result (list hit * Z) :=
  fold_left (fun acc i => st <- acc ;; scan_step score thr min_gap hop sr st i)
            (Py.range 1 (m - 1))
            (Py.Ok ([], (- 10 ^ 9)%Z)).

(** Lines 61-70: min-max scaling of the accepted strengths. *)
Definition normalize (hits : list hit) : list hit :=
  match hits with
  | [] => []
  | h :: r =>
      let smin := fold_left Py.min (map snd r) (snd h) in
      let smax := fold_left Py.max (map snd r) (snd h) in
      map (fun '(t, v) =>
             let vv := if Py.Qltb smin smax then (v - smin) / (smax - smin)
                       else 1 in
             (t, vv))
          hits
  end.

(** The accepted hits with their raw scores (lines 11-59). *)
Definition raw_hits (y : list Q) (sr : Z) (hop_ms min_gap_ms : Q)
  : Py.result (list hit) :=
  match y with
  | [] => Py.Ok []
  | _ :: _ =>
      let hop := hop_of sr hop_ms in
      let m := frames_of (Py.len y) hop in
      let env := envelope y hop in
      let env_s := smooth m env in
      let score := score_of env_s in
      let thr := threshold score in
      min_gap <- min_gap_of min_gap_ms hop_ms ;;
      st <- scan m score thr min_gap hop sr ;;
      Py.Ok (fst st)
  end.

Definition detect_hits_peakish (y : list Q) (sr : Z) (hop_ms min_gap_ms : Q)
  : Py.result (list hit) :=
  hits <- raw_hits y sr hop_ms min_gap_ms ;;
  Py.Ok (normalize hits).

(** Default arguments [hop_ms=10.0], [min_gap_ms=90.0]. *)
Definition default_hop_ms : Q := 10.
Definition default_min_gap_ms : Q := 90.


(** A silent sample. *)
Definition zero (q : Q) : Prop := q == 0.

(** Line 57: the timestamp of frame [f]. *)
Definition time_of (hop sr : Z) (f : Z) : Q :=
  inject_Z (f * hop) / inject_Z sr.

(** Frame [b] lies at least [g] frames after frame [a]. *)
Definition apart (g : Z) (a b : Z) : Prop := (a + g <= b)%Z.

(** Consecutive timestamps grow strictly, by at least [gap] seconds. *)
Definition spaced (gap : Q) (ts : list Q) : Prop :=
  forall j : nat, (S j < List.length ts)%nat ->
    nth j ts 0 < nth (S j) ts 0 /\ gap <= nth (S j) ts 0 - nth j ts 0.

(** The state of the scan before frame [k]: the hits sit on frames [fs],
    pairwise at least [min_gap] apart, none before frame 1 and none after
    [last_i], and [last_i] is a frame already passed. *)
Definition scan_inv (min_gap hop sr : Z) (k : Z) (st : list hit * Z) : Prop :=
  exists fs : list Z,
    map fst (fst st) = map (time_of hop sr) fs
    /\ StronglySorted (apart min_gap) fs
    /\ Forall (fun f => (1 <= f <= snd st)%Z) fs
    /\ (snd st < k)%Z.

(** [lo] is the least and [hi] the greatest strength of [hits]. *)
Definition least_strength (lo : Q) (hits : list hit) : Prop :=
  Forall (fun h => lo <= snd h) hits /\ Exists (fun h => snd h == lo) hits.

Definition greatest_strength (hi : Q) (hits : list hit) : Prop :=
  Forall (fun h => snd h <= hi) hits /\ Exists (fun h => snd h == hi) hits.

End Detector.

(* ------------------------------------------------------------------ *)
(** ** core/tempo.py *)

Module Tempo.

(** The optional [librosa] dependency, as far as the estimator calls it:
    [librosa.onset.onset_strength] and [librosa.feature.tempo].  Either call
    may raise. *)
Record Librosa : Type := mkLibrosa {
  onset_strength : list Q -> Z -> Py.result (list Q);
  feature_tempo : list Q -> Z -> Py.result (list Q)
}.

(** The body of the [try] block. [import_librosa] is the outcome of
    [import librosa]. *)
Definition try_body (import_librosa : Py.result Librosa) (y : list Q) (sr : Z)
  : Py.result (option Q) :=
  librosa <- import_librosa ;;
  oenv <- onset_strength librosa y sr ;;
  tempo <- feature_tempo librosa oenv sr ;;
  let bpm := match tempo with
             | [] => None
             | x :: _ => Some x
             end in
  match bpm with
  | Some b =>
      if negb (Qeq_bool b 0) && (Qle_bool 30 b && Qle_bool b 300)
      then Py.Ok (Some b)
      else Py.Ok None
  | None => Py.Ok None
  end.

(** [try: ... except Exception: return None]. *)
Definition estimate_bpm_librosa_optional (import_librosa : Py.result Librosa)
  (y : list Q) (sr : Z) : option Q :=
  match try_body import_librosa y sr with
  | Py.Ok r => r
  | Py.Raise _ => None
  end.

End Tempo.

(* ------------------------------------------------------------------ *)
(** ** ui/timeline_widget.py: the state behind the window computation *)

Module Timeline.

Record HitEvent : Set := mkHitEvent {
  t : Q;
  strength : Q
}.

(** The fields of [TimelineWidget] that the windowing logic reads. *)
Record TimelineWidget : Set := mkTimelineWidget {
  _bpm : Q;
  _t0_downbeat : Q;
  _time_sig : Z * Z;
  _window_bars : Z;
  _hits : list HitEvent;
  _current_t : Q;
  _duration_s : Q
}.

(** [__init__]. *)
Definition init : TimelineWidget :=
  mkTimelineWidget 120 0 (4, 4)%Z 2%Z [] 0 0.

Definition set_bpm (self : TimelineWidget) (bpm : Q) : TimelineWidget :=
  mkTimelineWidget (Py.max 30 (Py.min 300 bpm)) (_t0_downbeat self)
    (_time_sig self) (_window_bars self) (_hits self) (_current_t self)
    (_duration_s self).

Definition set_downbeat_t0 (self : TimelineWidget) (t0 : Q) : TimelineWidget :=
  mkTimelineWidget (_bpm self) (Py.max 0 t0) (_time_sig self)
    (_window_bars self) (_hits self) (_current_t self) (_duration_s self).

Definition set_duration (self : TimelineWidget) (duration_s : Q)
  : TimelineWidget :=
  mkTimelineWidget (_bpm self) (_t0_downbeat self) (_time_sig self)
    (_window_bars self) (_hits self) (_current_t self) (Py.max 0 duration_s).

Definition set_hits (self : TimelineWidget) (hits : list HitEvent)
  : TimelineWidget :=
  mkTimelineWidget (_bpm self) (_t0_downbeat self) (_time_sig self)
    (_window_bars self) hits (_current_t self) (_duration_s self).

Definition update_transport (self : TimelineWidget) (current_t : Q)
  : TimelineWidget :=
  mkTimelineWidget (_bpm self) (_t0_downbeat self) (_time_sig self)
    (_window_bars self) (_hits self) (Py.max 0 current_t) (_duration_s self).

Definition _bars_window_seconds (self : TimelineWidget) : Py.result Q :=
  let beats_per_bar := fst (_time_sig self) in
  beat_s <- Py.truediv 60 (_bpm self) ;;
  Py.Ok (inject_Z (_window_bars self) * inject_Z beats_per_bar * beat_s).

Definition _current_window (self : TimelineWidget) : Py.result (Q * Q) :=
  w <- _bars_window_seconds self ;;
  let start := _current_t self - w * (25 # 100) in
  let start := Py.max 0 start in
  let end_ := start + w in
  if Py.Qltb 0 (_duration_s self) then
    let end_ := Py.min (_duration_s self) end_ in
    let start := Py.max 0 (end_ - w) in
    Py.Ok (start, end_)
  else Py.Ok (start, end_).

(** The states the public setters can produce from [init]. *)
Inductive reachable : TimelineWidget -> Prop :=
| reach_init : reachable init
| reach_bpm w b : reachable w -> reachable (set_bpm w b)
| reach_t0 w t0 : reachable w -> reachable (set_downbeat_t0 w t0)
| reach_duration w d : reachable w -> reachable (set_duration w d)
| reach_hits w h : reachable w -> reachable (set_hits w h)
| reach_transport w t : reachable w -> reachable (update_transport w t).

(** The window as the specification words it: width
    [2 * beats_per_bar * beat_seconds], the playhead at the 25% mark, the
    start clamped to zero, the end clamped to a known duration. *)
Definition window_width (bpm : Q) (beats_per_bar : Z) : Q :=
  2 * inject_Z beats_per_bar * (60 / Grid.clamp bpm 30 300).

Definition window_reference (t bpm : Q) (beats_per_bar : Z) (D : Q) : Q * Q :=
  let w := window_width bpm beats_per_bar in
  let start := Qmax 0 (t - w * (1 # 4)) in
  let end_ := start + w in
  if Qlt_le_dec 0 D then
    let end' := Qmin D end_ in
    (Qmax 0 (end' - w), end')
  else (start, end_).

(** What every setter keeps: the stored BPM is clamped and the view shows
    two bars. *)
Definition valid (w : TimelineWidget) : Prop :=
  30 <= _bpm w <= 300 /\ _window_bars w = 2%Z.

End Timeline.

(* ------------------------------------------------------------------ *)
(** ** models/project.py *)

Module Models.

(** A JSON document.  [json.dumps] followed by [json.loads] is taken to give
    back the document it was given, so a saved file holds the document
    itself; a [dict] keeps its keys in insertion order. *)
#[warnings="-register-all"]
Inductive json : Type :=
| JNull
| JNum (q : Q)
| JStr (s : string)
| JList (l : list json)
| JDict (d : list (string * json)).

(** [d.get(k)]. *)
Fixpoint dict_get (d : list (string * json)) (k : string) : option json :=
  match d with
  | [] => None
  | (k', v) :: r => if String.eqb k' k then Some v else dict_get r k
  end.

(** [d[k] = v]: overwrite in place, or append a new key. *)
Fixpoint dict_set (d : list (string * json)) (k : string) (v : json)
  : list (string * json) :=
  match d with
  | [] => [(k, v)]
  | (k', v') :: r =>
      if String.eqb k' k then (k', v) :: r else (k', v') :: dict_set r k v
  end.

Record Marker : Set := mkMarker {
  t : Q;
  label : string;
  kind : string
}.

Record Project : Set := mkProject {
  audio_path : string;
  bpm : Q;
  downbeat_t0 : Q;
  markers : option (list Marker)
}.

(** [asdict(m)] on a marker. *)
Definition marker_asdict (m : Marker) : json :=
  JDict [("t", JNum (t m));
         ("label", JStr (label m));
         ("kind", JStr (kind m))]%string.

(** [asdict(self)] on a project; it recurses into the marker list. *)
Definition project_asdict (self : Project) : list (string * json) :=
  [("audio_path", JStr (audio_path self));
   ("bpm", JNum (bpm self));
   ("downbeat_t0", JNum (downbeat_t0 self));
   ("markers", match markers self with
               | None => JNull
               | Some l => JList (map marker_asdict l)
               end)]%string.

Definition to_dict (self : Project) : json :=
  let d := project_asdict self in
  let ms := match markers self with
            | None => []
            | Some l => l
            end in
  JDict (dict_set d "markers" (JList (map marker_asdict ms))).

(** The files of the disk: path to saved document. *)
Definition disk : Type := string -> option json.

Definition write_text (fs : disk) (path : string) (doc : json) : disk :=
  fun p => if String.eqb p path then Some doc else fs p.

Definition save (self : Project) (fs : disk) (path : string) : disk :=
  write_text fs path (to_dict self).

(** The keyword call of [Marker] on a dict [m]: [t] is required, [label]
    and [kind] have defaults, any other key is refused.  The record is
    typed, so a value of another JSON type is refused as well. *)
Fixpoint marker_kwargs (d : list (string * json))
  (acc : option Q * option string * option string)
  : Py.result (option Q * option string * option string) :=
  match d with
  | [] => Py.Ok acc
  | (k, v) :: r =>
      let '(ot, ol, ok) := acc in
      if String.eqb k "t" then
        match v with
        | JNum q => marker_kwargs r (Some q, ol, ok)
        | _ => Py.Raise Py.TypeError
        end
      else if String.eqb k "label" then
        match v with
        | JStr s => marker_kwargs r (ot, Some s, ok)
        | _ => Py.Raise Py.TypeError
        end
      else if String.eqb k "kind" then
        match v with
        | JStr s => marker_kwargs r (ot, ol, Some s)
        | _ => Py.Raise Py.TypeError
        end
      else Py.Raise Py.TypeError
  end.

Definition marker_of_json (m : json) : Py.result Marker :=
  match m with
  | JDict d =>
      a <- marker_kwargs d (None, None, None) ;;
      let '(ot, ol, ok) := a in
      match ot with
      | None => Py.Raise Py.TypeError
      | Some q =>
          Py.Ok (mkMarker q
                   (match ol with Some s => s | None => "" end)
                   (match ok with Some s => s | None => "hit" end))
      end
  | _ => Py.Raise Py.TypeError
  end.

(** The list comprehension building one [Marker] per entry. *)
Fixpoint markers_of_json (ms : list json) : Py.result (list Marker) :=
  match ms with
  | [] => Py.Ok []
  | m :: r =>
      x <- marker_of_json m ;;
      xs <- markers_of_json r ;;
      Py.Ok (x :: xs)
  end.

(** [float(data.get(k, default))] on a JSON number.  The record is typed:
    a string or a boolean, which [float] would convert, is refused here. *)
Definition float_field (d : list (string * json)) (k : string) (default : Q)
  : Py.result Q :=
  match dict_get d k with
  | None => Py.Ok default
  | Some (JNum q) => Py.Ok q
  | Some _ => Py.Raise Py.TypeError
  end.

(** [load].  The comprehension iterates whatever [markers] holds: a list
    gives its markers; an empty string or an empty dict gives no marker; a
    non-empty string or dict hands [Marker] a string, and a number or null
    cannot be iterated, which are all [TypeError]. *)
Definition load (fs : disk) (path : string) : Py.result Project :=
  match fs path with
  | None => Py.Raise Py.FileNotFoundError
  | Some (JDict data) =>
      ms <- match dict_get data "markers" with
            | None => Py.Ok []
            | Some (JList l) => markers_of_json l
            | Some (JStr EmptyString) => Py.Ok []
            | Some (JDict []) => Py.Ok []
            | Some _ => Py.Raise Py.TypeError
            end ;;
      ap <- match dict_get data "audio_path" with
            | None => Py.Raise Py.KeyError
            | Some (JStr s) => Py.Ok s
            | Some _ => Py.Raise Py.TypeError
            end ;;
      b <- float_field data "bpm" 120 ;;
      t0 <- float_field data "downbeat_t0" 0 ;;
      Py.Ok (mkProject ap b t0 (Some ms))
  | Some _ => Py.Raise Py.OtherError
  end.

End Models.

(* ------------------------------------------------------------------ *)
(** ** core/detector.py: the intermediate values of one run *)

Module DetectorRun.
Import Detector.

(** The number of frames [m] of a run. *)
Definition frames (y : list Q) (sr : Z) (hop_ms : Q) : Z :=
  frames_of (Py.len y) (hop_of sr hop_ms).

(** The array [score] of a run (lines 15-36). *)
Definition score_for (y : list Q) (sr : Z) (hop_ms : Q) : list Q :=
  score_of (smooth (frames y sr hop_ms) (envelope y (hop_of sr hop_ms))).

(** The threshold [thr] of a run (lines 38-39). *)
Definition threshold_for (y : list Q) (sr : Z) (hop_ms : Q) : Q :=
  threshold (score_for y sr hop_ms).

(** A hit of the scan before frame [k] is backed by two qualifying frames:
    [f], where it was accepted and which gives its timestamp, and [f'], at
    or after [f], whose score is its strength; the strength is never below
    the score at [f]. *)
Definition hit_backed (score : list Q) (thr : Q) (hop sr k : Z) (h : hit)
  : Prop :=
  exists f f' : Z,
    (1 <= f <= f')%Z /\ (f' < k)%Z
    /\ fst h = time_of hop sr f
    /\ qualifies score thr f = true
    /\ qualifies score thr f' = true
    /\ snd h = Py.idx score f'
    /\ Py.idx score f <= snd h.

End DetectorRun.

(* ------------------------------------------------------------------ *)
(** ** ui/timeline_widget.py: what the redraws put on the plot *)

Module TimelineDraw.
Import Timeline.

(** One turn of the grid loop adds a line and its label to the plot: the
    position of the line, whether it is drawn with the strong pen, and the
    number shown under it. *)
Record GridLine : Set := mkGridLine {
  pos : Q;
  is_bar_head : bool;
  beat_num : Z
}.

(** [a % b] on ints. *)
Definition py_mod (a b : Z) : Py.result Z :=
  if (b =? 0)%Z then Py.Raise Py.ZeroDivisionError else Py.Ok (a mod b)%Z.

(** [np.floor(x)], a float. *)
Definition np_floor (x : Q) : Q := inject_Z (Qfloor x).

(** [_bars_window_seconds] and [_current_window] in doubles: the window
    [_redraw_grid] gets back, against which it decides the first and the
    last line. *)
Definition _bars_window_seconds_f64 (self : TimelineWidget) : Py.result Q :=
  let beats_per_bar := fst (_time_sig self) in
  beat_s <- F64.truediv 60 (_bpm self) ;;
  Py.Ok (F64.mul (F64.of_int (_window_bars self * beats_per_bar)) beat_s).

Definition _current_window_f64 (self : TimelineWidget) : Py.result (Q * Q) :=
  w <- _bars_window_seconds_f64 self ;;
  let start := F64.sub (_current_t self) (F64.mul w (1 # 4)) in
  let start := Py.max 0 start in
  let end_ := F64.add start w in
  if Py.Qltb 0 (_duration_s self) then
    let end_ := Py.min (_duration_s self) end_ in
    let start := Py.max 0 (F64.sub end_ w) in
    Py.Ok (start, end_)
  else Py.Ok (start, end_).

(** [self._t0_downbeat + k * beat_s] in doubles, as lines 144 and 148
    compute it for an int [k]. *)
Definition beat_time (t0 beat_s : Q) (k : Z) : Q :=
  F64.add t0 (F64.mul (F64.of_int k) beat_s).

(** Lines 147-165: the [while True] loop from beat [k], with the items
    added so far; [None] when the fuel runs out before the [break]. *)
Fixpoint grid_loop (fuel : nat) (t0 beat_s end_ : Q) (beats_per_bar k : Z)
  (items : list GridLine) : option (Py.result (list GridLine)) :=
  match fuel with
  | O => None
  | S fuel' =>
      let t := beat_time t0 beat_s k in
      if Py.Qltb end_ t then Some (Py.Ok items)
      else
        match py_mod k beats_per_bar with
        | Py.Raise e => Some (Py.Raise e)
        | Py.Ok r =>
            let line := mkGridLine t (r =? 0)%Z (r + 1)%Z in
            grid_loop fuel' t0 beat_s end_ beats_per_bar (k + 1)
              (items ++ [line])
        end
  end.

(** Lines 143-145: the first beat index of the window. *)
Definition first_beat (t0 beat_s start : Q) : Z :=
  let k0 := Py.int (np_floor (F64.div (F64.sub start t0) beat_s)) in
  if Py.Qltb (beat_time t0 beat_s k0) start then (k0 + 1)%Z else k0.

(** [_redraw_grid]: the items put on the cleared plot and the x range set
    at the end; no range is set on the early return. *)
Definition _redraw_grid (fuel : nat) (self : TimelineWidget)
  : option (Py.result (list GridLine * option (Q * Q))) :=
  match _current_window_f64 self with
  | Py.Raise e => Some (Py.Raise e)
  | Py.Ok (start, end_) =>
      let beats_per_bar := fst (_time_sig self) in
      match F64.truediv 60 (_bpm self) with
      | Py.Raise e => Some (Py.Raise e)
      | Py.Ok beat_s =>
          if Qle_bool beat_s 0 then Some (Py.Ok ([], None))
          else
            let k0 := first_beat (_t0_downbeat self) beat_s start in
            match grid_loop fuel (_t0_downbeat self) beat_s end_
                    beats_per_bar k0 [] with
            | None => None
            | Some (Py.Raise e) => Some (Py.Raise e)
            | Some (Py.Ok items) => Some (Py.Ok (items, Some (start, end_)))
            end
      end
  end.

(** Line 184: the height a hit is drawn with. *)
Definition bar_height (strength : Q) : Q :=
  Py.max (2 # 100) (Py.min 1 strength).



(** The grid line of beat [k], as the loop builds it. *)
Definition line_at (t0 beat_s : Q) (beats_per_bar k : Z) : GridLine :=
  mkGridLine (beat_time t0 beat_s k)
             (k mod beats_per_bar =? 0)%Z
             (k mod beats_per_bar + 1)%Z.


End TimelineDraw.

(* ------------------------------------------------------------------ *)
(** ** audio/loader.py: what happens to the decoded samples *)

Module Loader.

(** What the decoder hands back: a one-dimensional array of samples, or a
    two-dimensional one with one row per frame and one column per
    channel. *)
Inductive ndarray : Type :=
| Mono (y : list Q)
| Frames (rows : list (list Q)).

(** [len(y)]: the size of the first axis. *)
Definition len (y : ndarray) : Z :=
  match y with
  | Mono l => Py.len l
  | Frames rows => Py.len rows
  end.

(** [y.mean(axis=1)] on a two-dimensional array whose rows are not empty. *)
Definition mean_axis1 (rows : list (list Q)) : list Q :=
  map (fun row => fold_left Qplus row 0 / inject_Z (Py.len row)) rows.

(** [l[:k]]: a negative [k] counts from the end. *)
Definition prefix {A : Type} (l : list A) (k : Z) : list A :=
  if (k <? 0)%Z then firstn (Z.to_nat (Py.len l + k)) l
  else firstn (Z.to_nat k) l.

(** [y[:k]] along the first axis. *)
Definition take (y : ndarray) (k : Z) : ndarray :=
  match y with
  | Mono l => Mono (prefix l k)
  | Frames rows => Frames (prefix rows k)
  end.

(** All the cells of the array. *)
Definition cells (y : ndarray) : list Q :=
  match y with
  | Mono l => l
  | Frames rows => List.concat rows
  end.

(** [float(np.max(np.abs(y)))]; NumPy raises [ValueError] on an array
    without cells. *)
Definition peak (y : ndarray) : Py.result Q :=
  match cells y with
  | [] => Py.Raise Py.OtherError
  | _ :: _ => Py.Ok (Np.max (Np.abs (cells y)))
  end.

(** [y / m]. *)
Definition scale (y : ndarray) (m : Q) : ndarray :=
  match y with
  | Mono l => Mono (map (fun s => s / m) l)
  | Frames rows => Frames (map (map (fun s => s / m)) rows)
  end.

(** Lines 93-112: channel reduction, trimming and peak normalisation of
    the decoded array [y] at sample rate [sr]. *)
Definition shape_for_analysis (y : ndarray) (sr : Z) (mono : bool)
  (max_seconds : Q) : Py.result (ndarray * Z) :=
  let y := match y with
           | Frames rows => if mono then Mono (mean_axis1 rows) else y
           | Mono _ => y
           end in
  let y := if negb (Qeq_bool max_seconds 0) && Py.Qltb 0 max_seconds then
             let max_n := Py.int (max_seconds * inject_Z sr) in
             if (max_n <? len y)%Z then take y max_n else y
           else y in
  m <- (if (len y =? 0)%Z then Py.Ok 1 else peak y) ;;
  let y := if Py.Qltb 0 m then scale y m else y in
  Py.Ok (y, sr).

(** [load_audio_for_analysis]: [exists_] is [path.exists()], [decoded] the
    outcome of the decoding branch taken for the file's extension. *)
Definition load_audio_for_analysis (exists_ : bool)
  (decoded : Py.result (ndarray * Z)) (mono : bool) (max_seconds : Q)
  : Py.result (ndarray * Z) :=
  if negb exists_ then Py.Raise Py.FileNotFoundError
  else
    d <- decoded ;;
    shape_for_analysis (fst d) (snd d) mono max_seconds.

End Loader.

(* ------------------------------------------------------------------ *)
(** ** audio/player.py and ui/main_window.py: the beat flash *)

Module App.
Import Grid.

(** [position_seconds] and [duration_seconds] from the player's
    milliseconds, in doubles. *)
Definition position_seconds (position_ms : Z) : Q :=
  F64.div (F64.of_int position_ms) 1000.

Definition duration_seconds (duration_ms : Z) : Q :=
  F64.div (F64.of_int duration_ms) 1000.

(** The fields of [MainWindow] behind the beat flash; [player_loaded] is
    [self.player.is_loaded()] and [monitor_on] the state of the beat
    monitor. *)
Record MainWindow : Type := mkMainWindow {
  grid : BeatGrid;
  current_file : option string;
  _last_beat_index : option Z;
  timeline : Timeline.TimelineWidget;
  player_loaded : bool;
  monitor_on : bool
}.

(** [__init__]. *)
Definition init : MainWindow :=
  mkMainWindow (mkBeatGrid 120 0 4) None None Timeline.init false false.

Definition on_bpm_changed (self : MainWindow) (bpm : Q) : MainWindow :=
  mkMainWindow
    (mkBeatGrid bpm (downbeat_t0 (grid self)) (beats_per_bar (grid self)))
    (current_file self) None
    (Timeline.set_bpm (timeline self) bpm)
    (player_loaded self) (monitor_on self).

(** [set_downbeat_here], with the player's position in milliseconds. *)
Definition set_downbeat_here (self : MainWindow) (position_ms : Z)
  : MainWindow :=
  if negb (player_loaded self) then self
  else
    let t := position_seconds position_ms in
    mkMainWindow
      (mkBeatGrid (bpm (grid self)) t (beats_per_bar (grid self)))
      (current_file self) None
      (Timeline.set_downbeat_t0 (timeline self) t)
      (player_loaded self) (monitor_on self).

(** [on_tick], with the player's position in milliseconds; the boolean
    tells whether [flash_beat] was called. *)
Definition on_tick (self : MainWindow) (position_ms : Z)
  : MainWindow * bool :=
  if negb (player_loaded self) then (self, false)
  else
    let t := position_seconds position_ms in
    let tl := Timeline.update_transport (timeline self) t in
    match beat_index_at (grid self) t with
    | None =>
        (mkMainWindow (grid self) (current_file self) (_last_beat_index self)
           tl (player_loaded self) (monitor_on self), false)
    | Some beat_index =>
        match _last_beat_index self with
        | None =>
            (mkMainWindow (grid self) (current_file self) (Some beat_index)
               tl (player_loaded self) (monitor_on self), false)
        | Some last =>
            if (beat_index =? last)%Z then
              (mkMainWindow (grid self) (current_file self) (Some last)
                 tl (player_loaded self) (monitor_on self), false)
            else
              (mkMainWindow (grid self) (current_file self) (Some beat_index)
                 tl (player_loaded self) true, true)
        end
    end.

(** The single-shot timer of [flash_beat] firing. *)
Definition flash_timeout (self : MainWindow) : MainWindow :=
  mkMainWindow (grid self) (current_file self) (_last_beat_index self)
    (timeline self) (player_loaded self) false.

(** [load_audio]: [player_load] is the outcome of [self.player.load(path)],
    [duration_ms] the player's duration, [analysis] the outcome of
    [load_audio_for_analysis]; every exception ends in the message box and
    leaves the state as it is at that point. *)
Definition load_audio (self : MainWindow) (path : string)
  (player_load : Py.result unit) (duration_ms : Z)
  (analysis : Py.result (list Q * Z)) : MainWindow :=
  match player_load with
  | Py.Raise _ => self
  | Py.Ok _ =>
      let dur := duration_seconds duration_ms in
      let tl := Timeline.set_duration (timeline self) dur in
      let tl := Timeline.set_downbeat_t0 tl 0 in
      let s1 :=
        mkMainWindow
          (mkBeatGrid (bpm (grid self)) 0 (beats_per_bar (grid self)))
          (Some path) None tl true (monitor_on self) in
      match analysis with
      | Py.Raise _ => s1
      | Py.Ok (y, sr) =>
          match Detector.detect_hits_peakish y sr 10 90 with
          | Py.Raise _ => s1
          | Py.Ok hits =>
              mkMainWindow (grid s1) (current_file s1) (_last_beat_index s1)
                (Timeline.set_hits tl
                   (map (fun h => Timeline.mkHitEvent (fst h) (snd h)) hits))
                (player_loaded s1) (monitor_on s1)
          end
      end
  end.

(** The states the handlers can produce from [init], with player positions
    and durations that are not negative. *)
Inductive reachable : MainWindow -> Prop :=
| reach_init : reachable init
| reach_bpm s b : reachable s -> reachable (on_bpm_changed s b)
| reach_downbeat s ms :
    reachable s -> (0 <= ms)%Z -> reachable (set_downbeat_here s ms)
| reach_tick s ms :
    reachable s -> (0 <= ms)%Z -> reachable (fst (on_tick s ms))
| reach_timeout s : reachable s -> reachable (flash_timeout s)
| reach_load s path pl ms an :
    reachable s -> (0 <= ms)%Z -> reachable (load_audio s path pl ms an).

End App.

(* ================================================================== *)
(** * Properties *)

(* ------------------------------------------------------------------ *)
(** ** Python numerics *)

Module PyFacts.

Lemma Qltb_lt (a b : Q) : Py.Qltb a b = true <-> a < b.
Proof.
  unfold Py.Qltb. rewrite negb_true_iff.
  split; intro H.
  - apply Qnot_le_lt. intro L. apply Qle_bool_iff in L. congruence.
  - destruct (Qle_bool b a) eqn:E; [|reflexivity].
    apply Qle_bool_iff in E. lra.
Qed.

Lemma Qltb_ge (a b : Q) : Py.Qltb a b = false <-> b <= a.
Proof.
  unfold Py.Qltb. rewrite negb_false_iff. apply Qle_bool_iff.
Qed.

Lemma py_max_Qmax (a b : Q) : Py.max a b == Qmax a b.
Proof.
  unfold Py.max. destruct (Py.Qltb a b) eqn:E.
  - apply Qltb_lt in E. symmetry. apply Q.max_r. lra.
  - apply Qltb_ge in E. symmetry. apply Q.max_l. lra.
Qed.

Lemma py_min_Qmin (a b : Q) : Py.min a b == Qmin a b.
Proof.
  unfold Py.min. destruct (Py.Qltb b a) eqn:E.
  - apply Qltb_lt in E. symmetry. apply Q.min_r. lra.
  - apply Qltb_ge in E. symmetry. apply Q.min_l. lra.
Qed.

Lemma py_max_cases (a b : Q) :
  (a < b /\ Py.max a b = b) \/ (b <= a /\ Py.max a b = a).
Proof.
  unfold Py.max. destruct (Py.Qltb a b) eqn:E.
  - left. apply Qltb_lt in E. auto.
  - right. apply Qltb_ge in E. auto.
Qed.

Lemma py_min_cases (a b : Q) :
  (b < a /\ Py.min a b = b) \/ (a <= b /\ Py.min a b = a).
Proof.
  unfold Py.min. destruct (Py.Qltb b a) eqn:E.
  - left. apply Qltb_lt in E. auto.
  - right. apply Qltb_ge in E. auto.
Qed.

Lemma int_inject_Z (z : Z) : Py.int (inject_Z z) = z.
Proof. unfold Py.int. simpl. apply Z.quot_1_r. Qed.

Lemma clamped_bpm_bounds (b : Q) :
  30 <= Py.max 30 (Py.min 300 b) <= 300.
Proof.
  destruct (py_min_cases 300 b) as [[H1 ->]|[H1 ->]];
    destruct (py_max_cases 30 b) as [[H2 E]|[H2 E]];
    destruct (py_max_cases 30 300) as [[H3 E']|[H3 E']];
    rewrite ?E, ?E'; lra.
Qed.

Lemma Qdiv_60_lt (a b : Q) : 0 < a -> a < b -> 60 / b < 60 / a.
Proof.
  intros Ha Hab.
  apply Qlt_shift_div_l; [lra|].
  assert (E : 60 / b * a == 60 * a / b) by (field; lra).
  rewrite E. apply Qlt_shift_div_r; lra.
Qed.

Lemma int_whole (x : Q) (n : Z) : x == inject_Z n -> Py.int x = n.
Proof.
  destruct x as [p d]. unfold Qeq, Py.int. cbn. intro E.
  rewrite Z.mul_1_r in E. rewrite E. apply Z.quot_mul. discriminate.
Qed.

Lemma int_ge_0 (x : Q) : 0 <= x -> (0 <= Py.int x)%Z.
Proof.
  destruct x as [p d]. unfold Qle, Py.int. cbn. intro H.
  apply Z.quot_pos; lia.
Qed.

End PyFacts.

(* ------------------------------------------------------------------ *)
(** ** Doubles: rounding keeps the order and the sign *)

Module F64Facts.
Import F64 PyFacts.

(** [round] is within one half of its argument. *)
Lemma round_near (x : Q) :
  x - (1 # 2) <= inject_Z (Py.round x) /\ inject_Z (Py.round x) <= x + (1 # 2).
Proof.
  pose proof (Qfloor_le x) as Lo.
  pose proof (Qlt_floor x) as Hi. rewrite inject_Z_plus in Hi.
  change (inject_Z 1) with 1 in Hi.
  unfold Py.round.
  destruct (Py.Qltb (x - inject_Z (Qfloor x)) (1 # 2)) eqn:A.
  - apply Qltb_lt in A. lra.
  - apply Qltb_ge in A.
    assert (S1 : inject_Z (Qfloor x + 1) == inject_Z (Qfloor x) + 1)
      by (rewrite inject_Z_plus; reflexivity).
    destruct (Py.Qltb (1 # 2) (x - inject_Z (Qfloor x))) eqn:B.
    + apply Qltb_lt in B. rewrite S1. lra.
    + apply Qltb_ge in B.
      destruct (Z.even (Qfloor x)); [lra | rewrite S1; lra].
Qed.

Lemma round_comp (x y : Q) : x == y -> Py.round x = Py.round y.
Proof.
  intro E. unfold Py.round.
  assert (F : Qfloor x = Qfloor y) by (rewrite E; reflexivity).
  rewrite F.
  assert (R : x - inject_Z (Qfloor y) == y - inject_Z (Qfloor y))
    by (rewrite E; reflexivity).
  assert (B1 : Py.Qltb (x - inject_Z (Qfloor y)) (1 # 2)
               = Py.Qltb (y - inject_Z (Qfloor y)) (1 # 2)).
  { destruct (Py.Qltb (y - inject_Z (Qfloor y)) (1 # 2)) eqn:A.
    - apply Qltb_lt. apply Qltb_lt in A. lra.
    - apply Qltb_ge. apply Qltb_ge in A. lra. }
  assert (B2 : Py.Qltb (1 # 2) (x - inject_Z (Qfloor y))
               = Py.Qltb (1 # 2) (y - inject_Z (Qfloor y))).
  { destruct (Py.Qltb (1 # 2) (y - inject_Z (Qfloor y))) eqn:A.
    - apply Qltb_lt. apply Qltb_lt in A. lra.
    - apply Qltb_ge. apply Qltb_ge in A. lra. }
  rewrite B1, B2. reflexivity.
Qed.

Lemma round_le (x y : Q) : x <= y -> (Py.round x <= Py.round y)%Z.
Proof.
  intro L.
  destruct (Z_le_gt_dec (Py.round x) (Py.round y)) as [H|H]; [exact H|].
  exfalso.
  assert (G : (Py.round y + 1 <= Py.round x)%Z) by lia.
  rewrite Zle_Qle, inject_Z_plus in G. change (inject_Z 1) with 1 in G.
  pose proof (round_near x) as [X1 X2].
  pose proof (round_near y) as [Y1 Y2].
  assert (E : x == y) by lra.
  apply round_comp in E. lia.
Qed.

Lemma round_Z (z : Z) : Py.round (inject_Z z) = z.
Proof.
  unfold Py.round. rewrite Qfloor_Z.
  assert (A : Py.Qltb (inject_Z z - inject_Z z) (1 # 2) = true)
    by (apply Qltb_lt; lra).
  rewrite A. reflexivity.
Qed.

Lemma round_le_Z (x : Q) (z : Z) :
  x <= inject_Z z -> (Py.round x <= z)%Z.
Proof. intro H. apply round_le in H. rewrite round_Z in H. exact H. Qed.

Lemma round_ge_Z (x : Q) (z : Z) :
  inject_Z z <= x -> (z <= Py.round x)%Z.
Proof. intro H. apply round_le in H. rewrite round_Z in H. exact H. Qed.

Lemma pow2_pos (e : Z) : 0 < pow2 e.
Proof. apply Qpower_0_lt. reflexivity. Qed.

Lemma pow2_add (a b : Z) : pow2 (a + b) == pow2 a * pow2 b.
Proof. apply Qpower_plus. discriminate. Qed.

Lemma pow2_le (a b : Z) : (a <= b)%Z -> pow2 a <= pow2 b.
Proof. intro H. apply Qpower_le_compat_l; [exact H | discriminate]. Qed.

Lemma pow2_lt_inv (a b : Z) : pow2 a < pow2 b -> (a < b)%Z.
Proof. intro H. apply (Qpower_lt_compat_l_inv 2); [exact H | reflexivity]. Qed.

Lemma pow2_Z (a : Z) : (0 <= a)%Z -> pow2 a == inject_Z (2 ^ a).
Proof. intro H. symmetry. apply (Zpower_Qpower 2 a H). Qed.

Lemma pow2_sub (a b : Z) : pow2 (a - b) == pow2 a / pow2 b.
Proof.
  pose proof (pow2_pos b) as P.
  assert (E : pow2 a == pow2 (a - b) * pow2 b).
  { rewrite <- pow2_add. replace (a - b + b)%Z with a by ring. reflexivity. }
  rewrite E. field. lra.
Qed.

(** [ilog2 x] is the binary exponent of a positive [x]. *)
Lemma ilog2_spec (x : Q) :
  0 < x -> pow2 (ilog2 x) <= x /\ x < pow2 (ilog2 x + 1).
Proof.
  intro P. destruct x as [n d]. 
  assert (N : (0 < n)%Z).
  { unfold Qlt in P. simpl in P. lia. }
  pose proof (Z.log2_spec n N) as [A1 A2].
  pose proof (Z.log2_spec (Zpos d) (Pos2Z.is_pos d)) as [B1 B2].
  pose proof (Z.log2_nonneg n) as An.
  pose proof (Z.log2_nonneg (Zpos d)) as Bn.
  set (a := Z.log2 n) in *. set (b := Z.log2 (Zpos d)) in *.
  rewrite Zle_Qle in A1, B1. rewrite Zlt_Qlt in A2, B2.
  replace (Z.succ a) with (a + 1)%Z in A2 by lia.
  replace (Z.succ b) with (b + 1)%Z in B2 by lia.
  rewrite <- pow2_Z in A1, A2, B1, B2 by lia.
  assert (X : n # d == inject_Z n / inject_Z (Zpos d)) by apply Qmake_Qdiv.
  assert (D : 0 < inject_Z (Zpos d)) by reflexivity.
  assert (Up : n # d < pow2 (a - b + 1)).
  { replace (a - b + 1)%Z with (a + 1 - b)%Z by ring.
    rewrite pow2_sub, X.
    pose proof (pow2_pos b). pose proof (pow2_pos (a + 1)).
    apply Qlt_shift_div_l; [assumption|].
    assert (E : inject_Z n / inject_Z (Zpos d) * pow2 b
                == inject_Z n * pow2 b / inject_Z (Zpos d)) by (field; lra).
    rewrite E. apply Qlt_shift_div_r; [exact D|]. nra. }
  assert (Lo : pow2 (a - b - 1) <= n # d).
  { replace (a - b - 1)%Z with (a - (b + 1))%Z by ring.
    rewrite pow2_sub, X.
    pose proof (pow2_pos (b + 1)). pose proof (pow2_pos a).
    apply Qle_shift_div_r; [assumption|].
    assert (E : inject_Z n / inject_Z (Zpos d) * pow2 (b + 1)
                == inject_Z n * pow2 (b + 1) / inject_Z (Zpos d))
      by (field; lra).
    rewrite E. apply Qle_shift_div_l; [exact D|]. nra. }
  unfold ilog2. cbn [Qnum Qden]. fold a b.
  destruct (Qle_bool (pow2 (a - b)) (n # d)) eqn:C.
  - apply Qle_bool_iff in C. split; assumption.
  - assert (C' : n # d < pow2 (a - b)).
    { apply Qnot_le_lt. intro L. apply Qle_bool_iff in L. congruence. }
    replace (a - b - 1 + 1)%Z with (a - b)%Z by ring.
    split; [exact Lo | exact C'].
Qed.

Lemma ilog2_le (x y : Q) : 0 < x -> x <= y -> (ilog2 x <= ilog2 y)%Z.
Proof.
  intros P L.
  pose proof (ilog2_spec x P) as [X1 _].
  assert (Py : 0 < y) by lra.
  pose proof (ilog2_spec y Py) as [_ Y2].
  assert (H : (ilog2 x < ilog2 y + 1)%Z) by (apply pow2_lt_inv; lra).
  lia.
Qed.

Lemma ulp_exp_le (x y : Q) : 0 < x -> x <= y -> (ulp_exp x <= ulp_exp y)%Z.
Proof.
  intros P L. unfold ulp_exp. pose proof (ilog2_le x y P L). lia.
Qed.

Lemma scaled (x : Q) (e : Z) : x / pow2 e * pow2 e == x.
Proof. pose proof (pow2_pos e). field. lra. Qed.

Lemma inject_Z_pow2 (a : Z) : (0 <= a)%Z -> inject_Z (2 ^ a) == pow2 a.
Proof. intro H. apply (Zpower_Qpower 2 a H). Qed.

(** The significand of a positive [x] has at most 53 bits. *)
Lemma round_pos_upper (x : Q) :
  0 < x -> round_pos x <= pow2 (ulp_exp x + 53).
Proof.
  intro P. unfold round_pos.
  pose proof (ilog2_spec x P) as [_ Hi].
  pose proof (pow2_pos (ulp_exp x)) as Pe.
  assert (B : x / pow2 (ulp_exp x) <= inject_Z (2 ^ 53)).
  { rewrite inject_Z_pow2 by lia.
    apply Qle_shift_div_r; [exact Pe|]. rewrite <- pow2_add.
    apply Qle_trans with (pow2 (ilog2 x + 1)); [lra|].
    apply pow2_le. unfold ulp_exp. lia. }
  apply round_le_Z in B.
  rewrite Zle_Qle, inject_Z_pow2 in B by lia.
  rewrite (Z.add_comm _ 53), pow2_add.
  apply Qmult_le_compat_r; [exact B | lra].
Qed.

(** A positive [x] in the normal range rounds to no less than the power of
    two below it. *)
Lemma round_pos_lower (x : Q) :
  0 < x -> (-1074 <= ilog2 x - 52)%Z -> pow2 (ilog2 x) <= round_pos x.
Proof.
  intros P N. unfold round_pos.
  assert (E : ulp_exp x = (ilog2 x - 52)%Z) by (unfold ulp_exp; lia).
  rewrite E.
  pose proof (ilog2_spec x P) as [Lo _].
  pose proof (pow2_pos (ilog2 x - 52)) as Pe.
  assert (B : inject_Z (2 ^ 52) <= x / pow2 (ilog2 x - 52)).
  { rewrite inject_Z_pow2 by lia.
    apply Qle_shift_div_l; [exact Pe|]. rewrite <- pow2_add.
    replace (52 + (ilog2 x - 52))%Z with (ilog2 x) by ring. exact Lo. }
  apply round_ge_Z in B.
  rewrite Zle_Qle, inject_Z_pow2 in B by lia.
  replace (ilog2 x) with (52 + (ilog2 x - 52))%Z at 1 by ring.
  rewrite pow2_add.
  apply Qmult_le_compat_r; [exact B | lra].
Qed.

Lemma round_pos_nonneg (x : Q) : 0 <= x -> 0 <= round_pos x.
Proof.
  intro P. unfold round_pos.
  pose proof (pow2_pos (ulp_exp x)) as Pe.
  assert (B : 0 <= x / pow2 (ulp_exp x)).
  { apply Qle_shift_div_l; [exact Pe | lra]. }
  apply (round_ge_Z _ 0) in B. rewrite Zle_Qle in B.
  apply Qmult_le_0_compat; [exact B | lra].
Qed.

Lemma round_pos_le (x y : Q) :
  0 < x -> x <= y -> round_pos x <= round_pos y.
Proof.
  intros P L.
  assert (Py : 0 < y) by lra.
  pose proof (ulp_exp_le x y P L) as E.
  destruct (Z.eq_dec (ulp_exp x) (ulp_exp y)) as [Eq|Ne].
  - unfold round_pos. rewrite Eq.
    pose proof (pow2_pos (ulp_exp y)) as Pe.
    apply Qmult_le_compat_r; [|lra].
    rewrite <- Zle_Qle. apply round_le.
    apply Qle_shift_div_l; [exact Pe|]. rewrite scaled. exact L.
  - apply Qle_trans with (pow2 (ulp_exp x + 53));
      [apply round_pos_upper; exact P|].
    apply Qle_trans with (pow2 (ilog2 y));
      [apply pow2_le; unfold ulp_exp in *; lia|].
    apply round_pos_lower; [exact Py | unfold ulp_exp in *; lia].
Qed.

Lemma rnd_cases (x : Q) :
  (0 < x /\ rnd x == round_pos x)
  \/ (x < 0 /\ rnd x == - round_pos (- x))
  \/ (x == 0 /\ rnd x == 0).
Proof.
  unfold rnd. rewrite Qred_correct.
  destruct (Py.Qltb 0 x) eqn:A.
  - apply Qltb_lt in A. left. split; [exact A | reflexivity].
  - apply Qltb_ge in A. destruct (Py.Qltb x 0) eqn:B.
    + apply Qltb_lt in B. right; left. split; [exact B | reflexivity].
    + apply Qltb_ge in B. right; right. split; [lra | reflexivity].
Qed.

(** Rounding keeps the order. *)
Lemma rnd_le (x y : Q) : x <= y -> rnd x <= rnd y.
Proof.
  intro L.
  destruct (rnd_cases x) as [[Sx Ex]|[[Sx Ex]|[Sx Ex]]];
    destruct (rnd_cases y) as [[Sy Ey]|[[Sy Ey]|[Sy Ey]]];
    rewrite Ex, Ey; try lra.
  - apply round_pos_le; assumption.
  - pose proof (round_pos_nonneg (- x)).
    pose proof (round_pos_nonneg y). lra.
  - pose proof (round_pos_le (- y) (- x)). lra.
  - pose proof (round_pos_nonneg (- x)). lra.
  - pose proof (round_pos_nonneg y). lra.
Qed.

Lemma rnd_0 : rnd 0 == 0.
Proof. reflexivity. Qed.

Lemma rnd_nonneg (x : Q) : 0 <= x -> 0 <= rnd x.
Proof. intro H. rewrite <- rnd_0. apply rnd_le, H. Qed.

Lemma rnd_nonpos (x : Q) : x <= 0 -> rnd x <= 0.
Proof. intro H. rewrite <- rnd_0. apply rnd_le, H. Qed.

Lemma rnd_comp (x y : Q) : x == y -> rnd x == rnd y.
Proof.
  intro E. apply Qle_antisym; apply rnd_le; lra.
Qed.

(** Every double is a multiple of the smallest one, [2^-1074]. *)
Lemma round_pos_grid (x : Q) :
  exists m : Z, round_pos x == inject_Z m * pow2 (-1074).
Proof.
  unfold round_pos.
  exists (Py.round (x / pow2 (ulp_exp x)) * 2 ^ (ulp_exp x + 1074))%Z.
  rewrite inject_Z_mult, inject_Z_pow2 by (unfold ulp_exp; lia).
  rewrite <- Qmult_assoc, <- pow2_add.
  replace (ulp_exp x + 1074 + -1074)%Z with (ulp_exp x) by ring.
  reflexivity.
Qed.

Lemma rnd_grid (x : Q) : exists m : Z, rnd x == inject_Z m * pow2 (-1074).
Proof.
  destruct (rnd_cases x) as [[_ E]|[[_ E]|[_ E]]].
  - destruct (round_pos_grid x) as [m H]. exists m. rewrite E. exact H.
  - destruct (round_pos_grid (- x)) as [m H]. exists (- m)%Z.
    rewrite E, H, inject_Z_opp. ring.
  - exists 0%Z. rewrite E. ring.
Qed.

Lemma rnd_min : rnd (- pow2 (-1074)) == - pow2 (-1074).
Proof. vm_compute. reflexivity. Qed.

(** The difference of two doubles never rounds to zero from below: the sign
    of [a - b] is that of the exact difference. *)
Lemma sub_neg (a b : Q) :
  rnd (rnd a - rnd b) < 0 <-> rnd a < rnd b.
Proof.
  split; intro H.
  - destruct (Qlt_le_dec (rnd a) (rnd b)) as [L|L]; [exact L|].
    assert (N : 0 <= rnd (rnd a - rnd b)) by (apply rnd_nonneg; lra). lra.
  - destruct (rnd_grid a) as [ma Ea]. destruct (rnd_grid b) as [mb Eb].
    pose proof (pow2_pos (-1074)) as P.
    rewrite Ea, Eb in H.
    assert (M : (ma < mb)%Z).
    { destruct (Z_lt_le_dec ma mb) as [M|M]; [exact M|].
      rewrite Zle_Qle in M. nra. }
    assert (M' : (ma + 1 <= mb)%Z) by lia.
    rewrite Zle_Qle, inject_Z_plus in M'. change (inject_Z 1) with 1 in M'.
    assert (D : rnd a - rnd b <= - pow2 (-1074)).
    { rewrite Ea, Eb. nra. }
    apply rnd_le in D. rewrite rnd_min in D. lra.
Qed.

Lemma ilog2_comp (x y : Q) : 0 < x -> x == y -> ilog2 x = ilog2 y.
Proof.
  intros P E.
  assert (A : (ilog2 x <= ilog2 y)%Z) by (apply ilog2_le; lra).
  assert (B : (ilog2 y <= ilog2 x)%Z) by (apply ilog2_le; lra).
  lia.
Qed.

Lemma round_pos_comp (x y : Q) :
  0 < x -> x == y -> round_pos x == round_pos y.
Proof.
  intros P E. unfold round_pos, ulp_exp.
  rewrite (ilog2_comp x y P E).
  assert (R : x / pow2 (Z.max (ilog2 y - 52) (-1074))
              == y / pow2 (Z.max (ilog2 y - 52) (-1074)))
    by (rewrite E; reflexivity).
  rewrite (round_comp _ _ R). reflexivity.
Qed.

(** A positive value with a significand of at most 53 bits, on the grid of
    the doubles, is a double. *)
Lemma round_pos_repr (m e : Z) :
  (0 < m <= 2 ^ 53)%Z -> (-1074 <= e)%Z ->
  round_pos (inject_Z m * pow2 e) == inject_Z m * pow2 e.
Proof.
  intros [M0 M1] He.
  set (y := inject_Z m * pow2 e).
  pose proof (pow2_pos e) as Pe.
  assert (Mq : 0 < inject_Z m).
  { change 0 with (inject_Z 0). rewrite <- Zlt_Qlt. exact M0. }
  assert (Py : 0 < y) by (unfold y; nra).
  pose proof (ilog2_spec y Py) as [Lo Hi].
  assert (Int : exists N : Z,
            y / pow2 (ulp_exp y) == inject_Z N).
  { destruct (Z_lt_le_dec m (2 ^ 53)) as [Lt|Ge].
    - assert (U : (ulp_exp y <= e)%Z).
      { assert (B : y < pow2 (53 + e)).
        { rewrite pow2_add, <- inject_Z_pow2 by lia. unfold y.
          apply Qmult_lt_compat_r; [exact Pe|].
          rewrite <- Zlt_Qlt. exact Lt. }
        assert (C : (ilog2 y < 53 + e)%Z) by (apply pow2_lt_inv; lra).
        unfold ulp_exp. lia. }
      exists (m * 2 ^ (e - ulp_exp y))%Z.
      rewrite inject_Z_mult, inject_Z_pow2 by lia.
      rewrite pow2_sub.
      pose proof (pow2_pos (ulp_exp y)) as Pu.
      set (p := pow2 (ulp_exp y)) in *. clearbody p.
      unfold y. field. lra.
    - assert (Em : m = (2 ^ 53)%Z) by lia.
      assert (Ey : y == pow2 (53 + e)).
      { unfold y. rewrite Em, pow2_add, inject_Z_pow2 by lia. reflexivity. }
      assert (I : ilog2 y = (53 + e)%Z).
      { assert (A : (ilog2 y < 53 + e + 1)%Z).
        { apply pow2_lt_inv.
          apply Qle_lt_trans with (pow2 (53 + e)); [lra|].
          apply Qpower_lt_compat_l; [lia | reflexivity]. }
        assert (B : (53 + e < ilog2 y + 1)%Z).
        { apply pow2_lt_inv. lra. }
        lia. }
      assert (U : ulp_exp y = (e + 1)%Z) by (unfold ulp_exp; lia).
      exists (2 ^ 52)%Z. rewrite U, Ey, inject_Z_pow2 by lia.
      replace (53 + e)%Z with (52 + (e + 1))%Z by ring.
      rewrite pow2_add. pose proof (pow2_pos (e + 1)). field. lra. }
  destruct Int as [N HN].
  unfold round_pos. rewrite (round_comp _ _ HN), round_Z, <- HN.
  apply scaled.
Qed.

(** The significand and the exponent of a rounded positive value. *)
Lemma round_pos_form (x : Q) :
  0 < x ->
  exists m e : Z,
    round_pos x = inject_Z m * pow2 e
    /\ (0 <= m <= 2 ^ 53)%Z /\ (-1074 <= e)%Z.
Proof.
  intro P.
  exists (Py.round (x / pow2 (ulp_exp x))), (ulp_exp x).
  split; [reflexivity|]. split; [|unfold ulp_exp; lia].
  pose proof (pow2_pos (ulp_exp x)) as Pe.
  pose proof (ilog2_spec x P) as [_ Hi].
  split.
  - apply round_ge_Z. change (inject_Z 0) with 0.
    apply Qle_shift_div_l; [exact Pe | lra].
  - apply round_le_Z. rewrite inject_Z_pow2 by lia.
    apply Qle_shift_div_r; [exact Pe|]. rewrite <- pow2_add.
    apply Qle_trans with (pow2 (ilog2 x + 1)); [lra|].
    apply pow2_le. unfold ulp_exp. lia.
Qed.

Lemma round_pos_idem (x : Q) :
  0 < x -> 0 < round_pos x -> round_pos (round_pos x) == round_pos x.
Proof.
  intros P R.
  destruct (round_pos_form x P) as (m & e & E & [M0 M1] & He).
  rewrite E in *.
  assert (M : (0 < m)%Z).
  { destruct (Z.eq_dec m 0) as [->|N]; [|lia].
    exfalso. change (inject_Z 0) with 0 in R. lra. }
  apply round_pos_repr; [lia | exact He].
Qed.

(** A double rounds to itself: [float(x)] keeps a float. *)
Lemma rnd_idem (x : Q) : rnd (rnd x) == rnd x.
Proof.
  destruct (rnd_cases x) as [[S E]|[[S E]|[S E]]].
  - pose proof (round_pos_nonneg x ltac:(lra)) as N.
    destruct (Qlt_le_dec 0 (round_pos x)) as [R|R].
    + rewrite (rnd_comp _ _ E).
      destruct (rnd_cases (round_pos x)) as [[_ E']|[[S' _]|[S' _]]];
        [|lra|lra].
      rewrite E', E. apply round_pos_idem; assumption.
    + assert (Z0 : rnd x == 0) by lra.
      rewrite (rnd_comp _ _ Z0), Z0. reflexivity.
  - pose proof (round_pos_nonneg (- x) ltac:(lra)) as N.
    destruct (Qlt_le_dec 0 (round_pos (- x))) as [R|R].
    + rewrite (rnd_comp _ _ E).
      destruct (rnd_cases (- round_pos (- x))) as [[S' _]|[[_ E']|[S' _]]];
        [lra| |lra].
      rewrite E', E.
      assert (C : - - round_pos (- x) == round_pos (- x)) by ring.
      assert (G : round_pos (- - round_pos (- x))
                  == round_pos (round_pos (- x))).
      { apply round_pos_comp; lra. }
      rewrite G, round_pos_idem by lra. reflexivity.
    + assert (Z0 : rnd x == 0) by lra.
      rewrite (rnd_comp _ _ Z0), Z0. reflexivity.
  - rewrite (rnd_comp _ _ E), E. reflexivity.
Qed.

(** An int of at most 53 bits is a double. *)
Lemma of_int_exact (z : Z) :
  (Z.abs z <= 2 ^ 53)%Z -> of_int z == inject_Z z.
Proof.
  intro B. unfold of_int.
  assert (Pos : forall m : Z, (0 < m <= 2 ^ 53)%Z ->
                  round_pos (inject_Z m) == inject_Z m).
  { intros m Hm.
    assert (E : inject_Z m == inject_Z m * pow2 0)
      by (change (pow2 0) with 1; ring).
    assert (Mq : 0 < inject_Z m).
    { change 0 with (inject_Z 0). rewrite <- Zlt_Qlt. lia. }
    apply Qeq_trans with (round_pos (inject_Z m * pow2 0));
      [apply round_pos_comp; assumption|].
    rewrite round_pos_repr by lia. symmetry. exact E. }
  destruct (rnd_cases (inject_Z z)) as [[S E]|[[S E]|[S E]]].
  - rewrite E. apply Pos.
    change 0 with (inject_Z 0) in S. rewrite <- Zlt_Qlt in S. lia.
  - change 0 with (inject_Z 0) in S. rewrite <- Zlt_Qlt in S.
    rewrite E.
    assert (C : - inject_Z z == inject_Z (- z))
      by (rewrite inject_Z_opp; reflexivity).
    assert (Mq : 0 < - inject_Z z).
    { rewrite C. change 0 with (inject_Z 0). rewrite <- Zlt_Qlt. lia. }
    rewrite (round_pos_comp _ _ Mq C), (Pos (- z)%Z) by lia.
    rewrite <- C. ring.
  - rewrite E, S. reflexivity.
Qed.

(** From one on, rounding keeps more than half of the value. *)
Lemma rnd_ge_half (x : Q) : 1 <= x -> x <= 2 * rnd x.
Proof.
  intro H. assert (P : 0 < x) by lra.
  pose proof (ilog2_spec x P) as [Lo Hi].
  assert (N : (0 < ilog2 x + 1)%Z).
  { apply pow2_lt_inv. change (pow2 0) with 1. lra. }
  pose proof (round_pos_lower x P ltac:(lia)) as R.
  rewrite pow2_add in Hi. change (pow2 1) with 2 in Hi.
  destruct (rnd_cases x) as [[_ E]|[[S _]|[S _]]]; [|lra|lra].
  rewrite E. lra.
Qed.

(** Rounding a value of the normal range moves it by at most one part in
    [2^53]. *)
Lemma rnd_error (x : Q) :
  pow2 (-1022) <= x ->
  x - x * (1 # 9007199254740992) <= rnd x
  /\ rnd x <= x + x * (1 # 9007199254740992).
Proof.
  intro H. pose proof (pow2_pos (-1022)) as P0.
  assert (P : 0 < x) by lra.
  pose proof (ilog2_spec x P) as [Lo Hi].
  assert (I : (-1022 < ilog2 x + 1)%Z) by (apply pow2_lt_inv; lra).
  assert (E : ulp_exp x = (ilog2 x - 52)%Z) by (unfold ulp_exp; lia).
  destruct (rnd_cases x) as [[_ R]|[[S _]|[S _]]]; [|lra|lra].
  rewrite R. unfold round_pos. rewrite E.
  set (e := (ilog2 x - 52)%Z).
  pose proof (pow2_pos e) as Pe.
  pose proof (round_near (x / pow2 e)) as [A B].
  apply (Qmult_le_compat_r _ _ (pow2 e)) in A; [|lra].
  apply (Qmult_le_compat_r _ _ (pow2 e)) in B; [|lra].
  assert (U : pow2 e <= x * (1 # 4503599627370496)).
  { unfold e. replace (ilog2 x - 52)%Z with (ilog2 x + -52)%Z by ring.
    rewrite pow2_add. change (pow2 (-52)) with (1 # 4503599627370496).
    apply Qmult_le_compat_r; [exact Lo | discriminate]. }
  pose proof (scaled x e) as Sx.
  set (R0 := inject_Z (Py.round (x / pow2 e)) * pow2 e) in *.
  set (y := x / pow2 e) in *.
  assert (A' : y * pow2 e - (1 # 2) * pow2 e <= R0) by lra.
  assert (B' : R0 <= y * pow2 e + (1 # 2) * pow2 e) by lra.
  lra.
Qed.

(** The floor of a double that is not negative is a double. *)
Lemma rnd_floor (z : Q) :
  0 <= rnd z ->
  rnd (inject_Z (Qfloor (rnd z))) == inject_Z (Qfloor (rnd z)).
Proof.
  intro N.
  assert (F0 : (0 <= Qfloor (rnd z))%Z) by exact (Qfloor_resp_le 0 _ N).
  destruct (rnd_cases z) as [[S R]|[[S R]|[S R]]].
  - destruct (round_pos_form z S) as (m & e & E & [M0 M1] & He).
    rewrite E in R.
    destruct (Z_le_gt_dec 0 e) as [Pe|Ne].
    + assert (D : rnd z == inject_Z (m * 2 ^ e)).
      { rewrite R, inject_Z_mult, inject_Z_pow2 by lia. reflexivity. }
      assert (F : Qfloor (rnd z) = (m * 2 ^ e)%Z).
      { rewrite D. apply Qfloor_Z. }
      rewrite F.
      apply Qeq_trans with (rnd (rnd z));
        [apply rnd_comp; symmetry; exact D | rewrite rnd_idem; exact D].
    + apply of_int_exact.
      assert (B : rnd z <= inject_Z (2 ^ 53)).
      { rewrite R.
        assert (P1 : pow2 e <= 1)
          by (change 1 with (pow2 0); apply pow2_le; lia).
        pose proof (pow2_pos e) as P0.
        rewrite Zle_Qle in M0, M1. change (inject_Z 0) with 0 in M0.
        nra. }
      apply Qfloor_resp_le in B. rewrite Qfloor_Z in B. lia.
  - assert (Z0 : rnd z == 0).
    { pose proof (round_pos_nonneg (- z) ltac:(lra)). lra. }
    assert (F : Qfloor (rnd z) = 0%Z) by (rewrite Z0; reflexivity).
    rewrite F. reflexivity.
  - assert (F : Qfloor (rnd z) = 0%Z) by (rewrite R; reflexivity).
    rewrite F. reflexivity.
Qed.

Lemma snap_nonneg (q : Q) : 0 <= q -> 0 <= snap q.
Proof.
  intro H. unfold snap.
  destruct (Qeq_bool q 0); [lra|].
  assert (F : 0 <= inject_Z (Qfloor q)).
  { change 0 with (inject_Z 0). rewrite <- Zle_Qle.
    exact (Qfloor_resp_le 0 _ H). }
  destruct (Py.Qltb (1 # 2) (sub q (inject_Z (Qfloor q)))); [|exact F].
  unfold add. apply rnd_nonneg. lra.
Qed.

(** Snapping keeps the order of two doubles that are not negative. *)
Lemma snap_le (z1 z2 : Q) :
  0 <= rnd z1 -> rnd z1 <= rnd z2 -> snap (rnd z1) <= snap (rnd z2).
Proof.
  intros N L.
  pose proof (rnd_floor z1 N) as D1.
  pose proof (rnd_floor z2 ltac:(lra)) as D2.
  pose proof (Qfloor_resp_le _ _ L) as FL.
  unfold snap.
  destruct (Qeq_bool (rnd z1) 0) eqn:Z1.
  - fold (snap (rnd z2)). apply snap_nonneg. lra.
  - assert (P1 : 0 < rnd z1).
    { destruct (Qlt_le_dec 0 (rnd z1)) as [P|P]; [exact P|].
      assert (E : rnd z1 == 0) by lra.
      apply Qeq_bool_iff in E. congruence. }
    assert (Z2 : Qeq_bool (rnd z2) 0 = false).
    { destruct (Qeq_bool (rnd z2) 0) eqn:E; [|reflexivity].
      apply Qeq_bool_iff in E. lra. }
    rewrite Z2.
    set (f1 := Qfloor (rnd z1)) in *. set (f2 := Qfloor (rnd z2)) in *.
    assert (Up1 : inject_Z f1 <= rnd (inject_Z f1 + 1)).
    { rewrite <- D1 at 1. apply rnd_le. lra. }
    assert (Up2 : inject_Z f2 <= rnd (inject_Z f2 + 1)).
    { rewrite <- D2 at 1. apply rnd_le. lra. }
    destruct (Z.eq_dec f1 f2) as [E|Ne].
    + rewrite <- E in *.
      assert (S : sub (rnd z1) (inject_Z f1) <= sub (rnd z2) (inject_Z f1)).
      { unfold sub. apply rnd_le. lra. }
      destruct (Py.Qltb (1 # 2) (sub (rnd z1) (inject_Z f1))) eqn:B1;
        destruct (Py.Qltb (1 # 2) (sub (rnd z2) (inject_Z f1))) eqn:B2;
        unfold add; try lra.
      apply Qltb_lt in B1. apply Qltb_ge in B2. lra.
    + assert (Lt : (f1 + 1 <= f2)%Z) by lia.
      rewrite Zle_Qle, inject_Z_plus in Lt.
      change (inject_Z 1) with 1 in Lt.
      assert (M : rnd (inject_Z f1 + 1) <= inject_Z f2).
      { rewrite <- D2. apply rnd_le. exact Lt. }
      destruct (Py.Qltb (1 # 2) (sub (rnd z1) (inject_Z f1)));
        destruct (Py.Qltb (1 # 2) (sub (rnd z2) (inject_Z f2)));
        unfold add; lra.
Qed.

Lemma Qfloor_between (x : Q) (k : Z) :
  inject_Z k <= x -> x < inject_Z k + 1 -> Qfloor x = k.
Proof.
  intros Lo Hi.
  assert (A : (k <= Qfloor x)%Z).
  { rewrite <- (Qfloor_Z k). apply Qfloor_resp_le, Lo. }
  assert (B : (Qfloor x < k + 1)%Z).
  { rewrite Zlt_Qlt, inject_Z_plus.
    apply Qle_lt_trans with x; [apply Qfloor_le | exact Hi]. }
  lia.
Qed.

(** A value within a quarter of a whole number of at most 53 bits snaps to
    it. *)
Lemma snap_exact (q : Q) (n : Z) :
  (Z.abs n <= 2 ^ 53)%Z ->
  inject_Z n - (1 # 4) <= q -> q <= inject_Z n + (1 # 4) ->
  snap q == inject_Z n.
Proof.
  intros B Lo Hi. unfold snap.
  destruct (Qeq_bool q 0) eqn:Z0.
  - apply Qeq_bool_iff in Z0.
    assert (E : n = 0%Z).
    { assert (A : (-1 < n)%Z)
        by (rewrite Zlt_Qlt; change (inject_Z (-1)) with (-1); lra).
      assert (C : (n < 1)%Z)
        by (rewrite Zlt_Qlt; change (inject_Z 1) with 1; lra).
      lia. }
    rewrite E. reflexivity.
  - destruct (Qlt_le_dec q (inject_Z n)) as [Below|Above].
    + assert (S : inject_Z (n - 1) == inject_Z n - 1).
      { unfold Zminus. rewrite inject_Z_plus. reflexivity. }
      assert (F : Qfloor q = (n - 1)%Z)
        by (apply Qfloor_between; rewrite S; lra).
      rewrite F.
      assert (G : rnd (3 # 4) <= sub q (inject_Z (n - 1))).
      { unfold sub. apply rnd_le. rewrite S. lra. }
      assert (T : Py.Qltb (1 # 2) (sub q (inject_Z (n - 1))) = true).
      { apply Qltb_lt.
        apply Qlt_le_trans with (rnd (3 # 4)); [reflexivity | exact G]. }
      rewrite T. unfold add.
      apply Qeq_trans with (rnd (inject_Z n));
        [apply rnd_comp; rewrite S; ring | apply of_int_exact, B].
    + assert (F : Qfloor q = n) by (apply Qfloor_between; lra).
      rewrite F.
      assert (G : sub q (inject_Z n) <= rnd (1 # 4)).
      { unfold sub. apply rnd_le. lra. }
      assert (T : Py.Qltb (1 # 2) (sub q (inject_Z n)) = false).
      { apply Qltb_ge.
        apply Qle_trans with (rnd (1 # 4)); [exact G | discriminate]. }
      rewrite T. reflexivity.
Qed.

(** [fmod] on a dividend that is not negative and a positive divisor. *)
Lemma fmod_nonneg (a b : Q) :
  0 <= a -> 0 < b ->
  a - fmod a b == inject_Z (Qfloor (a / b)) * b
  /\ 0 <= fmod a b /\ fmod a b < b.
Proof.
  intros A B. unfold fmod.
  assert (S : Py.Qltb a 0 = false) by (apply Qltb_ge, A).
  rewrite S.
  assert (Ea : Qabs a == a) by (apply Qabs_pos, A).
  assert (Eb : Qabs b == b) by (apply Qabs_pos; lra).
  assert (F : Qfloor (Qabs a / Qabs b) = Qfloor (a / b))
    by (rewrite Ea, Eb; reflexivity).
  rewrite F, Ea, Eb.
  pose proof (Qfloor_le (a / b)) as Lo.
  pose proof (Qlt_floor (a / b)) as Hi.
  rewrite inject_Z_plus in Hi. change (inject_Z 1) with 1 in Hi.
  apply (Qmult_le_compat_r _ _ b) in Lo; [|lra].
  apply (Qmult_lt_compat_r _ _ b) in Hi; [|exact B].
  assert (E : a / b * b == a) by (field; lra).
  rewrite E in Lo, Hi.
  split; [ring|]. split; lra.
Qed.

(** [//] on a dividend that is not negative and a positive divisor: the
    whole multiple of the divisor below the dividend is rounded, divided
    back, rounded, and snapped. *)
Lemma floordiv_nonneg (a b : Q) :
  0 <= a -> 0 < b ->
  exists z : Q,
    floordiv a b = snap (rnd z)
    /\ z == rnd (inject_Z (Qfloor (a / b)) * b) / b.
Proof.
  intros A B.
  destruct (fmod_nonneg a b A B) as (E & R0 & R1).
  exists (sub a (fmod a b) / b). split.
  - unfold floordiv.
    assert (S1 : Py.Qltb b 0 = false) by (apply Qltb_ge; lra).
    assert (S2 : Py.Qltb (fmod a b) 0 = false) by (apply Qltb_ge, R0).
    rewrite S1, S2. cbn [Bool.eqb negb]. rewrite andb_false_r.
    reflexivity.
  - unfold sub. rewrite (rnd_comp _ _ E). reflexivity.
Qed.

Lemma quot_le (x y s : Q) : 0 < s -> x <= y -> x / s <= y / s.
Proof.
  intros S L. unfold Qdiv. apply Qmult_le_compat_r; [exact L|].
  apply Qinv_le_0_compat. lra.
Qed.

(** [//] never goes back while the dividend grows. *)
Lemma floordiv_le (a1 a2 b : Q) :
  0 <= a1 -> a1 <= a2 -> 0 < b -> floordiv a1 b <= floordiv a2 b.
Proof.
  intros A L B.
  destruct (floordiv_nonneg a1 b A B) as (z1 & -> & E1).
  destruct (floordiv_nonneg a2 b ltac:(lra) B) as (z2 & -> & E2).
  assert (N : (0 <= Qfloor (a1 / b))%Z).
  { apply (Qfloor_resp_le 0). apply Qle_shift_div_l; lra. }
  assert (M : (Qfloor (a1 / b) <= Qfloor (a2 / b))%Z).
  { apply Qfloor_resp_le, quot_le; assumption. }
  rewrite Zle_Qle in N, M. change (inject_Z 0) with 0 in N.
  assert (Z12 : z1 <= z2).
  { rewrite E1, E2. apply quot_le; [exact B|]. apply rnd_le. nra. }
  assert (Z0 : 0 <= z1).
  { rewrite E1. apply Qle_shift_div_l; [exact B|].
    rewrite Qmult_0_l. apply rnd_nonneg. nra. }
  apply snap_le; [apply rnd_nonneg, Z0 | apply rnd_le, Z12].
Qed.

Lemma floordiv_ge_0 (a b : Q) : 0 <= a -> 0 < b -> 0 <= floordiv a b.
Proof.
  intros A B.
  destruct (floordiv_nonneg a b A B) as (z & -> & E).
  apply snap_nonneg, rnd_nonneg. rewrite E.
  apply Qle_shift_div_l; [exact B|]. rewrite Qmult_0_l.
  apply rnd_nonneg.
  assert (N : (0 <= Qfloor (a / b))%Z).
  { apply (Qfloor_resp_le 0). apply Qle_shift_div_l; lra. }
  rewrite Zle_Qle in N. change (inject_Z 0) with 0 in N. nra.
Qed.

(** While the quotient stays below [2^48], [//] is the floor of the exact
    quotient of the two doubles. *)
Lemma floordiv_exact (a b : Q) :
  0 <= a -> pow2 (-1022) <= b -> a / b < pow2 48 ->
  floordiv a b == inject_Z (Qfloor (a / b)).
Proof.
  intros A Bn Q48. pose proof (pow2_pos (-1022)) as P0.
  assert (B : 0 < b) by lra.
  destruct (floordiv_nonneg a b A B) as (z & -> & E).
  set (n := Qfloor (a / b)) in *.
  assert (N0 : (0 <= n)%Z).
  { apply (Qfloor_resp_le 0). apply Qle_shift_div_l; lra. }
  assert (N1 : (n < 2 ^ 48)%Z).
  { rewrite Zlt_Qlt, inject_Z_pow2 by lia.
    apply Qle_lt_trans with (a / b); [apply Qfloor_le | exact Q48]. }
  assert (Near : inject_Z n - (1 # 4) <= rnd z
                 /\ rnd z <= inject_Z n + (1 # 4)).
  { destruct (Z.eq_dec n 0) as [Zn|Pn].
    - rewrite Zn in *.
      assert (Z0 : z == 0).
      { rewrite E.
        assert (R : rnd (inject_Z 0 * b) == 0).
        { rewrite <- rnd_0. apply rnd_comp. ring. }
        rewrite R. field. lra. }
      rewrite (rnd_comp _ _ Z0), rnd_0. split; discriminate.
    - assert (Nq : 1 <= inject_Z n).
      { change 1 with (inject_Z 1). rewrite <- Zle_Qle. lia. }
      assert (Nu : inject_Z n <= inject_Z (2 ^ 48) - 1).
      { change 1 with (inject_Z 1). unfold Qminus.
        rewrite <- inject_Z_opp, <- inject_Z_plus, <- Zle_Qle. lia. }
      change (inject_Z (2 ^ 48)) with 281474976710656 in Nu.
      set (nb := inject_Z n * b) in *.
      assert (Pnb : pow2 (-1022) <= nb) by (unfold nb; nra).
      destruct (rnd_error nb Pnb) as [X1 X2].
      assert (Zb : z * b == rnd nb) by (rewrite E; field; lra).
      assert (Zlo : inject_Z n - inject_Z n * (1 # 9007199254740992) <= z).
      { assert (G : (inject_Z n - inject_Z n * (1 # 9007199254740992)) * b
                    <= z * b).
        { rewrite Zb.
          assert (R : (inject_Z n - inject_Z n * (1 # 9007199254740992)) * b
                      == nb - nb * (1 # 9007199254740992))
            by (unfold nb; ring).
          rewrite R. exact X1. }
        apply Qmult_le_r in G; assumption. }
      assert (Zhi : z <= inject_Z n + inject_Z n * (1 # 9007199254740992)).
      { assert (G : z * b
                    <= (inject_Z n + inject_Z n * (1 # 9007199254740992)) * b).
        { rewrite Zb.
          assert (R : (inject_Z n + inject_Z n * (1 # 9007199254740992)) * b
                      == nb + nb * (1 # 9007199254740992))
            by (unfold nb; ring).
          rewrite R. exact X2. }
        apply Qmult_le_r in G; assumption. }
      assert (Pz : pow2 (-1022) <= z).
      { apply Qle_trans with (1 # 2); [vm_compute; discriminate | lra]. }
      destruct (rnd_error z Pz) as [Y1 Y2].
      split; lra. }
  destruct Near as [Lo Hi].
  apply snap_exact; [lia | exact Lo | exact Hi].
Qed.

End F64Facts.

(* ------------------------------------------------------------------ *)
(** ** Doubles: the kernel's binary64 as a reference *)

Module F64Kernel.
Import Floats.

(** The arithmetic of [F64] against the binary64 arithmetic of the
    kernel, on the operations behind the examples below: the beat lengths at
    100, 120 and 150 BPM, the elapsed times at 1.9, 2.0 and 2.6 s, the
    player positions at 1990, 2000 and 2010 ms, and the window and the beat
    times of a redraw at 100 BPM with the playhead at 3 s. *)
Lemma agrees_with_kernel :
  F64.of_prim (60 / 100)%float = Some (F64.div 60 100)
  /\ F64.of_prim (60 / 120)%float = Some (F64.div 60 120)
  /\ F64.of_prim (60 / 150)%float = Some (F64.div 60 150)
  /\ F64.of_prim (19 / 10)%float = Some (F64.rnd (19 # 10))
  /\ F64.of_prim (26 / 10)%float = Some (F64.rnd (26 # 10))
  /\ F64.of_prim (19 / 10 - 2)%float = Some (F64.sub (F64.rnd (19 # 10)) 2)
  /\ F64.of_prim (26 / 10 - 2)%float = Some (F64.sub (F64.rnd (26 # 10)) 2)
  /\ F64.of_prim (1990 / 1000)%float = Some (F64.div (F64.of_int 1990) 1000)
  /\ F64.of_prim (2000 / 1000)%float = Some (F64.div (F64.of_int 2000) 1000)
  /\ F64.of_prim (2010 / 1000)%float = Some (F64.div (F64.of_int 2010) 1000)
  /\ F64.of_prim (8 * (60 / 100))%float = Some (F64.mul (F64.of_int 8) (F64.div 60 100))
  /\ F64.of_prim (3 - 8 * (60 / 100) * 0.25)%float
     = Some (F64.sub 3 (F64.mul (F64.mul (F64.of_int 8) (F64.div 60 100)) (1 # 4)))
  /\ F64.of_prim (0 + 3 * (60 / 100))%float
     = Some (F64.add 0 (F64.mul (F64.of_int 3) (F64.div 60 100)))
  /\ F64.of_prim (0 + 11 * (60 / 100))%float
     = Some (F64.add 0 (F64.mul (F64.of_int 11) (F64.div 60 100))).
Proof.
  repeat split; vm_compute; reflexivity.
Qed.

End F64Kernel.

(* ------------------------------------------------------------------ *)
(** ** Beat grid *)

Module GridProps.
Import Grid PyFacts.


Lemma beat_seconds_pos (g : BeatGrid) : 0 < beat_seconds g.
Proof.
  unfold beat_seconds. pose proof (clamped_bpm_bounds (bpm g)) as [H _].
  apply Qlt_shift_div_l; lra.
Qed.

Lemma beat_seconds_clamp (g : BeatGrid) :
  beat_seconds g == 60 / clamp (bpm g) 30 300.
Proof.
  unfold beat_seconds, clamp.
  rewrite py_max_Qmax. 
  assert (E : Py.min 300 (bpm g) == Qmin 300 (bpm g)) by apply py_min_Qmin.
  rewrite E. reflexivity.
Qed.

Lemma clamped_bpm_cases (b : Q) :
  (b <= 30 /\ Py.max 30 (Py.min 300 b) == 30) \/
  (30 <= b <= 300 /\ Py.max 30 (Py.min 300 b) == b) \/
  (300 <= b /\ Py.max 30 (Py.min 300 b) == 300).
Proof.
  destruct (py_min_cases 300 b) as [[H1 ->]|[H1 ->]].
  - destruct (py_max_cases 30 b) as [[H2 ->]|[H2 ->]].
    + right; left. split; [lra | reflexivity].
    + left. split; [lra | reflexivity].
  - destruct (py_max_cases 30 300) as [[H2 ->]|[H2 ->]].
    + right; right. split; [lra | reflexivity].
    + lra.
Qed.

Lemma Qdiv_60_le (a b : Q) : 0 < a -> a <= b -> 60 / b <= 60 / a.
Proof.
  intros Ha Hab.
  destruct (Qlt_le_dec a b) as [L|L].
  - apply Qlt_le_weak, Qdiv_60_lt; assumption.
  - assert (E : a == b) by lra. rewrite E. lra.
Qed.

(** C7, as amended: for two grids that differ only in BPM, [b1 < b2],
    [beat_seconds] never grows, and it drops strictly exactly when the two
    BPM values are not clamped to the same bound ([b1 < 300] and [30 < b2]);
    it is always positive, always equals [60 / clamp(bpm, 30, 300)], and is
    [0.5] at 120 BPM. *)
Theorem beat_seconds_monotone (b1 b2 t0 : Q) (bpb : Z) :
  b1 < b2 ->
  beat_seconds (mkBeatGrid b2 t0 bpb) <= beat_seconds (mkBeatGrid b1 t0 bpb)
  /\ (beat_seconds (mkBeatGrid b2 t0 bpb) < beat_seconds (mkBeatGrid b1 t0 bpb)
      <-> b1 < 300 /\ 30 < b2)
  /\ (forall g : BeatGrid,
        0 < beat_seconds g /\ beat_seconds g == 60 / clamp (bpm g) 30 300)
  /\ beat_seconds (mkBeatGrid 120 t0 bpb) == 1 # 2.
Proof.
  intro Hlt.
  assert (Hle : Py.max 30 (Py.min 300 b1) <= Py.max 30 (Py.min 300 b2)).
  { destruct (clamped_bpm_cases b1) as [[A ->]|[[A ->]|[A ->]]];
      destruct (clamped_bpm_cases b2) as [[B ->]|[[B ->]|[B ->]]]; lra. }
  pose proof (clamped_bpm_bounds b1) as [L1 U1].
  pose proof (clamped_bpm_bounds b2) as [L2 U2].
  split; [|split; [split; [intro H; split|] | split; [intro g; split|]]].
  - unfold beat_seconds; simpl. apply Qdiv_60_le; lra.
  - unfold beat_seconds in H; simpl in H.
    destruct (Qlt_le_dec b1 300) as [C|C]; [assumption|].
    exfalso.
    assert (G : Py.max 30 (Py.min 300 b2) <= Py.max 30 (Py.min 300 b1)).
    { destruct (clamped_bpm_cases b1) as [[A ->]|[[A ->]|[A ->]]];
        destruct (clamped_bpm_cases b2) as [[B ->]|[[B ->]|[B ->]]]; lra. }
    apply Qdiv_60_le in G; lra.
  - unfold beat_seconds in H; simpl in H.
    destruct (Qlt_le_dec 30 b2) as [C|C]; [assumption|].
    exfalso.
    assert (G : Py.max 30 (Py.min 300 b2) <= Py.max 30 (Py.min 300 b1)).
    { destruct (clamped_bpm_cases b1) as [[A ->]|[[A ->]|[A ->]]];
        destruct (clamped_bpm_cases b2) as [[B ->]|[[B ->]|[B ->]]]; lra. }
    apply Qdiv_60_le in G; lra.
  - intros [C1 C2]. unfold beat_seconds; simpl.
    apply Qdiv_60_lt; [lra|].
    destruct (clamped_bpm_cases b1) as [[A ->]|[[A ->]|[A ->]]];
      destruct (clamped_bpm_cases b2) as [[B ->]|[[B ->]|[B ->]]]; lra.
  - apply beat_seconds_pos.
  - apply beat_seconds_clamp.
  - reflexivity.
Qed.

(** The amended C7 at 60 and 120 BPM. *)
Lemma beat_seconds_monotone_witness :
  60 < 120 /\
  beat_seconds (mkBeatGrid 120 0 4) < beat_seconds (mkBeatGrid 60 0 4).
Proof.
  split; [reflexivity|].
  apply (beat_seconds_monotone 60 120 0 4); [reflexivity|].
  split; reflexivity.
Defined.

(** C7 as stated fails below the clamp: 10 BPM and 20 BPM both give a beat
    of two seconds. *)
Lemma beat_seconds_flat_below_30 :
  10 < 20 /\
  beat_seconds (mkBeatGrid 10 0 4) == 2 /\
  beat_seconds (mkBeatGrid 20 0 4) == 2 /\
  ~ beat_seconds (mkBeatGrid 20 0 4) < beat_seconds (mkBeatGrid 10 0 4).
Proof.
  repeat split; vm_compute; congruence.
Qed.

(** The beat length in doubles is at least an eighth of a second. *)
Lemma beat_seconds_f64_lower (g : BeatGrid) : 1 # 8 <= beat_seconds_f64 g.
Proof.
  unfold beat_seconds_f64, F64.div.
  pose proof (clamped_bpm_bounds (F64.rnd (bpm g))) as [Lo Hi].
  apply Qle_trans with (F64.rnd (1 # 5)); [vm_compute; discriminate|].
  apply F64Facts.rnd_le. apply Qle_shift_div_l; lra.
Qed.

Lemma beat_seconds_f64_pos (g : BeatGrid) : 0 < beat_seconds_f64 g.
Proof. pose proof (beat_seconds_f64_lower g). lra. Qed.

(** For a BPM that is a double, the beat length in doubles is the rounded
    [beat_seconds]. *)
Lemma beat_seconds_f64_rounds (g : BeatGrid) :
  F64.rnd (bpm g) == bpm g ->
  beat_seconds_f64 g == F64.rnd (beat_seconds g).
Proof.
  intro E. unfold beat_seconds_f64, beat_seconds, F64.div.
  apply F64Facts.rnd_comp.
  assert (C : Py.max 30 (Py.min 300 (F64.rnd (bpm g)))
              == Py.max 30 (Py.min 300 (bpm g))).
  { rewrite !py_max_Qmax.
    assert (M1 : Py.min 300 (F64.rnd (bpm g)) == Qmin 300 (F64.rnd (bpm g)))
      by apply py_min_Qmin.
    assert (M2 : Py.min 300 (bpm g) == Qmin 300 (bpm g))
      by apply py_min_Qmin.
    rewrite M1, M2, E. reflexivity. }
  rewrite C. reflexivity.
Qed.

(** The elapsed time is negative exactly when the time, as a double, is
    before the downbeat, as a double. *)
Lemma elapsed_neg (g : BeatGrid) (t : Q) :
  elapsed g t < 0 <-> F64.rnd t < F64.rnd (downbeat_t0 g).
Proof. apply F64Facts.sub_neg. Qed.

Lemma elapsed_nonneg (g : BeatGrid) (t : Q) :
  F64.rnd (downbeat_t0 g) <= F64.rnd t -> 0 <= elapsed g t.
Proof.
  intro H. destruct (Qlt_le_dec (elapsed g t) 0) as [L|L]; [|exact L].
  apply elapsed_neg in L. lra.
Qed.

Lemma beat_index_at_before (g : BeatGrid) (t : Q) :
  F64.rnd t < F64.rnd (downbeat_t0 g) -> beat_index_at g t = None.
Proof.
  intro H. unfold beat_index_at. fold (elapsed g t).
  destruct (Py.Qltb (elapsed g t) 0) eqn:E; [reflexivity|].
  apply Qltb_ge in E. apply elapsed_neg in H. lra.
Qed.

Lemma beat_index_at_after (g : BeatGrid) (t : Q) :
  F64.rnd (downbeat_t0 g) <= F64.rnd t ->
  beat_index_at g t
  = Some (Py.int (F64.floordiv (elapsed g t) (beat_seconds_f64 g))).
Proof.
  intro H. unfold beat_index_at. fold (elapsed g t).
  destruct (Py.Qltb (elapsed g t) 0) eqn:E; [|reflexivity].
  apply Qltb_lt, elapsed_neg in E. lra.
Qed.

(** While the quotient stays below [2^48], the index is the floor of the
    exact quotient of the two doubles. *)
Lemma beat_index_at_value (g : BeatGrid) (t : Q) :
  F64.rnd (downbeat_t0 g) <= F64.rnd t ->
  elapsed g t / beat_seconds_f64 g < F64.pow2 48 ->
  beat_index_at g t = Some (Qfloor (elapsed g t / beat_seconds_f64 g)).
Proof.
  intros H B. rewrite beat_index_at_after by exact H. f_equal.
  apply int_whole, F64Facts.floordiv_exact;
    [apply elapsed_nonneg, H | | exact B].
  apply Qle_trans with (1 # 8);
    [vm_compute; discriminate | apply beat_seconds_f64_lower].
Qed.

(** C2, as amended: [beat_index_at] is undefined exactly when the time is
    before the downbeat (both as doubles, and then also as real numbers);
    otherwise it is defined, whatever the size of [t], and never negative:
    it is Python's [//] of two doubles, the rounded elapsed time and the
    beat length (for a BPM that is a double, the rounded [beat_seconds]),
    which is the floor of their exact quotient while that stays below
    [2^48]; at 100 BPM with the downbeat at 2.0 it is undefined at 1.9, 0 at
    2.0 and 1 at 2.6. *)
Theorem beat_index_at_floor_of_doubles (g : BeatGrid) (t : Q) :
  (F64.rnd (bpm g) == bpm g -> beat_seconds_f64 g == F64.rnd (beat_seconds g))
  /\ (beat_index_at g t = None <-> F64.rnd t < F64.rnd (downbeat_t0 g))
  /\ (beat_index_at g t = None -> t < downbeat_t0 g)
  /\ (F64.rnd t == t -> F64.rnd (downbeat_t0 g) == downbeat_t0 g ->
      (beat_index_at g t = None <-> t < downbeat_t0 g))
  /\ (F64.rnd (downbeat_t0 g) <= F64.rnd t ->
      exists k : Z,
        beat_index_at g t = Some k
        /\ (0 <= k)%Z
        /\ (elapsed g t / beat_seconds_f64 g < F64.pow2 48 ->
            k = Qfloor (elapsed g t / beat_seconds_f64 g)))
  /\ beat_index_at (mkBeatGrid 100 2 4) (19 # 10) = None
  /\ beat_index_at (mkBeatGrid 100 2 4) 2 = Some 0%Z
  /\ beat_index_at (mkBeatGrid 100 2 4) (26 # 10) = Some 1%Z.
Proof.
  pose proof (beat_seconds_f64_pos g) as P.
  assert (Real : F64.rnd t < F64.rnd (downbeat_t0 g) -> t < downbeat_t0 g).
  { intro L. destruct (Qlt_le_dec t (downbeat_t0 g)) as [A|A]; [exact A|].
    apply F64Facts.rnd_le in A. lra. }
  assert (Undef : beat_index_at g t = None
                  <-> F64.rnd t < F64.rnd (downbeat_t0 g)).
  { split; [|apply beat_index_at_before].
    intro N.
    destruct (Qlt_le_dec (F64.rnd t) (F64.rnd (downbeat_t0 g))) as [L|L];
      [exact L|].
    rewrite beat_index_at_after in N by exact L. discriminate. }
  split; [apply beat_seconds_f64_rounds|].
  split; [exact Undef|].
  split; [intro N; apply Real, Undef, N|].
  split; [intros Et E0; rewrite Undef, Et, E0; reflexivity|].
  split; [|repeat split; vm_compute; reflexivity].
  intro A.
  exists (Py.int (F64.floordiv (elapsed g t) (beat_seconds_f64 g))).
  split; [apply beat_index_at_after, A|]. split.
  - apply int_ge_0, F64Facts.floordiv_ge_0;
      [apply elapsed_nonneg, A | exact P].
  - intro B. pose proof (beat_index_at_value g t A B) as V.
    rewrite beat_index_at_after in V by exact A. congruence.
Qed.

(** C2 as stated fails at an exact beat time: at 150 BPM two seconds after
    the downbeat the code answers 4, while the floor of the elapsed time
    over the beat length is 5, in real numbers and in doubles alike: the
    double of 0.4 is above 0.4, so five beats of it end after 2.0. *)
Lemma beat_index_at_below_floor :
  beat_index_at (mkBeatGrid 150 0 4) 2 = Some 4%Z
  /\ Qfloor ((2 - downbeat_t0 (mkBeatGrid 150 0 4))
             / beat_seconds (mkBeatGrid 150 0 4)) = 5%Z
  /\ Qfloor (F64.div (elapsed (mkBeatGrid 150 0 4) 2)
                     (beat_seconds_f64 (mkBeatGrid 150 0 4))) = 5%Z
  /\ 2 < 5 * beat_seconds_f64 (mkBeatGrid 150 0 4).
Proof.
  repeat split; vm_compute; reflexivity.
Qed.

End GridProps.

(* ------------------------------------------------------------------ *)
(** ** Tempo oracle *)

Module TempoProps.
Import Tempo.

(** C8: whatever the import and the two library calls do (fail, return an
    empty array, return any number), the estimator hands back either no
    estimate or a BPM inside [30, 300]; [option] is its whole result, so no
    error reaches the caller. *)
Theorem estimate_none_or_plausible
  (import_librosa : Py.result Librosa) (y : list Q) (sr : Z) :
  estimate_bpm_librosa_optional import_librosa y sr = None
  \/ exists v : Q,
       estimate_bpm_librosa_optional import_librosa y sr = Some v
       /\ 30 <= v <= 300.
Proof.
  unfold estimate_bpm_librosa_optional, try_body.
  destruct import_librosa as [lib|e]; simpl; [|now left].
  destruct (onset_strength lib y sr) as [oenv|e]; simpl; [|now left].
  destruct (feature_tempo lib oenv sr) as [[|b rest]|e]; simpl;
    try (now left).
  destruct (negb (Qeq_bool b 0) && (Qle_bool 30 b && Qle_bool b 300)) eqn:E;
    [|now left].
  right. exists b. split; [reflexivity|].
  apply andb_true_iff in E as [_ E].
  apply andb_true_iff in E as [Lo Hi].
  split; apply Qle_bool_iff; assumption.
Qed.

End TempoProps.

(* ------------------------------------------------------------------ *)
(** ** Project persistence *)

Module ModelsProps.
Import Models.

Lemma markers_of_json_asdict (ms : list Marker) :
  markers_of_json (map marker_asdict ms) = Py.Ok ms.
Proof.
  induction ms as [|m ms IH]; [reflexivity|].
  cbn [map markers_of_json]. rewrite IH.
  destruct m as [q l k]. reflexivity.
Qed.

Lemma load_after_save (p : Project) (fs : disk) (path : string) :
  load (save p fs path) path =
  Py.Ok (mkProject (audio_path p) (bpm p) (downbeat_t0 p)
           (Some (match markers p with
                  | Some l => l
                  | None => []
                  end))).
Proof.
  unfold load, save, write_text. rewrite String.eqb_refl.
  unfold to_dict, project_asdict; cbn.
  rewrite markers_of_json_asdict. reflexivity.
Qed.

(** C10: loading what [save] wrote gives back the project field for field
    when its markers are a list, and the same project with an empty marker
    list when its markers were [None]. *)
Theorem save_load_roundtrip (p : Project) (fs : disk) (path : string) :
  (forall l : list Marker, markers p = Some l ->
     load (save p fs path) path = Py.Ok p)
  /\ (markers p = None ->
        load (save p fs path) path =
        Py.Ok (mkProject (audio_path p) (bpm p) (downbeat_t0 p) (Some []))).
Proof.
  split.
  - intros l E. rewrite load_after_save, E.
    destruct p as [a b t0 ms]; simpl in *. congruence.
  - intros E. rewrite load_after_save, E. reflexivity.
Qed.

(** C10 on a project with one marker, and on one whose markers are [None]. *)
Lemma save_load_roundtrip_witness :
  let p := mkProject "a.wav" 128 (1 # 2) (Some [mkMarker 1 "kick" "hit"]) in
  let q := mkProject "b.wav" 90 0 None in
  load (save p (fun _ => None) "p.json") "p.json" = Py.Ok p
  /\ load (save q (fun _ => None) "q.json") "q.json"
     = Py.Ok (mkProject "b.wav" 90 0 (Some [])).
Proof.
  intros p q. split.
  - exact (proj1 (save_load_roundtrip p (fun _ => None) "p.json")
             [mkMarker 1 "kick" "hit"] eq_refl).
  - exact (proj2 (save_load_roundtrip q (fun _ => None) "q.json") eq_refl).
Defined.

End ModelsProps.

(* ------------------------------------------------------------------ *)
(** ** Timeline window *)

Module TimelineProps.
Import Timeline PyFacts.

Lemma reachable_valid (w : TimelineWidget) : reachable w -> valid w.
Proof.
  induction 1 as [|w b _ [IHb IHw]|w t0 _ IH|w d _ IH|w h _ IH|w t _ IH];
    try exact IH.
  - split; [split; discriminate | reflexivity].
  - split; [apply clamped_bpm_bounds | exact IHw].
Qed.

Lemma reachable_nonneg (w : TimelineWidget) :
  reachable w -> 0 <= _current_t w /\ 0 <= _duration_s w.
Proof.
  induction 1 as [|w b _ IH|w t0 _ IH|w d _ [IH1 IH2]|w h _ IH
                  |w t _ [IH1 IH2]]; try exact IH; simpl.
  - split; discriminate.
  - split; [assumption|].
    destruct (py_max_cases 0 d) as [[L ->]|[L ->]]; lra.
  - split; [|assumption].
    destruct (py_max_cases 0 t) as [[L ->]|[L ->]]; lra.
Qed.

Lemma clamp_in_range (b : Q) : 30 <= b <= 300 -> Grid.clamp b 30 300 == b.
Proof.
  intros [Lo Hi]. unfold Grid.clamp.
  pose proof (Q.min_spec 300 b) as Hmin.
  pose proof (Q.max_spec 30 (Qmin 300 b)) as Hmax.
  generalize dependent (Qmax 30 (Qmin 300 b)).
  generalize dependent (Qmin 300 b).
  intros m Hmin c Hmax.
  destruct Hmin as [[? ?]|[? ?]]; destruct Hmax as [[? ?]|[? ?]]; lra.
Qed.

(** Case analysis on the innermost [max]/[min] of the goal, Python's first
    and then the library's, leaving linear facts for [lra]. *)
Ltac no_minmax e :=
  lazymatch e with
  | context [Py.max _ _] => fail
  | context [Py.min _ _] => fail
  | context [Qmax _ _] => fail
  | context [Qmin _ _] => fail
  | _ => idtac
  end.

Ltac split_minmax :=
  repeat match goal with
  | |- context [Py.max ?a ?b] =>
      no_minmax a; no_minmax b;
      let L := fresh "L" in let E := fresh "E" in
      destruct (py_max_cases a b) as [[L E]|[L E]]; rewrite E in *; clear E
  | |- context [Py.min ?a ?b] =>
      no_minmax a; no_minmax b;
      let L := fresh "L" in let E := fresh "E" in
      destruct (py_min_cases a b) as [[L E]|[L E]]; rewrite E in *; clear E
  | |- context [Qmax ?a ?b] =>
      no_minmax a; no_minmax b;
      let H := fresh "H" in
      pose proof (Q.max_spec a b) as H;
      generalize dependent (Qmax a b); intros ? [[? ?]|[? ?]]
  | |- context [Qmin ?a ?b] =>
      no_minmax a; no_minmax b;
      let H := fresh "H" in
      pose proof (Q.min_spec a b) as H;
      generalize dependent (Qmin a b); intros ? [[? ?]|[? ?]]
  end.

Lemma bars_window_seconds_width (w : TimelineWidget) :
  valid w ->
  exists width : Q,
    _bars_window_seconds w = Py.Ok width
    /\ width == window_width (_bpm w) (fst (_time_sig w)).
Proof.
  intros [[Lo Hi] Bars].
  unfold _bars_window_seconds, Py.truediv.
  destruct (Qeq_bool (_bpm w) 0) eqn:Z0.
  - apply Qeq_bool_iff in Z0. lra.
  - eexists. split; [reflexivity|].
    unfold window_width. rewrite Bars, clamp_in_range by lra. reflexivity.
Qed.

(** C4: in every state the setters allow, the window the widget computes is
    the reference window of the specification; with a known duration its end
    never passes the duration, and with an unknown one it is exactly one
    width wide and starts at or after zero. *)
Theorem current_window_reference (w : TimelineWidget) :
  valid w ->
  exists start end_ : Q,
    _current_window w = Py.Ok (start, end_)
    /\ start == fst (window_reference (_current_t w) (_bpm w)
                       (fst (_time_sig w)) (_duration_s w))
    /\ end_ == snd (window_reference (_current_t w) (_bpm w)
                      (fst (_time_sig w)) (_duration_s w))
    /\ (0 < _duration_s w -> end_ <= _duration_s w)
    /\ (_duration_s w == 0 ->
        end_ - start == window_width (_bpm w) (fst (_time_sig w))
        /\ 0 <= start).
Proof.
  intro V.
  destruct (bars_window_seconds_width w V) as (W & EW & HW).
  unfold _current_window. rewrite EW. cbn [Py.bind].
  unfold window_reference.
  generalize dependent (window_width (_bpm w) (fst (_time_sig w))).
  intros Wr HW.
  destruct (Py.Qltb 0 (_duration_s w)) eqn:D.
  - apply Qltb_lt in D.
    destruct (Qlt_le_dec 0 (_duration_s w)) as [D'|D']; [|lra].
    eexists; eexists. split; [reflexivity|]. cbn [fst snd].
    repeat split; try (intros; split); split_minmax; lra.
  - apply Qltb_ge in D.
    destruct (Qlt_le_dec 0 (_duration_s w)) as [D'|D']; [lra|].
    eexists; eexists. split; [reflexivity|]. cbn [fst snd].
    repeat split; try (intros; split); split_minmax; lra.
Qed.

(** C4 in a state reached through the setters: 100 BPM, a ten second track,
    the playhead at nine seconds. *)
Lemma current_window_reference_witness :
  exists start end_ : Q,
    _current_window
      (update_transport (set_duration (set_bpm init 100) 10) 9)
    = Py.Ok (start, end_)
    /\ end_ == 10.
Proof.
  destruct (current_window_reference
              (update_transport (set_duration (set_bpm init 100) 10) 9))
    as (s & e & E & _ & He & _).
  - split; [split; vm_compute; discriminate | reflexivity].
  - exists s, e. split; [exact E|]. rewrite He. reflexivity.
Defined.

End TimelineProps.

(* ------------------------------------------------------------------ *)
(** ** Onset detector: frame length and minimum gap *)

Module HopProps.
Import Detector PyFacts.

Lemma int_nonneg_floor (x : Q) : 0 <= x -> Py.int x = Qfloor x.
Proof.
  destruct x as [n d]. unfold Qle, Py.int, Qfloor; simpl. intro H.
  apply Z.quot_div_nonneg; lia.
Qed.







End HopProps.

(* ------------------------------------------------------------------ *)
(** ** Onset detector: silence *)

Module SilenceProps.
Import Detector PyFacts.

Section ForallKept.
Context {A : Type} (P : A -> Prop).

Lemma Forall_firstn (n : nat) (l : list A) :
  Forall P l -> Forall P (firstn n l).
Proof.
  intro H. revert n.
  induction H as [|x l Hx _ IH]; intros [|n]; simpl; auto.
Qed.

Lemma Forall_skipn (n : nat) (l : list A) :
  Forall P l -> Forall P (skipn n l).
Proof.
  intro H. revert n.
  induction H as [|x l Hx Hl IH]; intros [|n]; simpl; auto.
Qed.

Lemma Forall_slice (l : list A) (a b : Z) :
  Forall P l -> Forall P (Py.slice l a b).
Proof. intro H. apply Forall_firstn, Forall_skipn, H. Qed.
End ForallKept.

Lemma Forall_map2 {A B C : Type} (f : A -> B -> C)
  (P : A -> Prop) (R : B -> Prop) (S : C -> Prop) :
  (forall a b, P a -> R b -> S (f a b)) ->
  forall l r, Forall P l -> Forall R r -> Forall S (Py.map2 f l r).
Proof.
  intros Hf l r Hl. revert r.
  induction Hl as [|a l Ha _ IH]; intros r Hr; [constructor|].
  destruct Hr as [|b r Hb Hr]; simpl; auto.
Qed.

Lemma zero_nth (l : list Q) (n : nat) : Forall zero l -> nth n l 0 == 0.
Proof.
  intro H. revert n.
  induction H as [|x l Hx _ IH]; intros [|n]; simpl; auto; reflexivity.
Qed.

Lemma zero_idx (l : list Q) (i : Z) : Forall zero l -> Py.idx l i == 0.
Proof. apply zero_nth. Qed.

Lemma zero_pad (l : list Q) (i : Z) : Forall zero l -> Np.pad l i == 0.
Proof.
  intro H. unfold Np.pad. destruct (i <? 0)%Z; [reflexivity|].
  apply zero_nth, H.
Qed.

Lemma fold_max_In (r : list Q) (x : Q) : In (fold_left Py.max r x) (x :: r).
Proof.
  revert x. induction r as [|y r IH]; intro x; simpl; [auto|].
  destruct (IH (Py.max x y)) as [E|I]; [|auto].
  rewrite <- E. unfold Py.max. destruct (Py.Qltb x y); auto.
Qed.

Lemma zero_np_max (l : list Q) : Forall zero l -> Np.max l == 0.
Proof.
  intro H. destruct l as [|x r]; [reflexivity|].
  unfold Np.max. rewrite Forall_forall in H. apply H, fold_max_In.
Qed.

Lemma zero_abs (l : list Q) : Forall zero l -> Forall zero (Np.abs l).
Proof.
  intro H. unfold Np.abs. apply Forall_map.
  eapply Forall_impl; [|exact H].
  intros q Hq. unfold zero in *. rewrite Hq. reflexivity.
Qed.

Lemma zero_envelope (y : list Q) (hop : Z) :
  Forall zero y -> Forall zero (envelope y hop).
Proof.
  intro H. unfold envelope. apply Forall_map, Forall_forall.
  intros i _. cbv zeta.
  destruct (Z.min (Py.len y) (i * hop + hop) >? i * hop)%Z;
    [|reflexivity].
  apply zero_np_max, zero_abs, Forall_slice, H.
Qed.

Lemma zero_sum (l : list Q) (acc : Q) :
  Forall zero l -> acc == 0 -> fold_left Qplus l acc == 0.
Proof.
  intro H. revert acc.
  induction H as [|x l Hx _ IH]; intros acc Hacc; simpl; [exact Hacc|].
  apply IH. unfold zero in Hx. rewrite Hx, Hacc. reflexivity.
Qed.

Lemma zero_convolve (a v : list Q) :
  Forall zero a -> Forall zero (Np.convolve_same a v).
Proof.
  intro H. unfold Np.convolve_same. apply Forall_map, Forall_forall.
  intros i _. apply zero_sum; [|reflexivity].
  apply Forall_map, Forall_forall. intros j _.
  unfold zero. rewrite (zero_pad a _ H). ring.
Qed.

Lemma zero_smooth (m : Z) (env : list Q) :
  Forall zero env -> Forall zero (smooth m env).
Proof.
  intro H. unfold smooth.
  destruct (m >=? 3)%Z; [apply zero_convolve|]; exact H.
Qed.

Lemma zero_score (env_s : list Q) :
  Forall zero env_s -> Forall zero (score_of env_s).
Proof.
  intro H. unfold score_of.
  apply Forall_map2 with (P := zero) (R := zero); [| exact H |].
  - intros e x He Hx. unfold zero in *. rewrite He, Hx. reflexivity.
  - unfold Np.clip_negative. apply Forall_map.
    assert (D : Forall zero (Np.diff_prepend env_s (hd 0 env_s))).
    { unfold Np.diff_prepend.
      apply Forall_map2 with (P := zero) (R := zero); [| | exact H].
      - intros p c Hp Hc. unfold zero in *. rewrite Hp, Hc. reflexivity.
      - constructor; [|exact H].
        destruct H; [reflexivity | assumption]. }
    eapply Forall_impl; [|exact D].
    intros q Hq. destruct (Py.Qltb q 0); [reflexivity | exact Hq].
Qed.

Lemma threshold_floor (score : list Q) : 8 # 100 <= threshold score.
Proof.
  unfold threshold.
  destruct (py_max_cases (Np.percentile score 92) (8 # 100))
    as [[L ->]|[L ->]]; lra.
Qed.

(** A scan over frames that all sit below the threshold leaves the state as
    it was. *)
Lemma scan_all_below (score : list Q) (thr : Q) (min_gap hop sr : Z)
  (frames : list Z) (st : list hit * Z) :
  (forall i, Py.idx score i < thr) ->
  fold_left (fun acc i => s <- acc ;; scan_step score thr min_gap hop sr s i)
            frames (Py.Ok st)
  = Py.Ok st.
Proof.
  intro Below. induction frames as [|i frames IH]; [reflexivity|].
  simpl. destruct st as [hits last_i]. unfold scan_step at 2.
  pose proof (Below i) as B. apply Qltb_lt in B. rewrite B. exact IH.
Qed.

Lemma raw_hits_silence (y : list Q) (sr : Z) (hop_ms min_gap_ms : Q) :
  Forall zero y -> ~ hop_ms == 0 ->
  raw_hits y sr hop_ms min_gap_ms = Py.Ok [].
Proof.
  intros Hy Hhop. destruct y as [|s y']; [reflexivity|].
  unfold raw_hits. cbv zeta.
  unfold min_gap_of, Py.truediv.
  destruct (Qeq_bool hop_ms 0) eqn:E;
    [apply Qeq_bool_iff in E; contradiction|].
  cbn [Py.bind]. unfold scan. rewrite scan_all_below; [reflexivity|].
  intro i.
  apply Qlt_le_trans with (8 # 100); [|apply threshold_floor].
  rewrite zero_idx; [reflexivity|].
  apply zero_score, zero_smooth, zero_envelope, Hy.
Qed.

(** C5: on a buffer of zeros the detector returns the empty sequence at
    every sample rate, with the default hop and gap and with any other hop
    that is not zero; no score of a silent buffer reaches the threshold,
    which is never below 0.08. *)
Theorem detect_silence (y : list Q) (sr : Z) :
  Forall zero y ->
  detect_hits_peakish y sr default_hop_ms default_min_gap_ms = Py.Ok []
  /\ (forall hop_ms min_gap_ms : Q, ~ hop_ms == 0 ->
        detect_hits_peakish y sr hop_ms min_gap_ms = Py.Ok [])
  /\ (forall score : list Q, 8 # 100 <= threshold score).
Proof.
  intro Hy.
  assert (G : forall hop_ms min_gap_ms : Q, ~ hop_ms == 0 ->
                detect_hits_peakish y sr hop_ms min_gap_ms = Py.Ok []).
  { intros hop_ms min_gap_ms Hhop. unfold detect_hits_peakish.
    rewrite raw_hits_silence by assumption. reflexivity. }
  split; [apply G; discriminate|].
  split; [exact G | exact threshold_floor].
Qed.

(** C5 on three seconds of silence at 22050 Hz. *)
Lemma detect_silence_witness :
  detect_hits_peakish (repeat 0 (Z.to_nat 66150)) 22050
    default_hop_ms default_min_gap_ms
  = Py.Ok [].
Proof.
  assert (H : Forall zero (repeat 0 (Z.to_nat 66150))).
  { apply Forall_forall. intros q Hq.
    apply repeat_spec in Hq. rewrite Hq. reflexivity. }
  exact (proj1 (detect_silence (repeat 0 (Z.to_nat 66150)) 22050 H)).
Defined.

End SilenceProps.

(* ------------------------------------------------------------------ *)
(** ** Onset detector: the peak scan *)

Module ScanProps.
Import Detector PyFacts.

Lemma range_nil (a b : Z) : (b <= a)%Z -> Py.range a b = [].
Proof.
  intro H. unfold Py.range.
  replace (Z.to_nat (b - a)) with 0%nat by lia. reflexivity.
Qed.

Lemma range_cons (a b : Z) :
  (a < b)%Z -> Py.range a b = a :: Py.range (a + 1) b.
Proof.
  intro H. unfold Py.range.
  replace (Z.to_nat (b - a)) with (S (Z.to_nat (b - (a + 1)))) by lia.
  cbn [seq map]. f_equal; [lia|].
  rewrite <- seq_shift, map_map.
  apply map_ext. intro k. lia.
Qed.

Lemma range_bounds (a b i : Z) : In i (Py.range a b) -> (a <= i < b)%Z.
Proof.
  unfold Py.range. rewrite in_map_iff. intros (k & <- & Hk).
  apply in_seq in Hk. lia.
Qed.

Section Scan.
Variables (score : list Q) (thr : Q) (min_gap hop sr : Z).
Hypothesis gap_pos : (1 <= min_gap)%Z.

Let step (acc : Py.result (list hit * Z)) (i : Z) :=
  st <- acc ;; scan_step score thr min_gap hop sr st i.

Lemma fold_raise (l : list Z) (e : Py.exn) :
  fold_left step l (Py.Raise e) = Py.Raise e.
Proof. induction l as [|i l IH]; [reflexivity | exact IH]. Qed.

Lemma set_last_strength_times (hits : list hit) (v : Q) :
  hits <> [] -> map fst (set_last_strength hits v) = map fst hits.
Proof.
  intro NE. unfold set_last_strength.
  rewrite (app_removelast_last (0, 0) NE) at 3.
  rewrite !map_app. reflexivity.
Qed.

Lemma sorted_snoc (fs : list Z) (i : Z) :
  StronglySorted (apart min_gap) fs ->
  Forall (fun f => apart min_gap f i) fs ->
  StronglySorted (apart min_gap) (fs ++ [i]).
Proof.
  induction 1 as [|f fs Hs IH Hf]; intro Hi; simpl.
  - constructor; constructor.
  - inversion Hi as [|? ? Hfi Hrest]; subst.
    constructor; [apply IH, Hrest|].
    apply Forall_app. split; [exact Hf|].
    constructor; [exact Hfi | constructor].
Qed.

(** A frame that does not qualify leaves the state as it is. *)
Lemma scan_step_skips (st : list hit * Z) (i : Z) :
  qualifies score thr i = false ->
  scan_step score thr min_gap hop sr st i = Py.Ok st.
Proof.
  unfold qualifies, scan_step. destruct st as [hits last_i].
  destruct (Py.Qltb (Py.idx score i) thr); [reflexivity|].
  cbn [negb andb]. intros ->. reflexivity.
Qed.

(** One turn of the loop keeps the invariant. *)
Lemma scan_step_inv (st st' : list hit * Z) (i : Z) :
  (1 <= i)%Z ->
  scan_inv min_gap hop sr i st ->
  scan_step score thr min_gap hop sr st i = Py.Ok st' ->
  scan_inv min_gap hop sr (i + 1) st'.
Proof.
  intros Hi (fs & Ht & Hs & Hf & Hl) Hstep.
  destruct st as [hits last_i]. simpl in Ht, Hf, Hl.
  assert (Same : scan_inv min_gap hop sr (i + 1) (hits, last_i)).
  { exists fs. simpl. repeat split; try assumption; lia. }
  unfold scan_step in Hstep.
  destruct (Py.Qltb (Py.idx score i) thr); [congruence|].
  destruct (negb _); [congruence|].
  destruct (i - last_i <? min_gap)%Z eqn:Near.
  - destruct hits as [|h0 hits0] eqn:Eh; [congruence|].
    destruct (Py.Qltb _ _); [|congruence].
    injection Hstep as <-.
    exists fs. cbn [fst snd]. split; [|split; [exact Hs|split; [|lia]]].
    + rewrite set_last_strength_times by discriminate. exact Ht.
    + eapply Forall_impl; [|exact Hf]. simpl. intros f Hf'. lia.
  - apply Z.ltb_ge in Near.
    unfold Py.truediv in Hstep.
    destruct (Qeq_bool (inject_Z sr) 0); [discriminate|].
    cbn [Py.bind] in Hstep. injection Hstep as <-.
    exists (fs ++ [i]). cbn [fst snd]. split; [|split; [|split; [|lia]]].
    + rewrite !map_app, Ht. reflexivity.
    + apply sorted_snoc; [exact Hs|].
      eapply Forall_impl; [|exact Hf]. unfold apart. intros f Hf'. lia.
    + apply Forall_app. split.
      * eapply Forall_impl; [|exact Hf]. simpl. intros f Hf'. lia.
      * constructor; [lia | constructor].
Qed.

(** The loop over [range(a, b)] keeps the invariant. *)
Lemma scan_range_inv (n : nat) :
  forall (a b : Z) (st st' : list hit * Z),
    Z.to_nat (b - a) = n ->
    (1 <= a)%Z ->
    scan_inv min_gap hop sr a st ->
    fold_left step (Py.range a b) (Py.Ok st) = Py.Ok st' ->
    scan_inv min_gap hop sr (Z.max a b) st'.
Proof.
  induction n as [|n IH]; intros a b st st' Hn Ha Hinv Hfold.
  - rewrite range_nil in Hfold by lia. simpl in Hfold.
    injection Hfold as <-. rewrite Z.max_l by lia. exact Hinv.
  - rewrite range_cons in Hfold by lia. cbn [fold_left] in Hfold.
    unfold step at 2 in Hfold. cbn [Py.bind] in Hfold.
    destruct (scan_step score thr min_gap hop sr st a) as [st1|e] eqn:E.
    + replace (Z.max a b) with (Z.max (a + 1) b) by lia.
      apply (IH (a + 1)%Z b st1 st'); try lia; [|exact Hfold].
      apply (scan_step_inv st st1 a); assumption.
    + rewrite fold_raise in Hfold. discriminate.
Qed.

(** The state of the scan just before frame [k]. *)
Lemma scan_inv_holds (m : Z) (st : list hit * Z) :
  scan m score thr min_gap hop sr = Py.Ok st ->
  scan_inv min_gap hop sr (Z.max 1 (m - 1)) st.
Proof.
  intro H. unfold scan in H.
  apply (scan_range_inv (Z.to_nat (m - 1 - 1)) 1 (m - 1) ([], (- 10 ^ 9)%Z));
    [reflexivity | lia | | exact H].
  exists []. cbn [fst snd map]. split; [reflexivity|].
  split; [constructor|]. split; [constructor | lia].
Qed.

End Scan.

(** With a non-zero sample rate the scan cannot raise. *)
Lemma scan_returns (m : Z) (score : list Q) (thr : Q) (min_gap hop sr : Z) :
  sr <> 0%Z ->
  exists st, scan m score thr min_gap hop sr = Py.Ok st.
Proof.
  intro Hsr. unfold scan.
  generalize (([], (- 10 ^ 9)%Z) : list hit * Z).
  induction (Py.range 1 (m - 1)) as [|i l IH]; intro st;
    [eexists; reflexivity|].
  cbn [fold_left Py.bind].
  assert (S : exists st1, scan_step score thr min_gap hop sr st i = Py.Ok st1).
  { unfold scan_step. destruct st as [hits last_i].
    destruct (Py.Qltb (Py.idx score i) thr); [eexists; reflexivity|].
    destruct (negb _); [eexists; reflexivity|].
    destruct (i - last_i <? min_gap)%Z.
    - destruct hits; [eexists; reflexivity|].
      destruct (Py.Qltb _ _); eexists; reflexivity.
    - unfold Py.truediv.
      destruct (Qeq_bool (inject_Z sr) 0) eqn:E; [|eexists; reflexivity].
      apply Qeq_bool_iff in E. unfold Qeq in E. simpl in E. lia. }
  destruct S as [st1 ->]. apply IH.
Qed.

Lemma min_gap_of_returns (min_gap_ms hop_ms : Q) :
  ~ hop_ms == 0 ->
  exists g : Z, min_gap_of min_gap_ms hop_ms = Py.Ok g.
Proof.
  intro H. unfold min_gap_of, Py.truediv.
  destruct (Qeq_bool hop_ms 0) eqn:E; [|eexists; reflexivity].
  apply Qeq_bool_iff in E. contradiction.
Qed.

Lemma min_gap_of_pos (min_gap_ms hop_ms : Q) (g : Z) :
  min_gap_of min_gap_ms hop_ms = Py.Ok g -> (1 <= g)%Z.
Proof.
  unfold min_gap_of, Py.truediv.
  destruct (Qeq_bool hop_ms 0); [discriminate|].
  cbn [Py.bind]. intros [= <-].
  set (q := min_gap_ms / hop_ms).
  assert (H : 1 <= Py.max 1 q).
  { destruct (py_max_cases 1 q) as [[L ->]|[L ->]]; lra. }
  rewrite HopProps.int_nonneg_floor by lra.
  change 1%Z with (Qfloor 1). apply Qfloor_resp_le, H.
Qed.

(** The detector returns whenever the sample rate and the hop are not
    zero. *)
Lemma detect_returns (y : list Q) (sr : Z) (hop_ms min_gap_ms : Q) :
  sr <> 0%Z -> ~ hop_ms == 0 ->
  exists out, detect_hits_peakish y sr hop_ms min_gap_ms = Py.Ok out.
Proof.
  intros Hsr Hhop. unfold detect_hits_peakish, raw_hits.
  destruct y as [|s y']; [eexists; reflexivity|]. cbv zeta.
  destruct (min_gap_of_returns min_gap_ms hop_ms Hhop) as [g ->].
  cbn [Py.bind].
  match goal with
  | |- context [scan ?m ?sc ?t g ?h sr] =>
      destruct (scan_returns m sc t g h sr Hsr) as [st ->]
  end.
  eexists; reflexivity.
Qed.

Lemma normalize_times (hits : list hit) :
  map fst (normalize hits) = map fst hits.
Proof.
  unfold normalize. destruct hits as [|h r]; [reflexivity|].
  rewrite map_map. apply map_ext. intros [t v]. reflexivity.
Qed.

(** What a returned sequence is made of. *)
Lemma detect_inversion (y : list Q) (sr : Z) (hop_ms min_gap_ms : Q)
  (out : list hit) :
  detect_hits_peakish y sr hop_ms min_gap_ms = Py.Ok out ->
  exists raw : list hit,
    raw_hits y sr hop_ms min_gap_ms = Py.Ok raw
    /\ out = normalize raw
    /\ (raw = [] \/
        exists (g : Z) (score : list Q) (thr : Q) (st : list hit * Z),
          min_gap_of min_gap_ms hop_ms = Py.Ok g
          /\ scan (frames_of (Py.len y) (hop_of sr hop_ms)) score thr g
               (hop_of sr hop_ms) sr = Py.Ok st
          /\ raw = fst st).
Proof.
  unfold detect_hits_peakish. intro H.
  destruct (raw_hits y sr hop_ms min_gap_ms) as [raw|e] eqn:R;
    [|discriminate].
  cbn [Py.bind] in H. injection H as <-.
  exists raw. split; [reflexivity|]. split; [reflexivity|].
  unfold raw_hits in R. destruct y as [|s y']; [left; congruence|].
  cbv zeta in R.
  destruct (min_gap_of min_gap_ms hop_ms) as [g|e] eqn:G; [|discriminate].
  cbn [Py.bind] in R.
  match type of R with
  | context [scan ?m ?sc ?t g ?h sr] =>
      destruct (scan m sc t g h sr) as [st|e] eqn:S; [|discriminate];
      right; exists g, sc, t, st
  end.
  cbn [Py.bind] in R. injection R as <-. auto.
Qed.

(** The frames behind a returned sequence. *)
Lemma detect_frames (y : list Q) (sr : Z) (hop_ms min_gap_ms : Q)
  (out : list hit) :
  detect_hits_peakish y sr hop_ms min_gap_ms = Py.Ok out ->
  out = [] \/
  exists (g : Z) (fs : list Z),
    min_gap_of min_gap_ms hop_ms = Py.Ok g
    /\ map fst out = map (time_of (hop_of sr hop_ms) sr) fs
    /\ StronglySorted (apart g) fs
    /\ Forall (fun f => (1 <= f <=
                 frames_of (Py.len y) (hop_of sr hop_ms) - 2)%Z) fs.
Proof.
  intro H.
  destruct (detect_inversion _ _ _ _ _ H) as (raw & _ & -> & [->|R]);
    [left; reflexivity|].
  destruct R as (g & score & thr & st & G & S & ->).
  right. exists g.
  destruct (scan_inv_holds _ _ _ _ _ _ _ S) as (fs & Ht & Hs & Hf & Hl).
  exists fs. rewrite normalize_times.
  repeat split; try assumption.
  eapply Forall_impl; [|exact Hf]. cbv beta. intros f Hf'. lia.
Qed.

End ScanProps.

(* ------------------------------------------------------------------ *)
(** ** Onset detector: where and how far apart the hits are *)

Module HitProps.
Import Detector PyFacts ScanProps.

Lemma inject_Z_pos (z : Z) : (0 < z)%Z -> 0 < inject_Z z.
Proof. intro H. change 0 with (inject_Z 0). rewrite <- Zlt_Qlt. exact H. Qed.

Lemma Qdiv_le_mono (x y s : Q) : 0 < s -> x <= y -> x / s <= y / s.
Proof.
  intros Hs Hxy. unfold Qdiv. apply Qmult_le_compat_r; [exact Hxy|].
  apply Qlt_le_weak, Qinv_lt_0_compat, Hs.
Qed.

Lemma Qdiv_lt_mono (x y s : Q) : 0 < s -> x < y -> x / s < y / s.
Proof.
  intros Hs Hxy. unfold Qdiv. apply Qmult_lt_compat_r; [|exact Hxy].
  apply Qinv_lt_0_compat, Hs.
Qed.

Lemma time_of_le (hop sr a b : Z) :
  (0 < sr)%Z -> (0 <= hop)%Z -> (a <= b)%Z ->
  time_of hop sr a <= time_of hop sr b.
Proof.
  intros Hsr Hhop Hab. unfold time_of.
  apply Qdiv_le_mono; [apply inject_Z_pos, Hsr|].
  rewrite <- Zle_Qle. nia.
Qed.

Lemma time_of_sub (hop sr a b : Z) :
  (0 < sr)%Z ->
  time_of hop sr b - time_of hop sr a
  == inject_Z ((b - a) * hop) / inject_Z sr.
Proof.
  intro Hsr. pose proof (inject_Z_pos sr Hsr) as P. unfold time_of.
  replace ((b - a) * hop)%Z with (b * hop + - (a * hop))%Z by ring.
  rewrite inject_Z_plus, inject_Z_opp. field. lra.
Qed.

(** Frames [g] apart are [g * hop / sr] seconds apart. *)
Lemma time_of_apart (hop sr g a b : Z) :
  (0 < sr)%Z -> (1 <= hop)%Z -> (1 <= g)%Z -> apart g a b ->
  time_of hop sr a < time_of hop sr b
  /\ inject_Z (g * hop) / inject_Z sr
     <= time_of hop sr b - time_of hop sr a.
Proof.
  intros Hsr Hhop Hg Hab. unfold apart in Hab.
  pose proof (inject_Z_pos sr Hsr) as P.
  assert (D : inject_Z (g * hop) / inject_Z sr
              <= time_of hop sr b - time_of hop sr a).
  { rewrite time_of_sub by exact Hsr.
    apply Qdiv_le_mono; [exact P|]. rewrite <- Zle_Qle. nia. }
  split; [|exact D].
  assert (G : 0 < inject_Z (g * hop) / inject_Z sr).
  { apply Qlt_shift_div_l; [exact P|]. rewrite Qmult_0_l.
    apply inject_Z_pos. nia. }
  lra.
Qed.

Lemma hop_of_pos (sr : Z) (hop_ms : Q) : (1 <= hop_of sr hop_ms)%Z.
Proof. unfold hop_of. lia. Qed.

(** The last scanned frame still starts inside the buffer. *)
Lemma interior_frames_inside (n hop : Z) :
  (1 <= hop)%Z -> ((frames_of n hop - 2) * hop < n)%Z.
Proof.
  intro H. unfold frames_of.
  pose proof (Z.mul_div_le (n + hop - 1) hop). nia.
Qed.

Lemma sorted_consecutive (g : Z) (fs : list Z) (j : nat) :
  StronglySorted (apart g) fs -> (S j < List.length fs)%nat ->
  apart g (nth j fs 0%Z) (nth (S j) fs 0%Z).
Proof.
  intro H. revert j.
  induction H as [|f fs Hs IH Hf]; intros j Hj; simpl in Hj; [lia|].
  destruct j as [|j].
  - destruct fs as [|f' fs']; simpl in *; [lia|].
    inversion Hf; assumption.
  - apply (IH j). lia.
Qed.

(** C9: with a positive sample rate and a non-zero hop the detector returns,
    and every hit sits on an interior frame [f] with [1 <= f <= m - 2]: its
    timestamp is at least one hop, at most [(m - 2) * hop / sr], which lies
    before the end of the buffer, and it is never zero. *)
Theorem hits_on_interior_frames (y : list Q) (sr : Z) (hop_ms min_gap_ms : Q) :
  (0 < sr)%Z -> ~ hop_ms == 0 ->
  exists out : list hit,
    detect_hits_peakish y sr hop_ms min_gap_ms = Py.Ok out
    /\ Forall
         (fun h =>
            let hop := hop_of sr hop_ms in
            let n := Py.len y in
            let m := frames_of n hop in
            (exists f : Z, (1 <= f <= m - 2)%Z
                           /\ fst h = inject_Z (f * hop) / inject_Z sr)
            /\ inject_Z hop / inject_Z sr <= fst h
            /\ fst h <= inject_Z ((m - 2) * hop) / inject_Z sr
            /\ inject_Z ((m - 2) * hop) / inject_Z sr
               < inject_Z n / inject_Z sr
            /\ 0 < fst h)
         out.
Proof.
  intros Hsr Hhop.
  destruct (detect_returns y sr hop_ms min_gap_ms) as [out E];
    [lia | exact Hhop|].
  exists out. split; [exact E|].
  destruct (detect_frames _ _ _ _ _ E) as [->|(g & fs & _ & Ht & _ & Hf)];
    [constructor|].
  apply Forall_forall. intros h Hh. cbv zeta.
  apply (in_map fst) in Hh. rewrite Ht in Hh.
  apply in_map_iff in Hh as (f & Ef & Hin).
  rewrite Forall_forall in Hf. specialize (Hf f Hin).
  pose proof (hop_of_pos sr hop_ms) as Hp.
  pose proof (inject_Z_pos sr Hsr) as P.
  set (hop := hop_of sr hop_ms) in *.
  set (m := frames_of (Py.len y) hop) in *.
  assert (Lo : inject_Z hop / inject_Z sr <= fst h).
  { rewrite <- Ef. replace hop with (1 * hop)%Z at 1 by lia.
    apply (time_of_le hop sr 1 f); lia. }
  split; [exists f; split; [exact Hf | symmetry; exact Ef]|].
  split; [exact Lo|]. split; [|split].
  - rewrite <- Ef. apply (time_of_le hop sr f (m - 2)); lia.
  - apply Qdiv_lt_mono; [exact P|]. rewrite <- Zlt_Qlt.
    apply interior_frames_inside. exact Hp.
  - apply Qlt_le_trans with (inject_Z hop / inject_Z sr); [|exact Lo].
    apply Qlt_shift_div_l; [exact P|]. rewrite Qmult_0_l.
    apply inject_Z_pos. lia.
Qed.

(** C9 on fifteen frames of a constant signal at 22050 Hz. *)
Lemma hits_on_interior_frames_witness :
  exists out : list hit,
    detect_hits_peakish (repeat 1 (Z.to_nat 3300)) 22050 10 90 = Py.Ok out
    /\ Forall (fun h => 0 < fst h) out.
Proof.
  destruct (hits_on_interior_frames (repeat 1 (Z.to_nat 3300)) 22050 10 90)
    as (out & E & H); [reflexivity | discriminate |].
  exists out. split; [exact E|].
  eapply Forall_impl; [|exact H]. cbv zeta. intros h Hh. apply Hh.
Defined.

Lemma nth_map_time (F : Z -> Q) (fs : list Z) (j : nat) :
  (j < List.length fs)%nat -> nth j (map F fs) 0 = F (nth j fs 0%Z).
Proof.
  intro H. rewrite (nth_indep _ 0 (F 0%Z)) by (rewrite length_map; exact H).
  apply map_nth.
Qed.

Lemma last_map_fst (hits : list hit) (fs : list Z) (F : Z -> Q) :
  map fst hits = map F fs -> hits <> [] ->
  fs <> [] /\ fst (last hits (0, 0)) = F (last fs 0%Z).
Proof.
  intros E NE.
  destruct (exists_last NE) as (hs & h & ->).
  destruct fs as [|f0 fs0] using rev_ind.
  - rewrite map_app in E. destruct (map fst hs); discriminate.
  - clear IHfs0. rewrite !map_app in E. cbn [map] in E.
    apply app_inj_tail in E as [_ E].
    rewrite !last_last. split; [|exact E].
    destruct fs0; discriminate.
Qed.

Lemma Forall2_same {A : Type} (R : A -> A -> Prop) (l : list A) :
  (forall a, R a a) -> Forall2 R l l.
Proof. intro H. induction l; constructor; auto. Qed.

(** A frame fewer than [min_gap] frames after [last_i] adds no hit: the
    timestamps stay as they are and no strength goes down. *)
Lemma near_frame_merges (score : list Q) (thr : Q) (min_gap hop sr : Z)
  (hits : list hit) (last_i i : Z) :
  (i - last_i < min_gap)%Z ->
  exists (hits' : list hit) (last_i' : Z),
    scan_step score thr min_gap hop sr (hits, last_i) i
    = Py.Ok (hits', last_i')
    /\ map fst hits' = map fst hits
    /\ Forall2 (fun h h' => snd h <= snd h') hits hits'.
Proof.
  intro Near. apply Z.ltb_lt in Near.
  assert (Same : Forall2 (fun h h' : hit => snd h <= snd h') hits hits).
  { apply Forall2_same. intro a. apply Qle_refl. }
  unfold scan_step.
  destruct (Py.Qltb (Py.idx score i) thr); [eauto|].
  destruct (negb _); [eauto|].
  rewrite Near.
  destruct hits as [|h0 hits0] eqn:Eh; [eauto|]. rewrite <- Eh in *.
  assert (NE : hits <> []) by (rewrite Eh; discriminate).
  destruct (Py.Qltb (snd (last hits (0, 0))) (Py.idx score i)) eqn:Up;
    [|eauto].
  apply Qltb_lt in Up.
  eexists; eexists. split; [reflexivity|].
  split; [apply set_last_strength_times, NE|].
  unfold set_last_strength.
  rewrite (app_removelast_last (0, 0) NE) at 1.
  apply Forall2_app; [apply Forall2_same; intro; apply Qle_refl|].
  constructor; [|constructor]. cbn [snd]. apply Qlt_le_weak, Up.
Qed.

(** C1, as amended: with a positive sample rate and a non-zero hop the
    detector returns hits whose timestamps grow strictly and whose
    consecutive hits are at least [min_gap] frames, that is
    [min_gap * hop / sr] seconds, apart, for the truncated
    [min_gap = int(max(1, min_gap_ms / hop_ms))] and [hop]; and a frame fewer
    than [min_gap] frames after the frame of the latest hit adds no hit: the
    timestamps stay and that hit's strength can only go up. *)
Theorem hits_spaced_by_frame_gap (y : list Q) (sr : Z) (hop_ms min_gap_ms : Q) :
  (0 < sr)%Z -> ~ hop_ms == 0 ->
  exists (out : list hit) (g : Z),
    detect_hits_peakish y sr hop_ms min_gap_ms = Py.Ok out
    /\ min_gap_of min_gap_ms hop_ms = Py.Ok g
    /\ (1 <= g)%Z
    /\ spaced (inject_Z (g * hop_of sr hop_ms) / inject_Z sr) (map fst out)
    /\ (forall (score : list Q) (thr : Q) (i : Z) (hits : list hit)
               (last_i : Z),
          (1 <= i)%Z ->
          scan (i + 1) score thr g (hop_of sr hop_ms) sr
          = Py.Ok (hits, last_i) ->
          hits <> [] ->
          exists f : Z,
            (1 <= f < i)%Z
            /\ fst (last hits (0, 0)) = time_of (hop_of sr hop_ms) sr f
            /\ ((i - f < g)%Z ->
                exists (hits' : list hit) (last_i' : Z),
                  scan_step score thr g (hop_of sr hop_ms) sr
                    (hits, last_i) i = Py.Ok (hits', last_i')
                  /\ map fst hits' = map fst hits
                  /\ Forall2 (fun h h' => snd h <= snd h') hits hits')).
Proof.
  intros Hsr Hhop.
  destruct (detect_returns y sr hop_ms min_gap_ms) as [out E];
    [lia | exact Hhop|].
  destruct (min_gap_of_returns min_gap_ms hop_ms Hhop) as [g G].
  pose proof (min_gap_of_pos _ _ _ G) as Hg.
  pose proof (hop_of_pos sr hop_ms) as Hp.
  exists out, g. split; [exact E|]. split; [exact G|]. split; [exact Hg|].
  split.
  - destruct (detect_frames _ _ _ _ _ E)
      as [->|(g' & fs & G' & Ht & Hs & _)].
    + intros j Hj. simpl in Hj. lia.
    + assert (g' = g) by congruence. subst g'.
      rewrite Ht. intros j Hj. rewrite length_map in Hj.
      rewrite !nth_map_time by lia.
      apply time_of_apart; try assumption.
      apply sorted_consecutive; assumption.
  - intros score thr i hits last_i Hi S NE.
    apply scan_inv_holds in S.
    replace (Z.max 1 (i + 1 - 1)) with i in S by lia.
    destruct S as (fs & Ht & _ & Hf & Hl). cbn [fst snd] in *.
    destruct (last_map_fst hits fs _ Ht NE) as [NEf El].
    assert (Hin : In (last fs 0%Z) fs).
    { destruct (exists_last NEf) as (fs0 & f & ->).
      rewrite last_last. apply in_or_app. right. left. reflexivity. }
    rewrite Forall_forall in Hf. specialize (Hf _ Hin).
    exists (last fs 0%Z). split; [lia|]. split; [exact El|].
    intro Near. apply near_frame_merges. lia.
Qed.

(** The amended C1 on fifteen frames of a constant signal at 22050 Hz. *)
Lemma hits_spaced_by_frame_gap_witness :
  exists (out : list hit) (g : Z),
    detect_hits_peakish (repeat 1 (Z.to_nat 3300)) 22050 10 90 = Py.Ok out
    /\ min_gap_of 90 10 = Py.Ok g
    /\ spaced (inject_Z (g * hop_of 22050 10) / inject_Z 22050) (map fst out).
Proof.
  destruct (hits_spaced_by_frame_gap (repeat 1 (Z.to_nat 3300)) 22050 10 90)
    as (out & g & E & G & _ & S & _); [reflexivity | discriminate |].
  exists out, g. auto.
Defined.

(** C1 as stated fails on 3300 samples of a constant signal at 22050 Hz with
    the default 10 ms hop and 90 ms gap: the two hits returned are 1980
    samples, under 0.0898 s, apart. *)
Lemma hits_closer_than_min_gap_ms :
  match detect_hits_peakish (repeat 1 (Z.to_nat 3300)) 22050 10 90 with
  | Py.Ok [h1; h2] =>
      fst h1 == 220 # 22050
      /\ fst h2 == 2200 # 22050
      /\ fst h2 - fst h1 < 90 / 1000
  | _ => False
  end.
Proof. vm_compute. repeat split. Qed.

End HitProps.

(* ------------------------------------------------------------------ *)
(** ** Onset detector: normalised strengths *)

Module NormalizeProps.
Import Detector PyFacts ScanProps.

Lemma fold_min_In (r : list Q) (x : Q) : In (fold_left Py.min r x) (x :: r).
Proof.
  revert x. induction r as [|y r IH]; intro x; simpl; [auto|].
  destruct (IH (Py.min x y)) as [E|I]; [|auto].
  rewrite <- E. unfold Py.min. destruct (Py.Qltb y x); auto.
Qed.

Lemma fold_min_lower (r : list Q) (x : Q) :
  Forall (fun v => fold_left Py.min r x <= v) (x :: r).
Proof.
  revert x. induction r as [|y r IH]; intro x; simpl.
  - constructor; [apply Qle_refl | constructor].
  - specialize (IH (Py.min x y)). inversion IH as [|? ? Hm Hr]; subst.
    assert (Hx : Py.min x y <= x /\ Py.min x y <= y).
    { destruct (py_min_cases x y) as [[L ->]|[L ->]]; lra. }
    constructor; [lra|]. constructor; [lra | exact Hr].
Qed.

Lemma fold_max_upper (r : list Q) (x : Q) :
  Forall (fun v => v <= fold_left Py.max r x) (x :: r).
Proof.
  revert x. induction r as [|y r IH]; intro x; simpl.
  - constructor; [apply Qle_refl | constructor].
  - specialize (IH (Py.max x y)). inversion IH as [|? ? Hm Hr]; subst.
    assert (Hx : x <= Py.max x y /\ y <= Py.max x y).
    { destruct (py_max_cases x y) as [[L ->]|[L ->]]; lra. }
    constructor; [lra|]. constructor; [lra | exact Hr].
Qed.

Section MinMax.
Variables (h : hit) (r : list hit).
Let hits := h :: r.
Let smin := fold_left Py.min (map snd r) (snd h).
Let smax := fold_left Py.max (map snd r) (snd h).

Lemma smin_least : least_strength smin hits.
Proof.
  split.
  - pose proof (fold_min_lower (map snd r) (snd h)) as L.
    change (snd h :: map snd r) with (map snd hits) in L.
    rewrite Forall_map in L. exact L.
  - pose proof (fold_min_In (map snd r) (snd h)) as I.
    change (snd h :: map snd r) with (map snd hits) in I.
    apply in_map_iff in I as (x & Ex & Hin).
    apply Exists_exists. exists x. split; [exact Hin|].
    fold smin in Ex. rewrite Ex. reflexivity.
Qed.

Lemma smax_greatest : greatest_strength smax hits.
Proof.
  split.
  - pose proof (fold_max_upper (map snd r) (snd h)) as L.
    change (snd h :: map snd r) with (map snd hits) in L.
    rewrite Forall_map in L. exact L.
  - pose proof (SilenceProps.fold_max_In (map snd r) (snd h)) as I.
    change (snd h :: map snd r) with (map snd hits) in I.
    apply in_map_iff in I as (x & Ex & Hin).
    apply Exists_exists. exists x. split; [exact Hin|].
    fold smax in Ex. rewrite Ex. reflexivity.
Qed.

Lemma least_unique (lo : Q) : least_strength lo hits -> lo == smin.
Proof.
  intros [L E]. destruct smin_least as [L' E'].
  rewrite Forall_forall in L, L'.
  apply Exists_exists in E as (a & Ha & Ea).
  apply Exists_exists in E' as (b & Hb & Eb).
  pose proof (L b Hb). pose proof (L' a Ha). lra.
Qed.

Lemma greatest_unique (hi : Q) : greatest_strength hi hits -> hi == smax.
Proof.
  intros [L E]. destruct smax_greatest as [L' E'].
  rewrite Forall_forall in L, L'.
  apply Exists_exists in E as (a & Ha & Ea).
  apply Exists_exists in E' as (b & Hb & Eb).
  pose proof (L b Hb). pose proof (L' a Ha). lra.
Qed.

Lemma normalize_strength (t v : Q) :
  In (t, v) hits ->
  In (t, if Py.Qltb smin smax then (v - smin) / (smax - smin) else 1)
     (normalize hits).
Proof.
  intro H. unfold normalize, hits.
  apply in_map_iff. exists (t, v). split; [reflexivity | exact H].
Qed.

End MinMax.

Lemma scaled_bounds (v lo hi : Q) :
  lo < hi -> lo <= v <= hi -> 0 <= (v - lo) / (hi - lo) <= 1.
Proof.
  intros H [L U]. split.
  - apply Qle_shift_div_l; lra.
  - apply Qle_shift_div_r; lra.
Qed.

Lemma scaled_top (lo hi : Q) : lo < hi -> (hi - lo) / (hi - lo) == 1.
Proof. intro H. field. lra. Qed.

(** What [normalize] does to a non-empty list of raw hits. *)
Lemma normalize_spec (raw : list hit) :
  raw <> [] ->
  map fst (normalize raw) = map fst raw
  /\ Forall (fun h => 0 <= snd h <= 1) (normalize raw)
  /\ Exists (fun h => snd h == 1) (normalize raw)
  /\ ((forall a b, In a raw -> In b raw -> snd a == snd b) ->
      Forall (fun h => snd h == 1) (normalize raw))
  /\ (forall lo hi : Q,
        least_strength lo raw -> greatest_strength hi raw -> lo < hi ->
        Forall2 (fun r o => fst o = fst r
                            /\ snd o == (snd r - lo) / (hi - lo))
                raw (normalize raw)).
Proof.
  intro NE. destruct raw as [|h r]; [congruence|]. clear NE.
  split; [apply normalize_times|].
  pose proof (smin_least h r) as [Lmin Emin].
  pose proof (smax_greatest h r) as [Lmax Emax].
  pose proof (least_unique h r) as Ulo.
  pose proof (greatest_unique h r) as Uhi.
  unfold normalize.
  set (smin := fold_left Py.min (map snd r) (snd h)) in *.
  set (smax := fold_left Py.max (map snd r) (snd h)) in *.
  set (raw := h :: r) in *.
  rewrite Forall_forall in Lmin, Lmax.
  destruct (Py.Qltb smin smax) eqn:Lt.
  - apply Qltb_lt in Lt.
    split; [|split; [|split]].
    + apply Forall_map, Forall_forall. intros [t v] Hin. cbn [snd].
      apply scaled_bounds; [exact Lt|].
      split; [apply (Lmin _ Hin) | apply (Lmax _ Hin)].
    + apply Exists_exists in Emax as ([t v] & Hin & Ev). cbn [snd] in Ev.
      apply Exists_exists. exists (t, (v - smin) / (smax - smin)).
      split.
      * apply in_map_iff. exists (t, v). split; [reflexivity | exact Hin].
      * cbn [snd]. rewrite Ev. apply scaled_top, Lt.
    + intro Same. exfalso.
      apply Exists_exists in Emin as (a & Ha & Ea).
      apply Exists_exists in Emax as (b & Hb & Eb).
      pose proof (Same a b Ha Hb). lra.
    + intros lo hi Hlo Hhi _.
      apply Ulo in Hlo. apply Uhi in Hhi.
      clear - Hlo Hhi. induction raw as [|[t v] l IH]; constructor;
        [|exact IH].
      cbn [fst snd]. split; [reflexivity|]. rewrite Hlo, Hhi. reflexivity.
  - apply Qltb_ge in Lt.
    assert (One : Forall (fun h0 : hit => snd h0 == 1)
                    (map (fun '(t, v) => (t, 1)) raw)).
    { apply Forall_map, Forall_forall. intros [t v] _. reflexivity. }
    split; [|split; [|split]].
    + eapply Forall_impl; [|exact One]. cbv beta. intros a Ha.
      rewrite Ha. split; discriminate.
    + destruct h as [t v]. left. reflexivity.
    + intros _. exact One.
    + intros lo hi Hlo Hhi Hlt.
      apply Ulo in Hlo. apply Uhi in Hhi. lra.
Qed.

(** C3: a non-empty result of the detector is the min-max scaling of the
    accepted raw scores: the timestamps are kept, every strength lies in
    [0, 1], some hit has strength exactly 1, all of them have when the raw
    scores are all equal, and otherwise each strength is
    [(v - min) / (max - min)]. *)
Theorem strengths_min_max_scaled (y : list Q) (sr : Z) (hop_ms min_gap_ms : Q)
  (out : list hit) :
  detect_hits_peakish y sr hop_ms min_gap_ms = Py.Ok out ->
  out <> [] ->
  exists raw : list hit,
    raw_hits y sr hop_ms min_gap_ms = Py.Ok raw
    /\ map fst out = map fst raw
    /\ Forall (fun h => 0 <= snd h <= 1) out
    /\ Exists (fun h => snd h == 1) out
    /\ ((forall a b, In a raw -> In b raw -> snd a == snd b) ->
        Forall (fun h => snd h == 1) out)
    /\ (forall lo hi : Q,
          least_strength lo raw -> greatest_strength hi raw -> lo < hi ->
          Forall2 (fun r o => fst o = fst r
                              /\ snd o == (snd r - lo) / (hi - lo))
                  raw out).
Proof.
  intros E NE.
  destruct (detect_inversion _ _ _ _ _ E) as (raw & R & -> & _).
  exists raw. split; [exact R|].
  apply normalize_spec. intros ->. apply NE. reflexivity.
Qed.

(** C3 on fifteen frames of a constant signal at 22050 Hz, where two hits
    with different raw scores are returned. *)
Lemma strengths_min_max_scaled_witness :
  exists out : list hit,
    detect_hits_peakish (repeat 1 (Z.to_nat 3300)) 22050 10 90 = Py.Ok out
    /\ List.length out = 2%nat
    /\ Forall (fun h => 0 <= snd h <= 1) out
    /\ Exists (fun h => snd h == 1) out.
Proof.
  destruct (detect_hits_peakish (repeat 1 (Z.to_nat 3300)) 22050 10 90)
    as [out|e] eqn:E; [|vm_compute in E; discriminate].
  assert (L : List.length out = 2%nat).
  { vm_compute in E. injection E as <-. reflexivity. }
  destruct (strengths_min_max_scaled _ _ _ _ out E)
    as (raw & _ & _ & B & T & _).
  - intros ->. discriminate L.
  - exists out. auto.
Defined.

End NormalizeProps.

(* ------------------------------------------------------------------ *)
(** ** Beat grid: beats as half-open intervals *)

Module GridIntervals.
Import Grid PyFacts.

Lemma floor_unique (x : Q) (k : Z) :
  inject_Z k <= x -> x < inject_Z k + 1 -> Qfloor x = k.
Proof.
  intros Lo Hi.
  assert (A : (k <= Qfloor x)%Z).
  { rewrite <- (Qfloor_Z k). apply Qfloor_resp_le, Lo. }
  assert (B : (Qfloor x < k + 1)%Z).
  { rewrite Zlt_Qlt, inject_Z_plus.
    apply Qle_lt_trans with x; [apply Qfloor_le | exact Hi]. }
  lia.
Qed.

Lemma floor_bounds (x : Q) :
  inject_Z (Qfloor x) <= x /\ x < inject_Z (Qfloor x) + 1.
Proof.
  split; [apply Qfloor_le|].
  pose proof (Qlt_floor x) as H. rewrite inject_Z_plus in H. exact H.
Qed.

(** The elapsed time grows with the time. *)
Lemma elapsed_le (g : BeatGrid) (t1 t2 : Q) :
  t1 <= t2 -> elapsed g t1 <= elapsed g t2.
Proof.
  intro H. unfold elapsed, F64.sub. apply F64Facts.rnd_le.
  apply F64Facts.rnd_le in H. lra.
Qed.

Lemma quotient_bounds (d bs : Q) (k : Z) :
  0 < bs ->
  (inject_Z k <= d / bs /\ d / bs < inject_Z k + 1)
  <-> (inject_Z k * bs <= d /\ d < (inject_Z k + 1) * bs).
Proof.
  intro P.
  assert (E : d / bs * bs == d) by (field; lra).
  split; intros [Lo Hi]; split.
  - apply (Qmult_le_compat_r _ _ bs) in Lo; [|lra].
    rewrite E in Lo. exact Lo.
  - apply (Qmult_lt_compat_r _ _ bs) in Hi; [|exact P].
    rewrite E in Hi. exact Hi.
  - apply Qle_shift_div_l; assumption.
  - apply Qlt_shift_div_r; assumption.
Qed.

Lemma beat_index_bounds (g : BeatGrid) (t : Q) (k : Z) :
  elapsed g t / beat_seconds_f64 g < F64.pow2 48 ->
  beat_index_at g t = Some k ->
  (0 <= k)%Z
  /\ inject_Z k * beat_seconds_f64 g <= elapsed g t
  /\ elapsed g t < (inject_Z k + 1) * beat_seconds_f64 g.
Proof.
  pose proof (GridProps.beat_seconds_f64_pos g) as P. intros B H.
  destruct (Qlt_le_dec (F64.rnd t) (F64.rnd (downbeat_t0 g))) as [L|A].
  - rewrite GridProps.beat_index_at_before in H by exact L. discriminate.
  - rewrite GridProps.beat_index_at_value in H by assumption.
    assert (E : Qfloor (elapsed g t / beat_seconds_f64 g) = k)
      by congruence.
    rewrite <- E. clear H E.
    pose proof (GridProps.elapsed_nonneg g t A) as N.
    pose proof (floor_bounds (elapsed g t / beat_seconds_f64 g)) as F.
    apply quotient_bounds in F; [|exact P]. destruct F as [Lo Hi].
    split.
    + assert (Q0 : 0 <= elapsed g t / beat_seconds_f64 g).
      { apply Qle_shift_div_l; [exact P | lra]. }
      exact (Qfloor_resp_le 0 _ Q0).
    + split; assumption.
Qed.

Lemma beat_index_of_bounds (g : BeatGrid) (t : Q) (k : Z) :
  elapsed g t / beat_seconds_f64 g < F64.pow2 48 ->
  (0 <= k)%Z ->
  inject_Z k * beat_seconds_f64 g <= elapsed g t ->
  elapsed g t < (inject_Z k + 1) * beat_seconds_f64 g ->
  beat_index_at g t = Some k.
Proof.
  pose proof (GridProps.beat_seconds_f64_pos g) as P. intros B K Lo Hi.
  assert (K' : 0 <= inject_Z k).
  { change 0 with (inject_Z 0). rewrite <- Zle_Qle. exact K. }
  assert (N : 0 <= elapsed g t) by nra.
  assert (A : F64.rnd (downbeat_t0 g) <= F64.rnd t).
  { destruct (Qlt_le_dec (F64.rnd t) (F64.rnd (downbeat_t0 g))) as [L|L];
      [|exact L].
    apply GridProps.elapsed_neg in L. lra. }
  rewrite GridProps.beat_index_at_value by assumption. f_equal.
  apply floor_unique;
    apply (quotient_bounds (elapsed g t) (beat_seconds_f64 g) k P);
    split; assumption.
Qed.

(** X1: in doubles, beat [k] is the half-open interval from [k] beats to
    [k + 1] beats of elapsed time: while the elapsed time is below [2^48]
    beats, the index at [t] is [k] exactly when [k] is not negative and the
    rounded elapsed time lies in that interval of multiples of the rounded
    beat length. *)
Theorem beat_index_at_interval (g : BeatGrid) (t : Q) (k : Z) :
  elapsed g t / beat_seconds_f64 g < F64.pow2 48 ->
  beat_index_at g t = Some k
  <-> (0 <= k)%Z
      /\ inject_Z k * beat_seconds_f64 g <= elapsed g t
      /\ elapsed g t < (inject_Z k + 1) * beat_seconds_f64 g.
Proof.
  intro B. split.
  - apply beat_index_bounds, B.
  - intros (K & Lo & Hi). apply beat_index_of_bounds; assumption.
Qed.

(** [beat_index_at_interval] at 150 BPM: five beats of the double of 0.4 end
    just after 2.0, so two seconds after the downbeat is still beat 4. *)
Lemma beat_index_at_interval_witness :
  elapsed (mkBeatGrid 150 0 4) 2
  < 5 * beat_seconds_f64 (mkBeatGrid 150 0 4)
  /\ beat_index_at (mkBeatGrid 150 0 4) 2 = Some 4%Z.
Proof.
  split; [vm_compute; reflexivity|].
  apply (beat_index_at_interval (mkBeatGrid 150 0 4) 2 4);
    [vm_compute; reflexivity|].
  split; [lia|]. split; vm_compute; [discriminate | reflexivity].
Defined.

(** X2: the beat index never goes back while time goes on: once defined at
    [t1] it is defined at every later [t2], with an index at least as
    large. *)
Theorem beat_index_at_monotone (g : BeatGrid) (t1 t2 : Q) (k1 : Z) :
  t1 <= t2 ->
  beat_index_at g t1 = Some k1 ->
  exists k2 : Z, beat_index_at g t2 = Some k2 /\ (k1 <= k2)%Z.
Proof.
  intros Le H1.
  pose proof (GridProps.beat_seconds_f64_pos g) as P.
  pose proof (F64Facts.rnd_le _ _ Le) as R.
  assert (A1 : F64.rnd (downbeat_t0 g) <= F64.rnd t1).
  { destruct (Qlt_le_dec (F64.rnd t1) (F64.rnd (downbeat_t0 g))) as [B|A];
      [|exact A].
    rewrite GridProps.beat_index_at_before in H1 by exact B. discriminate. }
  pose proof (GridProps.elapsed_nonneg g t1 A1) as N1.
  pose proof (elapsed_le g t1 t2 Le) as D.
  rewrite GridProps.beat_index_at_after in H1 by exact A1.
  assert (E : Py.int (F64.floordiv (elapsed g t1) (beat_seconds_f64 g)) = k1)
    by congruence.
  rewrite <- E. clear H1 E.
  eexists. split; [apply GridProps.beat_index_at_after; lra|].
  pose proof (F64Facts.floordiv_ge_0 _ _ N1 P) as F1.
  pose proof (F64Facts.floordiv_le _ _ _ N1 D P) as F12.
  rewrite !HopProps.int_nonneg_floor by lra.
  apply Qfloor_resp_le, F12.
Qed.

(** [beat_index_at_monotone] from 2.6 s to 5 s at 100 BPM. *)
Lemma beat_index_at_monotone_witness :
  exists k2 : Z,
    beat_index_at (mkBeatGrid 100 2 4) 5 = Some k2 /\ (1 <= k2)%Z.
Proof.
  apply (beat_index_at_monotone (mkBeatGrid 100 2 4) (26 # 10) 5 1);
    [discriminate | vm_compute; reflexivity].
Defined.

End GridIntervals.

(* ------------------------------------------------------------------ *)
(** ** Onset detector: errors, short buffers, what backs a hit *)

Module DetectorEdges.
Import Detector DetectorRun PyFacts ScanProps.

Lemma raw_hits_run (s : Q) (y : list Q) (sr : Z) (hop_ms min_gap_ms : Q) :
  raw_hits (s :: y) sr hop_ms min_gap_ms =
  (min_gap <- min_gap_of min_gap_ms hop_ms ;;
   st <- scan (frames (s :: y) sr hop_ms) (score_for (s :: y) sr hop_ms)
           (threshold_for (s :: y) sr hop_ms) min_gap (hop_of sr hop_ms) sr ;;
   Py.Ok (fst st)).
Proof.
  unfold raw_hits, threshold_for, score_for, frames. cbv zeta.
  destruct (min_gap_of min_gap_ms hop_ms); reflexivity.
Qed.

Section Loop.
Variables (score : list Q) (thr : Q) (min_gap hop sr : Z).

Let step (acc : Py.result (list hit * Z)) (i : Z) :=
  st <- acc ;; scan_step score thr min_gap hop sr st i.

(** A property of the state that every turn of the loop keeps holds after
    the loop over [range(a, b)]. *)
Lemma scan_range_preserves (I : Z -> list hit * Z -> Prop) :
  (forall i st st', (1 <= i)%Z -> I i st ->
     scan_step score thr min_gap hop sr st i = Py.Ok st' -> I (i + 1)%Z st') ->
  forall (n : nat) (a b : Z) (st st' : list hit * Z),
    Z.to_nat (b - a) = n -> (1 <= a)%Z -> I a st ->
    fold_left step (Py.range a b) (Py.Ok st) = Py.Ok st' ->
    I (Z.max a b) st'.
Proof.
  intros Keep. induction n as [|n IH]; intros a b st st' Hn Ha Hinv Hfold.
  - rewrite range_nil in Hfold by lia. simpl in Hfold.
    injection Hfold as <-. rewrite Z.max_l by lia. exact Hinv.
  - rewrite range_cons in Hfold by lia. cbn [fold_left] in Hfold.
    unfold step at 2 in Hfold. cbn [Py.bind] in Hfold.
    destruct (scan_step score thr min_gap hop sr st a) as [st1|e] eqn:E.
    + replace (Z.max a b) with (Z.max (a + 1) b) by lia.
      apply (IH (a + 1)%Z b st1 st'); try lia; [|exact Hfold].
      apply (Keep a st st1); assumption.
    + unfold step in Hfold. rewrite fold_raise in Hfold. discriminate.
Qed.


Lemma removelast_Forall {A : Type} (P : A -> Prop) (l : list A) :
  Forall P l -> Forall P (removelast l).
Proof.
  intro H. destruct l as [|x l'] using rev_ind; [exact H|].
  rewrite removelast_last. apply Forall_app in H. apply H.
Qed.

Lemma last_Forall {A : Type} (P : A -> Prop) (l : list A) (d : A) :
  Forall P l -> l <> [] -> P (last l d).
Proof.
  intros H NE. destruct (exists_last NE) as (l' & x & ->).
  rewrite last_last. apply Forall_app in H as [_ H].
  inversion H; assumption.
Qed.

Lemma hit_backed_later (k k' : Z) (h : hit) :
  (k <= k')%Z -> hit_backed score thr hop sr k h ->
  hit_backed score thr hop sr k' h.
Proof.
  intros Le (f & f' & A & B & C). exists f, f'.
  split; [exact A|]. split; [lia | exact C].
Qed.

(** One turn of the loop keeps every hit backed. *)
Lemma scan_step_backed (i : Z) (st st' : list hit * Z) :
  (1 <= i)%Z ->
  Forall (hit_backed score thr hop sr i) (fst st) ->
  scan_step score thr min_gap hop sr st i = Py.Ok st' ->
  Forall (hit_backed score thr hop sr (i + 1)) (fst st').
Proof.
  intros Hi Hall Hstep. destruct st as [hits last_i]. cbn [fst] in Hall.
  assert (Same : Forall (hit_backed score thr hop sr (i + 1)) hits).
  { eapply Forall_impl; [|exact Hall]. intro h.
    apply hit_backed_later. lia. }
  unfold scan_step in Hstep.
  destruct (Py.Qltb (Py.idx score i) thr) eqn:T;
    [injection Hstep as <-; exact Same|].
  destruct (Qle_bool (Py.idx score (i - 1)) (Py.idx score i)
            && Qle_bool (Py.idx score (i + 1)) (Py.idx score i)) eqn:M;
    cbn [negb] in Hstep; [|injection Hstep as <-; exact Same].
  assert (Qi : qualifies score thr i = true).
  { unfold qualifies. rewrite T, M. reflexivity. }
  destruct (i - last_i <? min_gap)%Z.
  - destruct hits as [|h0 hits0] eqn:Eh;
      [injection Hstep as <-; exact Same|].
    rewrite <- Eh in *.
    assert (NE : hits <> []) by (rewrite Eh; discriminate).
    destruct (Py.Qltb (snd (last hits (0, 0))) (Py.idx score i)) eqn:Up;
      [|injection Hstep as <-; exact Same].
    injection Hstep as <-. cbn [fst]. unfold set_last_strength.
    apply Forall_app. split; [apply removelast_Forall, Same|].
    constructor; [|constructor].
    apply Qltb_lt in Up.
    destruct (last_Forall _ hits (0, 0) Hall NE)
      as (f & f' & A & B & Ct & Qf & _ & Es & Ls).
    exists f, i. cbn [fst snd].
    repeat split; try assumption; try lia.
    apply Qlt_le_weak. apply Qle_lt_trans with (snd (last hits (0, 0)));
      assumption.
  - unfold Py.truediv in Hstep.
    destruct (Qeq_bool (inject_Z sr) 0); [discriminate|].
    cbn [Py.bind] in Hstep. injection Hstep as <-. cbn [fst].
    apply Forall_app. split; [exact Same|].
    constructor; [|constructor].
    exists i, i. cbn [fst snd].
    repeat split; try assumption; try lia. apply Qle_refl.
Qed.

Lemma scan_backed (m : Z) (st : list hit * Z) :
  scan m score thr min_gap hop sr = Py.Ok st ->
  Forall (hit_backed score thr hop sr (Z.max 1 (m - 1))) (fst st).
Proof.
  intro H. unfold scan in H.
  apply (scan_range_preserves
           (fun k s => Forall (hit_backed score thr hop sr k) (fst s))
           scan_step_backed
           (Z.to_nat (m - 1 - 1)) 1 (m - 1) ([], (- 10 ^ 9)%Z));
    [reflexivity | lia | constructor | exact H].
Qed.

End Loop.

Lemma qualifies_threshold (score : list Q) (thr : Q) (f : Z) :
  qualifies score thr f = true ->
  thr <= Py.idx score f
  /\ Py.idx score (f - 1) <= Py.idx score f
  /\ Py.idx score (f + 1) <= Py.idx score f.
Proof.
  unfold qualifies. intro H.
  apply andb_true_iff in H as [T M]. apply andb_true_iff in M as [L R].
  apply negb_true_iff, Qltb_ge in T.
  apply Qle_bool_iff in L. apply Qle_bool_iff in R. auto.
Qed.

(** The raw strength of an accepted hit is the score of some frame and is
    at least 0.08. *)
Lemma raw_strength_is_score (y : list Q) (sr : Z) (hop_ms min_gap_ms : Q)
  (raw : list hit) :
  raw_hits y sr hop_ms min_gap_ms = Py.Ok raw ->
  Forall
    (fun h => (exists f' : Z, snd h = Py.idx (score_for y sr hop_ms) f')
              /\ 8 # 100 <= snd h)
    raw.
Proof.
  intro H. destruct y as [|s y']; [injection H as <-; constructor|].
  rewrite raw_hits_run in H.
  destruct (min_gap_of min_gap_ms hop_ms) as [g|e]; [|discriminate].
  cbn [Py.bind] in H.
  destruct (scan _ _ _ g _ sr) as [st|e] eqn:S; [|discriminate].
  cbn [Py.bind] in H. injection H as <-.
  apply scan_backed in S.
  eapply Forall_impl; [|exact S]. cbv beta.
  intros h (f & f' & _ & _ & _ & _ & Qf' & Es & _).
  split; [exists f'; exact Es|].
  destruct (qualifies_threshold _ _ _ Qf') as (T' & _ & _).
  assert (Fl : 8 # 100 <= threshold_for (s :: y') sr hop_ms)
    by apply SilenceProps.threshold_floor.
  rewrite Es. lra.
Qed.

(** X3: every accepted hit of a run is backed by frames of that run: its
    timestamp is that of an interior frame that is a local maximum of the
    score at or above the threshold, and its raw strength is the score of
    such a frame, so at least the threshold, at least 0.08 and at least the
    score at its own frame. *)
Theorem raw_hits_backed (y : list Q) (sr : Z) (hop_ms min_gap_ms : Q)
  (raw : list hit) :
  raw_hits y sr hop_ms min_gap_ms = Py.Ok raw ->
  Forall
    (fun h =>
       let score := score_for y sr hop_ms in
       let thr := threshold_for y sr hop_ms in
       (exists f : Z,
          (1 <= f <= frames y sr hop_ms - 2)%Z
          /\ fst h = time_of (hop_of sr hop_ms) sr f
          /\ thr <= Py.idx score f
          /\ Py.idx score (f - 1) <= Py.idx score f
          /\ Py.idx score (f + 1) <= Py.idx score f
          /\ Py.idx score f <= snd h)
       /\ (exists f' : Z,
             (1 <= f' <= frames y sr hop_ms - 2)%Z
             /\ qualifies score thr f' = true
             /\ snd h = Py.idx score f')
       /\ thr <= snd h
       /\ 8 # 100 <= snd h)
    raw.
Proof.
  intro H. destruct y as [|s y']; [injection H as <-; constructor|].
  rewrite raw_hits_run in H.
  destruct (min_gap_of min_gap_ms hop_ms) as [g|e]; [|discriminate].
  cbn [Py.bind] in H.
  destruct (scan _ _ _ g _ sr) as [st|e] eqn:S; [|discriminate].
  cbn [Py.bind] in H. injection H as <-.
  apply scan_backed in S.
  eapply Forall_impl; [|exact S]. cbv zeta.
  intros h (f & f' & A & B & Ct & Qf & Qf' & Es & Ls).
  set (m := frames (s :: y') sr hop_ms) in *.
  destruct (qualifies_threshold _ _ _ Qf) as (T & L & R).
  destruct (qualifies_threshold _ _ _ Qf') as (T' & _ & _).
  assert (Fl : 8 # 100 <= threshold_for (s :: y') sr hop_ms)
    by apply SilenceProps.threshold_floor.
  split; [exists f; repeat split; try assumption; lia|].
  split; [exists f'; repeat split; try assumption; lia|].
  rewrite Es. split; [exact T' | lra].
Qed.


(** [raw_hits_backed] on fifteen frames of a constant signal. *)
Lemma raw_hits_backed_witness :
  exists raw : list hit,
    raw_hits (repeat 1 (Z.to_nat 3300)) 22050 10 90 = Py.Ok raw
    /\ Forall (fun h => 8 # 100 <= snd h) raw.
Proof.
  destruct (raw_hits (repeat 1 (Z.to_nat 3300)) 22050 10 90)
    as [raw|e] eqn:E; [|vm_compute in E; discriminate].
  exists raw. split; [reflexivity|].
  pose proof (raw_hits_backed _ _ _ _ raw E) as H.
  eapply Forall_impl; [|exact H]. cbv zeta. intros h Hh. apply Hh.
Defined.

Lemma frames_short (n hop : Z) :
  (1 <= hop)%Z -> (n <= 2 * hop)%Z -> (frames_of n hop <= 2)%Z.
Proof.
  intros Hh Hn. unfold frames_of.
  assert ((n + hop - 1) / hop < 3)%Z; [|lia].
  apply Z.div_lt_upper_bound; lia.
Qed.

(** X4: a buffer of at most two hops has no interior frame: the detector
    returns the empty sequence, at every sample rate, zero included. *)
Theorem detect_short_buffer (y : list Q) (sr : Z) (hop_ms min_gap_ms : Q) :
  (Py.len y <= 2 * hop_of sr hop_ms)%Z -> ~ hop_ms == 0 ->
  detect_hits_peakish y sr hop_ms min_gap_ms = Py.Ok [].
Proof.
  intros Short Hhop. unfold detect_hits_peakish.
  destruct y as [|s y']; [reflexivity|].
  rewrite raw_hits_run.
  destruct (min_gap_of_returns min_gap_ms hop_ms Hhop) as [g ->].
  cbn [Py.bind]. unfold scan.
  rewrite range_nil; [reflexivity|].
  pose proof (frames_short (Py.len (s :: y')) (hop_of sr hop_ms)
                (HitProps.hop_of_pos sr hop_ms) Short).
  unfold frames. lia.
Qed.

(** [detect_short_buffer] on 440 samples at 22050 Hz: two frames. *)
Lemma detect_short_buffer_witness :
  detect_hits_peakish (repeat 1 (Z.to_nat 440)) 22050 10 90 = Py.Ok [].
Proof.
  apply detect_short_buffer; [|discriminate].
  unfold Py.len. rewrite repeat_length. vm_compute. discriminate.
Defined.


Section ZeroRate.
Variables (score : list Q) (thr : Q) (min_gap hop : Z).

Lemma scan_step_zero_rate (i : Z) (st st' : list hit * Z) :
  fst st = [] ->
  scan_step score thr min_gap hop 0 st i = Py.Ok st' ->
  fst st' = [].
Proof.
  destruct st as [hits last_i]. cbn [fst]. intros -> H.
  unfold scan_step in H.
  destruct (Py.Qltb (Py.idx score i) thr); [injection H as <-; reflexivity|].
  destruct (negb _); [injection H as <-; reflexivity|].
  destruct (i - last_i <? min_gap)%Z; [injection H as <-; reflexivity|].
  discriminate.
Qed.

End ZeroRate.

(** X6: at a sample rate of zero the detector never returns a hit: it returns
    the empty sequence or raises. *)
Theorem detect_zero_rate_no_hit (y : list Q) (hop_ms min_gap_ms : Q)
  (out : list hit) :
  detect_hits_peakish y 0 hop_ms min_gap_ms = Py.Ok out -> out = [].
Proof.
  intro H. destruct (detect_inversion _ _ _ _ _ H) as (raw & _ & -> & R).
  destruct R as [->|(g & score & thr & st & _ & S & ->)]; [reflexivity|].
  unfold scan in S.
  apply (scan_range_preserves score thr g (hop_of 0 hop_ms) 0
           (fun _ s => fst s = [])
           (fun i s s' _ => scan_step_zero_rate score thr g _ i s s')
           (Z.to_nat (frames_of (Py.len y) (hop_of 0 hop_ms) - 1 - 1))
           1 (frames_of (Py.len y) (hop_of 0 hop_ms) - 1)
           ([], (- 10 ^ 9)%Z))
    in S; [|reflexivity | lia | reflexivity].
  rewrite S. reflexivity.
Qed.

(** [detect_zero_rate_no_hit] on a short constant buffer, where nothing is
    accepted. *)
Lemma detect_zero_rate_no_hit_witness :
  detect_hits_peakish [1; 1] 0 10 90 = Py.Ok [].
Proof.
  destruct (detect_hits_peakish [1; 1] 0 10 90) as [out|e] eqn:E;
    [|vm_compute in E; discriminate].
  rewrite (detect_zero_rate_no_hit _ _ _ out E). reflexivity.
Defined.

Lemma sorted_span (g lo hi : Z) (fs : list Z) :
  (0 <= g)%Z ->
  StronglySorted (apart g) fs ->
  Forall (fun f => (lo <= f <= hi)%Z) fs ->
  fs <> [] ->
  (lo + (Py.len fs - 1) * g <= hi)%Z.
Proof.
  intros Hg Hs. revert lo.
  induction Hs as [|f fs Hs IH Hf]; intros lo Hb NE; [congruence|].
  inversion Hb as [|? ? Hlo Hrest]; subst.
  destruct fs as [|f1 fs1].
  - unfold Py.len. simpl. lia.
  - assert (B : Forall (fun x => (f + g <= x <= hi)%Z) (f1 :: fs1)).
    { apply Forall_forall. intros x Hx.
      rewrite Forall_forall in Hf, Hrest.
      pose proof (Hf x Hx) as A. unfold apart in A.
      pose proof (Hrest x Hx). lia. }
    specialize (IH (f + g)%Z B ltac:(discriminate)).
    unfold Py.len in *. cbn [List.length] in *. nia.
Qed.

(** X7: how many hits a run can return: consecutive hits are [min_gap] frames
    apart inside the interior frames [1 .. m - 2], so a non-empty result of
    [c] hits has [(c - 1) * min_gap <= m - 3], and in particular
    [c <= m - 2]. *)
Theorem detect_hit_count (y : list Q) (sr : Z) (hop_ms min_gap_ms : Q)
  (out : list hit) (g : Z) :
  detect_hits_peakish y sr hop_ms min_gap_ms = Py.Ok out ->
  min_gap_of min_gap_ms hop_ms = Py.Ok g ->
  out <> [] ->
  ((Py.len out - 1) * g <= frames y sr hop_ms - 3)%Z
  /\ (Py.len out <= frames y sr hop_ms - 2)%Z.
Proof.
  intros E G NE.
  destruct (detect_frames _ _ _ _ _ E)
    as [->|(g' & fs & G' & Ht & Hs & Hf)]; [congruence|].
  assert (g' = g) by congruence. subst g'.
  pose proof (min_gap_of_pos _ _ _ G) as Hg.
  assert (L : Py.len out = Py.len fs).
  { unfold Py.len. f_equal.
    rewrite <- (length_map fst out), Ht, length_map. reflexivity. }
  assert (NEf : fs <> []).
  { intros ->. destruct out; [congruence | discriminate]. }
  pose proof (sorted_span g 1 (frames_of (Py.len y) (hop_of sr hop_ms) - 2)
                fs ltac:(lia) Hs Hf NEf) as Sp.
  unfold frames. rewrite L.
  assert (0 <= Py.len fs - 1)%Z.
  { unfold Py.len. destruct fs; [congruence|]. cbn [List.length]. lia. }
  split; [lia | nia].
Qed.

(** [detect_hit_count] on fifteen frames of a constant signal: two hits,
    nine frames apart. *)
Lemma detect_hit_count_witness :
  exists out : list hit,
    detect_hits_peakish (repeat 1 (Z.to_nat 3300)) 22050 10 90 = Py.Ok out
    /\ ((Py.len out - 1) * 9 <= 15 - 3)%Z.
Proof.
  destruct (detect_hits_peakish (repeat 1 (Z.to_nat 3300)) 22050 10 90)
    as [out|e] eqn:E; [|vm_compute in E; discriminate].
  assert (L : List.length out = 2%nat).
  { vm_compute in E. injection E as <-. reflexivity. }
  exists out. split; [reflexivity|].
  refine (proj1 (detect_hit_count _ _ _ _ out 9 E _ _)).
  - reflexivity.
  - intros ->. discriminate L.
Defined.

End DetectorEdges.

(* ------------------------------------------------------------------ *)
(** ** Onset detector: bounded samples give bounded scores *)

Module ScoreBounds.
Import Detector DetectorRun PyFacts ScanProps.

Section Bounded.
Variable B : Q.
Hypothesis B_nonneg : 0 <= B.

Let within (x : Q) : Prop := 0 <= x <= B.

Lemma within_nth (l : list Q) (n : nat) : Forall within l -> within (nth n l 0).
Proof.
  intro H. revert n.
  induction H as [|x l Hx _ IH]; intros [|n]; simpl; auto;
    split; lra.
Qed.

Lemma within_pad (l : list Q) (i : Z) : Forall within l -> within (Np.pad l i).
Proof.
  intro H. unfold Np.pad. destruct (i <? 0)%Z; [split; lra|].
  apply within_nth, H.
Qed.

Lemma within_np_max (l : list Q) : Forall within l -> within (Np.max l).
Proof.
  intro H. destruct l as [|x r]; [split; simpl; lra|].
  unfold Np.max. rewrite Forall_forall in H.
  apply H, SilenceProps.fold_max_In.
Qed.

Lemma within_envelope (y : list Q) (hop : Z) :
  Forall (fun s => Qabs s <= B) y -> Forall within (envelope y hop).
Proof.
  intro H. unfold envelope. apply Forall_map, Forall_forall.
  intros i _. cbv zeta.
  destruct (Z.min (Py.len y) (i * hop + hop) >? i * hop)%Z;
    [|split; lra].
  apply within_np_max. unfold Np.abs. apply Forall_map.
  apply SilenceProps.Forall_slice.
  eapply Forall_impl; [|exact H]. cbv beta. intros s Hs.
  split; [apply Qabs_nonneg | exact Hs].
Qed.

Lemma within_convolve3 (a : list Q) :
  Forall within a -> Forall within (Np.convolve_same a (Np.ones_over 3)).
Proof.
  intro H. unfold Np.convolve_same. apply Forall_map, Forall_forall.
  intros i _.
  change (Py.range 0 (Py.len (Np.ones_over 3))) with [0%Z; 1%Z; 2%Z].
  change ((Py.len (Np.ones_over 3) - 1) / 2)%Z with 1%Z.
  cbn [map fold_left].
  change (Py.idx (Np.ones_over 3) 0) with (1 # 3).
  change (Py.idx (Np.ones_over 3) 1) with (1 # 3).
  change (Py.idx (Np.ones_over 3) 2) with (1 # 3).
  destruct (within_pad a (i + 1 - 0) H).
  destruct (within_pad a (i + 1 - 1) H).
  destruct (within_pad a (i + 1 - 2) H).
  split; lra.
Qed.

Lemma within_smooth (m : Z) (env : list Q) :
  Forall within env -> Forall within (smooth m env).
Proof.
  intro H. unfold smooth.
  destruct (m >=? 3)%Z; [apply within_convolve3|]; exact H.
Qed.

Lemma within_score (env_s : list Q) :
  Forall within env_s -> Forall within (score_of env_s).
Proof.
  intro H. unfold score_of.
  apply SilenceProps.Forall_map2 with (P := within) (R := within);
    [| exact H |].
  - intros e x [? ?] [? ?]. split; lra.
  - unfold Np.clip_negative. apply Forall_map.
    assert (D : Forall (fun x => x <= B)
                  (Np.diff_prepend env_s (hd 0 env_s))).
    { unfold Np.diff_prepend.
      apply SilenceProps.Forall_map2 with (P := within) (R := within);
        [| | exact H].
      - intros p c [? ?] [? ?]. lra.
      - constructor; [|exact H].
        destruct H; [split; simpl; lra | assumption]. }
    eapply Forall_impl; [|exact D]. cbv beta. intros x Hx.
    destruct (Py.Qltb x 0) eqn:E; [split; lra|].
    apply Qltb_ge in E. split; assumption.
Qed.

Lemma within_score_for (y : list Q) (sr : Z) (hop_ms : Q) :
  Forall (fun s => Qabs s <= B) y ->
  Forall within (score_for y sr hop_ms).
Proof.
  intro H. unfold score_for.
  apply within_score, within_smooth, within_envelope, H.
Qed.

End Bounded.

(** X8: samples bounded by [B] in absolute value give scores between 0 and [B],
    and every accepted hit a raw strength between 0.08 and [B]. *)
Theorem scores_within_peak (B : Q) (y : list Q) (sr : Z)
  (hop_ms min_gap_ms : Q) :
  0 <= B -> Forall (fun s => Qabs s <= B) y ->
  Forall (fun x => 0 <= x <= B) (score_for y sr hop_ms)
  /\ (forall raw : list hit,
        raw_hits y sr hop_ms min_gap_ms = Py.Ok raw ->
        Forall (fun h => 8 # 100 <= snd h <= B) raw).
Proof.
  intros HB Hy.
  pose proof (within_score_for B HB y sr hop_ms Hy) as W.
  split; [exact W|].
  intros raw R. apply DetectorEdges.raw_strength_is_score in R.
  eapply Forall_impl; [|exact R]. cbv beta.
  intros h ((f' & E) & Fl).
  split; [exact Fl|]. rewrite E.
  apply (within_nth B HB), W.
Qed.

(** [scores_within_peak] for a constant full-scale signal. *)
Lemma scores_within_peak_witness :
  Forall (fun x => 0 <= x <= 1) (score_for (repeat 1 (Z.to_nat 3300)) 22050 10).
Proof.
  apply (scores_within_peak 1 (repeat 1 (Z.to_nat 3300)) 22050 10 90);
    [discriminate|].
  apply Forall_forall. intros s Hs. apply repeat_spec in Hs. subst s.
  discriminate.
Defined.

(** X9: a buffer whose peak stays below 0.08 yields no hit: the detector
    returns the empty sequence whenever the hop is not zero. *)
Theorem detect_quiet_buffer (B : Q) (y : list Q) (sr : Z)
  (hop_ms min_gap_ms : Q) :
  0 <= B -> B < 8 # 100 -> Forall (fun s => Qabs s <= B) y ->
  ~ hop_ms == 0 ->
  detect_hits_peakish y sr hop_ms min_gap_ms = Py.Ok [].
Proof.
  intros HB Quiet Hy Hhop. unfold detect_hits_peakish.
  destruct y as [|s y']; [reflexivity|].
  rewrite DetectorEdges.raw_hits_run.
  destruct (min_gap_of_returns min_gap_ms hop_ms Hhop) as [g ->].
  cbn [Py.bind]. unfold scan.
  rewrite SilenceProps.scan_all_below; [reflexivity|].
  intro i.
  pose proof (within_score_for B HB (s :: y') sr hop_ms Hy) as W.
  destruct (within_nth B HB _ (Z.to_nat i) W) as [_ U].
  apply Qle_lt_trans with B; [exact U|].
  apply Qlt_le_trans with (8 # 100); [exact Quiet|].
  apply SilenceProps.threshold_floor.
Qed.

(** [detect_quiet_buffer] on a faint constant signal of amplitude 0.05. *)
Lemma detect_quiet_buffer_witness :
  detect_hits_peakish (repeat (5 # 100) (Z.to_nat 3300)) 22050 10 90
  = Py.Ok [].
Proof.
  apply (detect_quiet_buffer (5 # 100)); try discriminate.
  - reflexivity.
  - apply Forall_forall. intros s Hs. apply repeat_spec in Hs. subst s.
    discriminate.
Defined.

End ScoreBounds.

(* ------------------------------------------------------------------ *)
(** ** Timeline: the grid lines of a redraw *)

Module GridLineProps.
Import Timeline TimelineDraw PyFacts.

Section Loop.
Variables (t0 beat_s end_ : Q) (beats_per_bar : Z).
Hypothesis beat_nonneg : 0 <= beat_s.

(** The computed beat times never go back. *)
Lemma beat_time_le (j k : Z) :
  (j <= k)%Z -> beat_time t0 beat_s j <= beat_time t0 beat_s k.
Proof.
  intro H. unfold beat_time, F64.add, F64.mul, F64.of_int.
  rewrite Zle_Qle in H.
  apply F64Facts.rnd_le in H.
  apply (Qmult_le_compat_r _ _ beat_s) in H; [|exact beat_nonneg].
  apply F64Facts.rnd_le in H.
  apply F64Facts.rnd_le. lra.
Qed.

(** Once a beat is known to lie after the end, the loop from an earlier
    beat [k] stops: it adds one line per beat from [k] to the last beat
    [k1] whose computed time is not after the end. *)
Lemma grid_loop_run (n : nat) :
  forall (fuel : nat) (k : Z) (items : list GridLine),
    beats_per_bar <> 0%Z ->
    end_ < beat_time t0 beat_s (k + Z.of_nat n) -> (n < fuel)%nat ->
    exists k1 : Z,
      (k - 1 <= k1)%Z
      /\ grid_loop fuel t0 beat_s end_ beats_per_bar k items
         = Some (Py.Ok (items ++ map (line_at t0 beat_s beats_per_bar)
                                     (Py.range k (k1 + 1))))
      /\ (forall j : Z,
            (k <= j)%Z -> ((j <= k1)%Z <-> beat_time t0 beat_s j <= end_)).
Proof.
  assert (Stop : forall (fuel : nat) (k : Z) (items : list GridLine),
            Py.Qltb end_ (beat_time t0 beat_s k) = true ->
            exists k1 : Z,
              (k - 1 <= k1)%Z
              /\ grid_loop (S fuel) t0 beat_s end_ beats_per_bar k items
                 = Some (Py.Ok (items ++ map (line_at t0 beat_s beats_per_bar)
                                             (Py.range k (k1 + 1))))
              /\ (forall j : Z,
                    (k <= j)%Z ->
                    ((j <= k1)%Z <-> beat_time t0 beat_s j <= end_))).
  { intros fuel k items T. exists (k - 1)%Z. split; [lia|]. split.
    - cbn [grid_loop]. rewrite T, ScanProps.range_nil by lia.
      cbn [map]. rewrite app_nil_r. reflexivity.
    - intros j Hj. apply Qltb_lt in T.
      pose proof (beat_time_le k j Hj). split; [lia | lra]. }
  induction n as [|n IH]; intros fuel k items Hb Hn Hf;
    (destruct fuel as [|fuel]; [lia|]).
  - apply Stop. apply Qltb_lt.
    replace (k + Z.of_nat 0)%Z with k in Hn by lia. exact Hn.
  - destruct (Py.Qltb end_ (beat_time t0 beat_s k)) eqn:T;
      [apply Stop, T|].
    apply Qltb_ge in T.
    destruct (IH fuel (k + 1)%Z
                (items ++ [line_at t0 beat_s beats_per_bar k]) Hb)
      as (k1 & K1 & Run & Last); [|lia|].
    { replace (k + 1 + Z.of_nat n)%Z with (k + Z.of_nat (S n))%Z by lia.
      exact Hn. }
    exists k1. split; [lia|]. split.
    + cbn [grid_loop].
      assert (T' : Py.Qltb end_ (beat_time t0 beat_s k) = false)
        by (apply Qltb_ge, T).
      rewrite T'. unfold py_mod.
      destruct (beats_per_bar =? 0)%Z eqn:Z0;
        [apply Z.eqb_eq in Z0; contradiction|].
      fold (line_at t0 beat_s beats_per_bar k). rewrite Run.
      rewrite (ScanProps.range_cons k) by lia.
      cbn [map]. rewrite <- app_assoc. reflexivity.
    + intros j Hj. destruct (Z.eq_dec j k) as [->|Ne].
      * split; [intros _; exact T | intros _; lia].
      * rewrite <- Last by lia. reflexivity.
Qed.

(** Whatever the fuel, the labels of a finished loop run from 1 to the
    number of beats in a bar, and the strong pen goes with label 1. *)
Lemma grid_loop_labels (fuel : nat) :
  forall (k : Z) (items lines : list GridLine),
    (0 < beats_per_bar)%Z ->
    Forall (fun l => (1 <= beat_num l <= beats_per_bar)%Z
                     /\ (is_bar_head l = true <-> beat_num l = 1%Z)) items ->
    grid_loop fuel t0 beat_s end_ beats_per_bar k items
    = Some (Py.Ok lines) ->
    Forall (fun l => (1 <= beat_num l <= beats_per_bar)%Z
                     /\ (is_bar_head l = true <-> beat_num l = 1%Z)) lines.
Proof using Type.
  induction fuel as [|fuel IH]; intros k items lines Hb Hi H;
    cbn [grid_loop] in H; [discriminate|].
  destruct (Py.Qltb end_ (beat_time t0 beat_s k));
    [injection H as <-; exact Hi|].
  unfold py_mod in H. destruct (beats_per_bar =? 0)%Z; [discriminate|].
  apply (IH _ _ _ Hb) in H; [exact H|].
  apply Forall_app. split; [exact Hi|].
  constructor; [|constructor]. cbn [beat_num is_bar_head].
  pose proof (Z.mod_pos_bound k beats_per_bar Hb).
  split; [lia|]. rewrite Z.eqb_eq. lia.
Qed.

(** With a beat of at least an eighth of a second, some beat lies after the
    end. *)
Lemma beat_time_grows :
  1 # 8 <= beat_s -> exists K : Z, end_ < beat_time t0 beat_s K.
Proof using Type.
  clear beat_nonneg. intro B.
  set (M := Z.max 1 (Z.max (Qfloor (2 * end_ - t0) + 1)
                           (Qfloor (1 - t0) + 1))).
  assert (M1 : 1 <= inject_Z M).
  { change 1 with (inject_Z 1). rewrite <- Zle_Qle. unfold M. lia. }
  assert (M2 : 2 * end_ - t0 < inject_Z M).
  { apply Qlt_le_trans with (inject_Z (Qfloor (2 * end_ - t0) + 1));
      [apply Qlt_floor | rewrite <- Zle_Qle; unfold M; lia]. }
  assert (M3 : 1 - t0 < inject_Z M).
  { apply Qlt_le_trans with (inject_Z (Qfloor (1 - t0) + 1));
      [apply Qlt_floor | rewrite <- Zle_Qle; unfold M; lia]. }
  exists (32 * M)%Z.
  unfold beat_time, F64.add, F64.mul, F64.of_int.
  assert (K : inject_Z (32 * M) == 32 * inject_Z M)
    by (rewrite inject_Z_mult; reflexivity).
  pose proof (F64Facts.rnd_ge_half (inject_Z (32 * M)) ltac:(lra)) as R1.
  set (a := F64.rnd (inject_Z (32 * M))) in *.
  assert (R2 : 2 * inject_Z M <= a * beat_s).
  { apply Qle_trans with (a * (1 # 8)); [lra|].
    apply Qmult_le_l; [lra | exact B]. }
  pose proof (F64Facts.rnd_ge_half (a * beat_s) ltac:(lra)) as R3.
  set (y := F64.rnd (a * beat_s)) in *.
  pose proof (F64Facts.rnd_ge_half (t0 + y) ltac:(lra)) as R4.
  lra.
Qed.

End Loop.

(** In a state the setters allow, the beat length of the redraw is a
    double of at least an eighth of a second, and the window exists. *)
Lemma redraw_setup (w : TimelineWidget) :
  valid w ->
  F64.truediv 60 (_bpm w) = Py.Ok (F64.div 60 (_bpm w))
  /\ 1 # 8 <= F64.div 60 (_bpm w)
  /\ Qle_bool (F64.div 60 (_bpm w)) 0 = false
  /\ exists start end_ : Q, _current_window_f64 w = Py.Ok (start, end_).
Proof.
  intros [[Lo Hi] _].
  assert (Z0 : Qeq_bool (_bpm w) 0 = false).
  { destruct (Qeq_bool (_bpm w) 0) eqn:E; [|reflexivity].
    apply Qeq_bool_iff in E. lra. }
  assert (T : F64.truediv 60 (_bpm w) = Py.Ok (F64.div 60 (_bpm w))).
  { unfold F64.truediv. rewrite Z0. reflexivity. }
  assert (B : 1 # 8 <= F64.div 60 (_bpm w)).
  { unfold F64.div.
    apply Qle_trans with (F64.rnd (1 # 5)); [vm_compute; discriminate|].
    apply F64Facts.rnd_le. apply Qle_shift_div_l; lra. }
  split; [exact T|]. split; [exact B|]. split.
  - destruct (Qle_bool (F64.div 60 (_bpm w)) 0) eqn:E; [|reflexivity].
    apply Qle_bool_iff in E. lra.
  - unfold _current_window_f64, _bars_window_seconds_f64.
    rewrite T. cbn [Py.bind].
    destruct (Py.Qltb 0 (_duration_s w)); eexists; eexists; reflexivity.
Qed.

(** X10: in every state the setters allow, with a non-zero number of beats
    per bar, the loop of a redraw stops: with enough fuel it puts one line
    per beat on the plot, from the first beat [k0] that lines 143-145 pick
    to the last beat [k1] whose computed time is not after the end of the
    window, in that order, each at its time computed in doubles and
    labelled as the loop labels it, and sets the x range to the window.
    The computed beat times never go back, so no later beat would fit; and
    either the first line is not before the start, or the beat before it
    is. *)
Theorem redraw_grid_lines (w : TimelineWidget) :
  valid w -> fst (_time_sig w) <> 0%Z ->
  exists (fuel : nat) (start end_ : Q) (k0 k1 : Z),
    _current_window_f64 w = Py.Ok (start, end_)
    /\ k0 = first_beat (_t0_downbeat w) (F64.div 60 (_bpm w)) start
    /\ (k0 - 1 <= k1)%Z
    /\ (forall fuel' : nat, (fuel <= fuel')%nat ->
          _redraw_grid fuel' w
          = Some (Py.Ok (map (line_at (_t0_downbeat w) (F64.div 60 (_bpm w))
                                (fst (_time_sig w)))
                             (Py.range k0 (k1 + 1)),
                         Some (start, end_))))
    /\ (forall k : Z,
          (k0 <= k)%Z ->
          ((k <= k1)%Z
           <-> beat_time (_t0_downbeat w) (F64.div 60 (_bpm w)) k <= end_))
    /\ (forall j k : Z,
          (j <= k)%Z ->
          beat_time (_t0_downbeat w) (F64.div 60 (_bpm w)) j
          <= beat_time (_t0_downbeat w) (F64.div 60 (_bpm w)) k)
    /\ (start <= beat_time (_t0_downbeat w) (F64.div 60 (_bpm w)) k0
        \/ beat_time (_t0_downbeat w) (F64.div 60 (_bpm w)) (k0 - 1)
           < start).
Proof.
  intros V Hb.
  destruct (redraw_setup w V) as (T & B & NP & start & end_ & CW).
  set (bs := F64.div 60 (_bpm w)) in *.
  assert (P : 0 <= bs) by lra.
  set (k0 := first_beat (_t0_downbeat w) bs start).
  destruct (beat_time_grows (_t0_downbeat w) bs end_ B) as [K HK].
  set (n := Z.to_nat (Z.max K k0 - k0)).
  assert (Far : end_ < beat_time (_t0_downbeat w) bs (k0 + Z.of_nat n)).
  { apply Qlt_le_trans with (beat_time (_t0_downbeat w) bs K); [exact HK|].
    apply beat_time_le; [exact P | unfold n; lia]. }
  destruct (grid_loop_run (_t0_downbeat w) bs end_ (fst (_time_sig w)) P n
              (S n) k0 [] Hb Far (Nat.lt_succ_diag_r n))
    as (k1 & K1 & _ & Last).
  exists (S n), start, end_, k0, k1.
  split; [exact CW|]. split; [reflexivity|]. split; [exact K1|].
  split; [|split; [exact Last|split]].
  - intros fuel' Hf. unfold _redraw_grid.
    rewrite CW, T, NP. fold bs k0.
    destruct (grid_loop_run (_t0_downbeat w) bs end_ (fst (_time_sig w)) P n
                fuel' k0 [] Hb Far ltac:(lia))
      as (k1' & K1' & Run & Last').
    assert (E : k1' = k1).
    { destruct (Z_lt_le_dec k1 k1') as [L|L].
      - assert (A : (k1' <= k1)%Z)
          by (apply Last; [lia | apply Last'; lia]).
        lia.
      - destruct (Z_lt_le_dec k1' k1) as [L'|L']; [|lia].
        assert (A : (k1 <= k1')%Z)
          by (apply Last'; [lia | apply Last; lia]).
        lia. }
    rewrite Run, E. reflexivity.
  - intros j k Hjk. apply beat_time_le; assumption.
  - unfold k0, first_beat.
    set (a := Py.int (np_floor
                        (F64.div (F64.sub start (_t0_downbeat w)) bs))).
    destruct (Py.Qltb (beat_time (_t0_downbeat w) bs a) start) eqn:E.
    + right. apply Qltb_lt in E.
      replace (a + 1 - 1)%Z with a by lia. exact E.
    + left. apply Qltb_ge in E. exact E.
Qed.

(** [redraw_grid_lines] at 100 BPM with the playhead at three seconds: the
    beat computed for the start of the window, [3 * 0.6], is just below
    1.8, so the first line is that of beat 4, and eight lines are drawn. *)
Lemma redraw_grid_lines_witness :
  exists (fuel : nat) (r : option (Q * Q)),
    _redraw_grid fuel (update_transport (set_bpm init 100) 3)
    = Some (Py.Ok (map (line_at 0 (F64.div 60 100) 4) (Py.range 4 12), r)).
Proof.
  destruct (redraw_grid_lines (update_transport (set_bpm init 100) 3))
    as (fuel & start & end_ & k0 & k1 & CW & K0 & K1 & H & Last & _).
  - split; [split; vm_compute; discriminate | reflexivity].
  - discriminate.
  - exists fuel, (Some (start, end_)).
    rewrite (H fuel (Nat.le_refl fuel)).
    assert (W : _current_window_f64 (update_transport (set_bpm init 100) 3)
                = Py.Ok (F64.rnd (9 # 5), F64.rnd (33 # 5)))
      by (vm_compute; reflexivity).
    rewrite W in CW. injection CW as <- <-.
    assert (E0 : first_beat
                   (_t0_downbeat (update_transport (set_bpm init 100) 3))
                   (F64.div 60 (_bpm (update_transport (set_bpm init 100) 3)))
                   (F64.rnd (9 # 5)) = 4%Z)
      by (vm_compute; reflexivity).
    rewrite E0 in K0. subst k0.
    assert (E1 : k1 = 11%Z).
    { assert (A : (11 <= k1)%Z)
        by (apply Last; [lia | vm_compute; discriminate]).
      destruct (Z_lt_le_dec 11 k1) as [L|L]; [|lia].
      assert (C : (12 <= k1)%Z) by lia.
      apply Last in C; [|lia].
      exfalso. revert C. vm_compute. intro C. apply C. reflexivity. }
    rewrite E1. vm_compute. reflexivity.
Defined.

(** X11: whatever the fuel and the state, the labels a finished redraw puts
    under the lines run from 1 to the number of beats per bar, and a line is
    drawn strong exactly when its label is 1. *)
Theorem redraw_grid_labels (fuel : nat) (w : TimelineWidget)
  (lines : list GridLine) (r : option (Q * Q)) :
  (0 < fst (_time_sig w))%Z ->
  _redraw_grid fuel w = Some (Py.Ok (lines, r)) ->
  Forall (fun l => (1 <= beat_num l <= fst (_time_sig w))%Z
                   /\ (is_bar_head l = true <-> beat_num l = 1%Z)) lines.
Proof.
  intros Hb H. unfold _redraw_grid in H.
  destruct (_current_window_f64 w) as [[start end_]|e]; [|discriminate].
  destruct (F64.truediv 60 (_bpm w)) as [beat_s|e]; [|discriminate].
  destruct (Qle_bool beat_s 0); [injection H as <- _; constructor|].
  destruct (grid_loop fuel (_t0_downbeat w) beat_s end_ (fst (_time_sig w))
              (first_beat (_t0_downbeat w) beat_s start) [])
    as [[items|e]|] eqn:L; try discriminate.
  injection H as <- _.
  apply (grid_loop_labels _ _ _ _ _ _ _ _ Hb (Forall_nil _) L).
Qed.

(** [redraw_grid_labels] at 100 BPM with the playhead at five seconds. *)
Lemma redraw_grid_labels_witness :
  exists lines : list GridLine,
    lines <> []
    /\ Forall (fun l => (1 <= beat_num l <= 4)%Z) lines.
Proof.
  assert (E : exists lines r,
            _redraw_grid 20 (update_transport (set_bpm init 100) 5)
            = Some (Py.Ok (lines, r)) /\ lines <> []).
  { vm_compute. eexists. eexists. split; [reflexivity | discriminate]. }
  destruct E as (lines & r & E & N).
  exists lines. split; [exact N|].
  pose proof (redraw_grid_labels 20
                (update_transport (set_bpm init 100) 5) lines r
                eq_refl E) as H.
  eapply Forall_impl; [|exact H]. cbv beta. intros l Hl. apply Hl.
Defined.

End GridLineProps.

(* ------------------------------------------------------------------ *)
(** ** Timeline: the playhead, the width of the window, the hit bars *)

Module ViewProps.
Import Timeline TimelineDraw PyFacts TimelineProps.

Lemma window_width_pos (w : TimelineWidget) :
  valid w -> (0 < fst (_time_sig w))%Z ->
  0 < window_width (_bpm w) (fst (_time_sig w)).
Proof.
  intros [[Lo Hi] _] Hb. unfold window_width.
  rewrite clamp_in_range by lra.
  assert (P : 0 < 60 / _bpm w) by (apply Qlt_shift_div_l; lra).
  assert (B : 1 <= inject_Z (fst (_time_sig w))).
  { change 1 with (inject_Z 1). rewrite <- Zle_Qle. lia. }
  nra.
Qed.

(** X12: the playhead is always inside the window: in a state the setters allow,
    with a positive number of beats per bar, a transport time that is not
    negative and, when the duration is known, not past it. *)
Theorem window_holds_playhead (w : TimelineWidget) :
  valid w -> (0 < fst (_time_sig w))%Z ->
  0 <= _current_t w ->
  (0 < _duration_s w -> _current_t w <= _duration_s w) ->
  exists start end_ : Q,
    _current_window w = Py.Ok (start, end_)
    /\ 0 <= start
    /\ start <= _current_t w
    /\ _current_t w <= end_.
Proof.
  intros V Hb Ht Hd.
  pose proof (window_width_pos w V Hb) as P.
  destruct (bars_window_seconds_width w V) as (W & EW & HW).
  unfold _current_window. rewrite EW. cbn [Py.bind].
  rewrite <- HW in P. clear HW EW.
  destruct (Py.Qltb 0 (_duration_s w)) eqn:D.
  - apply Qltb_lt in D. specialize (Hd D).
    eexists; eexists. split; [reflexivity|].
    repeat split; split_minmax; lra.
  - eexists; eexists. split; [reflexivity|].
    repeat split; split_minmax; lra.
Qed.

(** [window_holds_playhead] nine seconds into a ten second track. *)
Lemma window_holds_playhead_witness :
  exists start end_ : Q,
    _current_window (update_transport (set_duration (set_bpm init 100) 10) 9)
    = Py.Ok (start, end_)
    /\ start <= 9 /\ 9 <= end_.
Proof.
  destruct (window_holds_playhead
              (update_transport (set_duration (set_bpm init 100) 10) 9))
    as (s & e & E & _ & A & B).
  - split; [split; vm_compute; discriminate | reflexivity].
  - reflexivity.
  - vm_compute; discriminate.
  - intros _. vm_compute; discriminate.
  - exists s, e. auto.
Defined.

(** X13: the window is never wider than two bars; it is exactly two bars wide
    when the duration is unknown or at least that long, and it is the whole
    track, from zero to the duration, when the track is shorter. *)
Theorem window_width_cases (w : TimelineWidget) :
  valid w -> (0 < fst (_time_sig w))%Z ->
  0 <= _current_t w ->
  exists start end_ : Q,
    _current_window w = Py.Ok (start, end_)
    /\ end_ - start <= window_width (_bpm w) (fst (_time_sig w))
    /\ ((_duration_s w <= 0
         \/ window_width (_bpm w) (fst (_time_sig w)) <= _duration_s w) ->
        end_ - start == window_width (_bpm w) (fst (_time_sig w)))
    /\ (0 < _duration_s w ->
        _duration_s w < window_width (_bpm w) (fst (_time_sig w)) ->
        start == 0 /\ end_ == _duration_s w).
Proof.
  intros V Hb Ht.
  pose proof (window_width_pos w V Hb) as P.
  destruct (bars_window_seconds_width w V) as (W & EW & HW).
  unfold _current_window. rewrite EW. cbn [Py.bind].
  clear EW.
  generalize dependent (window_width (_bpm w) (fst (_time_sig w))).
  intros Wr P HW.
  destruct (Py.Qltb 0 (_duration_s w)) eqn:D.
  - apply Qltb_lt in D.
    eexists; eexists. split; [reflexivity|].
    split; [|split].
    + split_minmax; lra.
    + intros [C|C]; split_minmax; lra.
    + intros _ C. split; split_minmax; lra.
  - apply Qltb_ge in D.
    eexists; eexists. split; [reflexivity|].
    split; [|split].
    + split_minmax; lra.
    + intros _. split_minmax; lra.
    + intros C. lra.
Qed.

(** [window_width_cases] on a one second track at 120 BPM: the window is
    the whole track. *)
Lemma window_width_cases_witness :
  exists start end_ : Q,
    _current_window (set_duration init 1) = Py.Ok (start, end_)
    /\ start == 0 /\ end_ == 1.
Proof.
  destruct (window_width_cases (set_duration init 1))
    as (s & e & E & _ & _ & H).
  - split; [split; vm_compute; discriminate | reflexivity].
  - reflexivity.
  - vm_compute; discriminate.
  - exists s, e. split; [exact E|]. apply H; reflexivity.
Defined.

(** X14: the setters keep the widget well formed: from [__init__] on, the stored
    BPM stays within 30 and 300, the downbeat, the transport time and the
    duration are never negative, and the view stays at two bars of 4/4,
    whatever values the setters are given. *)
Theorem setters_keep_widget_well_formed (w : TimelineWidget) :
  reachable w ->
  30 <= _bpm w <= 300
  /\ 0 <= _t0_downbeat w
  /\ 0 <= _current_t w
  /\ 0 <= _duration_s w
  /\ _window_bars w = 2%Z
  /\ _time_sig w = (4, 4)%Z.
Proof.
  assert (N : forall x : Q, 0 <= Py.max 0 x).
  { intro x. destruct (py_max_cases 0 x) as [[L ->]|[L ->]]; lra. }
  induction 1 as [|w b _ IH|w t0 _ IH|w d _ IH|w h _ IH|w t _ IH];
    try exact IH; cbn.
  - repeat split; discriminate.
  - destruct IH as (_ & IH). split; [apply clamped_bpm_bounds | exact IH].
  - destruct IH as (B & _ & IH). split; [exact B|]. split; [apply N | exact IH].
  - destruct IH as (B & T0 & T & _ & IH).
    repeat split; try apply B; try assumption; try apply IH. apply N.
  - destruct IH as (B & T0 & _ & IH).
    repeat split; try apply B; try assumption; try apply IH. apply N.
Qed.

(** [setters_keep_widget_well_formed] after a negative transport time and a
    BPM of 1000. *)
Lemma setters_keep_widget_well_formed_witness :
  30 <= _bpm (set_bpm (update_transport init (- (3))) 1000) <= 300
  /\ 0 <= _current_t (set_bpm (update_transport init (- (3))) 1000).
Proof.
  destruct (setters_keep_widget_well_formed
              (set_bpm (update_transport init (- (3))) 1000))
    as (B & _ & T & _).
  - apply reach_bpm, reach_transport, Timeline.reach_init.
  - split; assumption.
Defined.





End ViewProps.

(* ------------------------------------------------------------------ *)
(** ** Main window: when the beat monitor flashes *)

Module FlashProps.
Import Grid App PyFacts.

Lemma position_seconds_le (a b : Z) :
  (a <= b)%Z -> position_seconds a <= position_seconds b.
Proof.
  intro H. unfold position_seconds, F64.div, F64.of_int.
  apply F64Facts.rnd_le, HitProps.Qdiv_le_mono; [reflexivity|].
  apply F64Facts.rnd_le. rewrite <- Zle_Qle. exact H.
Qed.

Lemma position_seconds_nonneg (ms : Z) :
  (0 <= ms)%Z -> 0 <= position_seconds ms.
Proof.
  intro H. apply Qle_trans with (position_seconds 0);
    [vm_compute; discriminate | apply position_seconds_le, H].
Qed.

(** A tick of a loaded player at or after the downbeat leaves the index of
    its own time as the last seen index, and the grid as it was. *)
Lemma on_tick_records (s : MainWindow) (ms : Z) (k : Z) :
  player_loaded s = true ->
  beat_index_at (grid s) (position_seconds ms) = Some k ->
  _last_beat_index (fst (on_tick s ms)) = Some k
  /\ grid (fst (on_tick s ms)) = grid s
  /\ player_loaded (fst (on_tick s ms)) = true.
Proof.
  intros L E. unfold on_tick. rewrite L, E. cbn [negb].
  destruct (_last_beat_index s) as [last|]; [|auto].
  destruct (k =? last)%Z eqn:K; cbn [fst]; [|auto].
  apply Z.eqb_eq in K. subst last. auto.
Qed.

(** X16: between two ticks of a loaded player at or after the downbeat, with
    fewer than [2^48] beats elapsed, the second tick flashes exactly when a
    whole number of beats lies after the elapsed time of the first tick and
    at or before that of the second, elapsed times and beat length being
    the doubles the code computes.  At 150 BPM the tick at 2000 ms does not
    flash after the one at 1990 ms: five beats of the double of 0.4 end
    after 2.0. *)
Theorem flash_iff_beat_boundary (s : MainWindow) (ms1 ms2 : Z) :
  player_loaded s = true ->
  downbeat_t0 (grid s) <= position_seconds ms1 ->
  (ms1 <= ms2)%Z ->
  elapsed (grid s) (position_seconds ms2) / beat_seconds_f64 (grid s)
  < F64.pow2 48 ->
  snd (on_tick (fst (on_tick s ms1)) ms2) = true
  <-> exists k : Z,
        elapsed (grid s) (position_seconds ms1)
        < inject_Z k * beat_seconds_f64 (grid s)
        /\ inject_Z k * beat_seconds_f64 (grid s)
           <= elapsed (grid s) (position_seconds ms2).
Proof.
  intros L A1 Hms Far.
  pose proof (position_seconds_le _ _ Hms) as T12.
  pose proof (GridProps.beat_seconds_f64_pos (grid s)) as P.
  set (t1 := position_seconds ms1) in *.
  set (t2 := position_seconds ms2) in *.
  pose proof (F64Facts.rnd_le _ _ A1) as R1.
  pose proof (F64Facts.rnd_le _ _ T12) as R2.
  pose proof (GridIntervals.elapsed_le (grid s) t1 t2 T12) as D12.
  assert (Far1 : elapsed (grid s) t1 / beat_seconds_f64 (grid s)
                 < F64.pow2 48).
  { apply Qle_lt_trans
      with (elapsed (grid s) t2 / beat_seconds_f64 (grid s));
      [apply HitProps.Qdiv_le_mono; assumption | exact Far]. }
  destruct (beat_index_at (grid s) t1) as [k1|] eqn:E1;
    [|rewrite GridProps.beat_index_at_after in E1 by exact R1;
      discriminate].
  destruct (beat_index_at (grid s) t2) as [k2|] eqn:E2;
    [|rewrite GridProps.beat_index_at_after in E2 by lra;
      discriminate].
  destruct (on_tick_records s ms1 k1 L E1) as (Rc & G1 & L1).
  unfold on_tick at 1. rewrite L1, G1, Rc. cbn [negb].
  fold t2. rewrite E2.
  apply GridIntervals.beat_index_bounds in E1 as (_ & Lo1 & Hi1);
    [|exact Far1].
  apply GridIntervals.beat_index_bounds in E2 as (_ & Lo2 & Hi2);
    [|exact Far].
  assert (Mono : forall u v : Z, (u <= v)%Z ->
                   inject_Z u * beat_seconds_f64 (grid s)
                   <= inject_Z v * beat_seconds_f64 (grid s)).
  { intros u v Huv. apply Qmult_le_compat_r; [|lra].
    rewrite <- Zle_Qle. exact Huv. }
  assert (K12 : (k1 <= k2)%Z).
  { destruct (Z_lt_le_dec k2 k1) as [Lt|Ge]; [|exact Ge].
    assert (Hk : (k2 + 1 <= k1)%Z) by lia.
    pose proof (Mono _ _ Hk) as M. rewrite inject_Z_plus in M.
    change (inject_Z 1) with 1 in M. lra. }
  destruct (k2 =? k1)%Z eqn:K; cbn [snd].
  - apply Z.eqb_eq in K. subst k2. split; [discriminate|].
    intros (k & B1 & B2). exfalso.
    destruct (Z_lt_le_dec k1 k) as [Lt|Ge].
    + assert (Hk : (k1 + 1 <= k)%Z) by lia.
      pose proof (Mono _ _ Hk) as M. rewrite inject_Z_plus in M.
      change (inject_Z 1) with 1 in M. lra.
    + pose proof (Mono _ _ Ge). lra.
  - apply Z.eqb_neq in K. split; [intros _|reflexivity].
    exists k2. split; [|exact Lo2].
    assert (Hk : (k1 + 1 <= k2)%Z) by lia.
    pose proof (Mono _ _ Hk) as M. rewrite inject_Z_plus in M.
    change (inject_Z 1) with 1 in M. lra.
Qed.

(** [flash_iff_beat_boundary] at 150 BPM: no flash from 1990 ms to 2000 ms,
    where no multiple of the beat length is crossed; the flash of beat 5
    comes with the tick at 2010 ms. *)
Lemma flash_iff_beat_boundary_witness :
  let s := on_bpm_changed
             (load_audio init "a.wav" (Py.Ok tt) 3000 (Py.Ok ([], 22050%Z)))
             150 in
  snd (on_tick (fst (on_tick s 1990)) 2000) = false
  /\ snd (on_tick (fst (on_tick s 2000)) 2010) = true
  /\ ~ exists k : Z,
        elapsed (grid s) (position_seconds 1990)
        < inject_Z k * beat_seconds_f64 (grid s)
        /\ inject_Z k * beat_seconds_f64 (grid s)
           <= elapsed (grid s) (position_seconds 2000).
Proof.
  intro s.
  assert (F : snd (on_tick (fst (on_tick s 1990)) 2000) = false)
    by (vm_compute; reflexivity).
  split; [exact F|]. split; [vm_compute; reflexivity|]. intro B.
  apply (flash_iff_beat_boundary s 1990 2000) in B;
    [congruence | reflexivity | vm_compute; discriminate | lia
     | vm_compute; reflexivity].
Defined.

(** X17: the first tick after a change of the grid never flashes: after a BPM
    change, after setting the downbeat, and after a load that got past the
    player; and no tick flashes while nothing is loaded. *)
Theorem first_tick_after_change_silent (s : MainWindow) (ms : Z) :
  (forall b : Q, snd (on_tick (on_bpm_changed s b) ms) = false)
  /\ (forall ms' : Z, snd (on_tick (set_downbeat_here s ms') ms) = false)
  /\ (forall path dur an,
        snd (on_tick (load_audio s path (Py.Ok tt) dur an) ms) = false)
  /\ (player_loaded s = false -> on_tick s ms = (s, false)).
Proof.
  assert (Quiet : forall s' : MainWindow,
            _last_beat_index s' = None -> snd (on_tick s' ms) = false).
  { intros s' N. unfold on_tick. rewrite N.
    destruct (negb (player_loaded s')); [reflexivity|].
    destruct (beat_index_at _ _); reflexivity. }
  assert (Idle : forall s' : MainWindow,
            player_loaded s' = false -> on_tick s' ms = (s', false)).
  { intros s' N. unfold on_tick. rewrite N. reflexivity. }
  split; [intro b; apply Quiet; reflexivity|].
  split; [|split; [|apply Idle]].
  - intro ms'. unfold set_downbeat_here.
    destruct (player_loaded s) eqn:L; cbn [negb].
    + apply Quiet. reflexivity.
    + rewrite Idle by exact L. reflexivity.
  - intros path dur an. apply Quiet. unfold load_audio.
    destruct an as [[y sr]|e]; [|reflexivity].
    destruct (Detector.detect_hits_peakish y sr 10 90); reflexivity.
Qed.

(** X18: in every state the handlers can reach, the grid and the timeline agree:
    the same beat length, the same downbeat, the same number of beats per
    bar, and a timeline in a state its own setters allow; so the beat index
    and the grid lines are computed from the same beats. *)
Theorem grid_and_timeline_agree (s : MainWindow) :
  reachable s ->
  beat_seconds (grid s) == 60 / Timeline._bpm (timeline s)
  /\ downbeat_t0 (grid s) == Timeline._t0_downbeat (timeline s)
  /\ beats_per_bar (grid s) = fst (Timeline._time_sig (timeline s))
  /\ beats_per_bar (grid s) = 4%Z
  /\ Timeline.valid (timeline s).
Proof.
  induction 1 as [|s b _ IH|s ms _ IH Hms|s ms _ IH Hms|s _ IH
                  |s path pl ms an _ IH Hms].
  - repeat split; vm_compute; congruence.
  - destruct IH as (_ & T0 & B & B4 & [_ V]).
    cbn. repeat split; try assumption; try reflexivity;
      apply clamped_bpm_bounds.
  - unfold set_downbeat_here.
    destruct (negb (player_loaded s)); [exact IH|].
    destruct IH as (Bs & _ & B & B4 & V). cbn.
    repeat split; try assumption; try apply V.
    pose proof (position_seconds_nonneg ms Hms) as N.
    destruct (py_max_cases 0 (position_seconds ms)) as [[L ->]|[L ->]];
      lra.
  - assert (G : grid (fst (on_tick s ms)) = grid s
                /\ Timeline._bpm (timeline (fst (on_tick s ms)))
                   = Timeline._bpm (timeline s)
                /\ Timeline._t0_downbeat (timeline (fst (on_tick s ms)))
                   = Timeline._t0_downbeat (timeline s)
                /\ Timeline._time_sig (timeline (fst (on_tick s ms)))
                   = Timeline._time_sig (timeline s)
                /\ Timeline._window_bars (timeline (fst (on_tick s ms)))
                   = Timeline._window_bars (timeline s)).
    { unfold on_tick. destruct (negb (player_loaded s)); [auto|].
      destruct (beat_index_at _ _) as [bi|]; [|cbn; auto].
      destruct (_last_beat_index s) as [last|]; [|cbn; auto].
      destruct (bi =? last)%Z; cbn; auto. }
    destruct G as (-> & Gb & Gt & Gs & Gw).
    unfold Timeline.valid. rewrite Gb, Gt, Gs, Gw. exact IH.
  - exact IH.
  - assert (G : load_audio s path pl ms an = s
                \/ (grid (load_audio s path pl ms an)
                    = mkBeatGrid (bpm (grid s)) 0 (beats_per_bar (grid s))
                    /\ Timeline._bpm (timeline (load_audio s path pl ms an))
                       = Timeline._bpm (timeline s)
                    /\ Timeline._t0_downbeat
                         (timeline (load_audio s path pl ms an)) = 0
                    /\ Timeline._time_sig
                         (timeline (load_audio s path pl ms an))
                       = Timeline._time_sig (timeline s)
                    /\ Timeline._window_bars
                         (timeline (load_audio s path pl ms an))
                       = Timeline._window_bars (timeline s))).
    { unfold load_audio. destruct pl as [u|e]; [right|left; reflexivity].
      destruct an as [[y sr]|e]; [|cbn; auto].
      destruct (Detector.detect_hits_peakish y sr 10 90); cbn; auto. }
    destruct G as [->|(-> & Gb & Gt & Gs & Gw)]; [exact IH|].
    destruct IH as (Bs & _ & B & B4 & V).
    unfold Timeline.valid. rewrite Gb, Gt, Gs, Gw.
    repeat split; try assumption; try apply V; try reflexivity.
Qed.

(** [grid_and_timeline_agree] after a load, a BPM change to 400 and a
    downbeat set at 1.5 s. *)
Lemma grid_and_timeline_agree_witness :
  let s := set_downbeat_here
             (on_bpm_changed
                (load_audio init "a.wav" (Py.Ok tt) 3000
                   (Py.Raise Py.OtherError))
                400)
             1500 in
  beat_seconds (grid s) == 60 / Timeline._bpm (timeline s)
  /\ downbeat_t0 (grid s) == Timeline._t0_downbeat (timeline s).
Proof.
  intro s.
  assert (R : reachable s).
  { apply reach_downbeat; [|lia]. apply reach_bpm.
    apply reach_load; [apply reach_init | lia]. }
  destruct (grid_and_timeline_agree s R) as (A & B & _). auto.
Defined.

End FlashProps.

(* ------------------------------------------------------------------ *)
(** ** Main window: what a load leaves behind *)

Module LoadProps.
Import App PyFacts.

(** The hits of a returned sequence: a time after zero and a strength
    between 0 and 1. *)
Lemma detect_hits_range (y : list Q) (sr : Z) (hop_ms min_gap_ms : Q)
  (out : list (Q * Q)) :
  (0 < sr)%Z ->
  Detector.detect_hits_peakish y sr hop_ms min_gap_ms = Py.Ok out ->
  Forall (fun h => 0 < fst h /\ 0 <= snd h <= 1) out.
Proof.
  intros Hsr E.
  assert (T : Forall (fun h : Q * Q => 0 < fst h) out).
  { destruct (ScanProps.detect_frames _ _ _ _ _ E)
      as [->|(g & fs & _ & Ht & _ & Hf)]; [constructor|].
    apply Forall_forall. intros h Hh.
    apply (in_map fst) in Hh. rewrite Ht in Hh.
    apply in_map_iff in Hh as (f & <- & Hin).
    rewrite Forall_forall in Hf. specialize (Hf f Hin).
    unfold Detector.time_of.
    apply Qlt_shift_div_l; [apply HitProps.inject_Z_pos, Hsr|].
    rewrite Qmult_0_l. apply HitProps.inject_Z_pos.
    pose proof (HitProps.hop_of_pos sr hop_ms). nia. }
  assert (S : Forall (fun h : Q * Q => 0 <= snd h <= 1) out).
  { destruct out as [|h0 out0]; [constructor|].
    destruct (ScanProps.detect_inversion _ _ _ _ _ E) as (raw & _ & Eo & _).
    rewrite Eo. apply NormalizeProps.normalize_spec.
    intros ->. discriminate. }
  rewrite Forall_forall in *. intros h Hh. split; [apply T | apply S]; exact Hh.
Qed.

(** X19: after a load that decoded the file at a positive sample rate, the
    timeline holds exactly the hits the detector returned with the default
    hop and gap, each with a time after zero and a strength between 0 and 1,
    so each is drawn at its strength or, below 0.02, at 0.02. *)
Theorem load_audio_sets_hits (s : MainWindow) (path : string) (u : unit)
  (duration_ms : Z) (y : list Q) (sr : Z) :
  (0 < sr)%Z ->
  exists out : list (Q * Q),
    Detector.detect_hits_peakish y sr 10 90 = Py.Ok out
    /\ Timeline._hits
         (timeline (load_audio s path (Py.Ok u) duration_ms (Py.Ok (y, sr))))
       = map (fun h => Timeline.mkHitEvent (fst h) (snd h)) out
    /\ Forall
         (fun h =>
            0 < Timeline.t h
            /\ 0 <= Timeline.strength h <= 1
            /\ TimelineDraw.bar_height (Timeline.strength h)
               == Qmax (2 # 100) (Timeline.strength h))
         (Timeline._hits
            (timeline
               (load_audio s path (Py.Ok u) duration_ms (Py.Ok (y, sr))))).
Proof.
  intro Hsr.
  destruct (ScanProps.detect_returns y sr 10 90) as [out E];
    [lia | discriminate|].
  exists out. split; [exact E|].
  unfold load_audio. rewrite E. cbn [timeline Timeline.set_hits Timeline._hits].
  split; [reflexivity|].
  apply Forall_map.
  eapply Forall_impl; [|exact (detect_hits_range _ _ _ _ _ Hsr E)].
  cbv beta. intros h (T & Lo & Hi). cbn [Timeline.t Timeline.strength].
  split; [exact T|]. split; [split; assumption|].
  unfold TimelineDraw.bar_height.
  destruct (py_min_cases 1 (snd h)) as [[L ->]|[L ->]];
    rewrite py_max_Qmax; [reflexivity|].
  assert (E1 : snd h == 1) by lra. rewrite E1. reflexivity.
Qed.

(** [load_audio_sets_hits] on fifteen frames of a constant signal. *)
Lemma load_audio_sets_hits_witness :
  exists out : list (Q * Q),
    Timeline._hits
      (timeline (load_audio init "a.wav" (Py.Ok tt) 150
                   (Py.Ok (repeat 1 (Z.to_nat 3300), 22050%Z))))
    = map (fun h => Timeline.mkHitEvent (fst h) (snd h)) out.
Proof.
  destruct (load_audio_sets_hits init "a.wav" tt 150
              (repeat 1 (Z.to_nat 3300)) 22050)
    as (out & _ & H & _); [reflexivity|].
  exists out. exact H.
Defined.

(** X20: a load that fails keeps what it had already done.  When the player
    refuses the file nothing changes.  When the player took the file but the
    analysis failed, or the detector raised, the file, the duration and the
    reset of the downbeat and of the last beat index stay, while the
    timeline still holds the hits of the file before. *)
Theorem load_audio_failure (s : MainWindow) (path : string)
  (duration_ms : Z) :
  (forall (e : Py.exn) an,
     load_audio s path (Py.Raise e) duration_ms an = s)
  /\ (forall (u : unit) an,
        (forall y sr, an = Py.Ok (y, sr) ->
           exists e, Detector.detect_hits_peakish y sr 10 90 = Py.Raise e) ->
        let s' := load_audio s path (Py.Ok u) duration_ms an in
        Timeline._hits (timeline s') = Timeline._hits (timeline s)
        /\ current_file s' = Some path
        /\ player_loaded s' = true
        /\ _last_beat_index s' = None
        /\ Grid.downbeat_t0 (grid s') = 0
        /\ Timeline._t0_downbeat (timeline s') = 0
        /\ Timeline._duration_s (timeline s')
           = Py.max 0 (duration_seconds duration_ms)).
Proof.
  split; [reflexivity|].
  intros u an Fail s'. subst s'. unfold load_audio.
  destruct an as [[y sr]|e]; [|cbn; auto 10].
  destruct (Fail y sr eq_refl) as [e ->]. cbn. auto 10.
Qed.

End LoadProps.

(* ------------------------------------------------------------------ *)
(** ** Loader: shape, length and peak of the returned samples *)

Module LoaderProps.
Import Loader PyFacts.


Lemma cells_scale (y : ndarray) (m : Q) :
  cells (scale y m) = map (fun s => s / m) (cells y).
Proof.
  destruct y as [l|rows]; [reflexivity|]. cbn [scale cells].
  rewrite concat_map. reflexivity.
Qed.

Lemma fold_max_bound (r : list Q) (x : Q) :
  Forall (fun v => v <= fold_left Py.max r x) (x :: r).
Proof. apply NormalizeProps.fold_max_upper. Qed.

(** The peak of a non-empty list of cells bounds every cell and is the
    absolute value of one of them. *)
Lemma peak_spec (c : list Q) :
  c <> [] ->
  Forall (fun s => Qabs s <= Np.max (Np.abs c)) c
  /\ Exists (fun s => Qabs s = Np.max (Np.abs c)) c.
Proof.
  intro NE. destruct c as [|x r]; [congruence|].
  unfold Np.abs, Np.max. cbn [map]. split.
  - pose proof (fold_max_bound (map Qabs r) (Qabs x)) as B.
    change (Qabs x :: map Qabs r) with (map Qabs (x :: r)) in B.
    rewrite Forall_map in B. exact B.
  - pose proof (SilenceProps.fold_max_In (map Qabs r) (Qabs x)) as I.
    change (Qabs x :: map Qabs r) with (map Qabs (x :: r)) in I.
    apply in_map_iff in I as (s & Es & Hin).
    apply Exists_exists. exists s. auto.
Qed.

Lemma abs_div (s m : Q) : 0 < m -> Qabs (s / m) == Qabs s / m.
Proof.
  intro P. unfold Qdiv. rewrite Qabs_Qmult.
  rewrite (Qabs_pos (/ m)); [reflexivity|].
  apply Qlt_le_weak, Qinv_lt_0_compat, P.
Qed.

(** What the normalisation step does to the cells [c] of the array. *)
Lemma normalised_cells (c : list Q) :
  c <> [] ->
  let m := Np.max (Np.abs c) in
  (0 < m ->
   Forall (fun s => Qabs s <= 1) (map (fun s => s / m) c)
   /\ Exists (fun s => Qabs s == 1) (map (fun s => s / m) c))
  /\ (~ 0 < m -> Forall (fun s => s == 0) c).
Proof.
  intros NE m. destruct (peak_spec c NE) as [B T]. fold m in B, T. split.
  - intro P. split.
    + apply Forall_map. eapply Forall_impl; [|exact B]. cbv beta.
      intros s Hs. rewrite abs_div by exact P.
      apply Qle_shift_div_r; [exact P | lra].
    + apply Exists_exists in T as (s & Hin & Es).
      apply Exists_exists. exists (s / m). split.
      * apply in_map_iff. exists s. auto.
      * rewrite abs_div by exact P. rewrite Es. field. lra.
  - intro NP. eapply Forall_impl; [|exact B]. cbv beta. intros s Hs.
    assert (Z0 : Qabs s <= 0) by lra.
    apply Qabs_Qle_condition in Z0. lra.
Qed.






Lemma len_zero_cells (y : ndarray) : len y = 0%Z -> cells y = [].
Proof.
  destruct y as [l|rows]; unfold len, Py.len; intro H;
    [destruct l | destruct rows]; try reflexivity; discriminate.
Qed.

(** The steps of [shape_for_analysis] one after the other: the array [y1]
    after the channel reduction, [y2] after the trimming, and the scaling. *)
Lemma shape_steps (y : ndarray) (sr : Z) (mono : bool) (max_seconds : Q)
  (y' : ndarray) (sr' : Z) :
  shape_for_analysis y sr mono max_seconds = Py.Ok (y', sr') ->
  exists y1 y2 : ndarray,
    len y1 = len y
    /\ (0 < max_seconds ->
        y2 = if (Py.int (max_seconds * inject_Z sr) <? len y1)%Z
             then take y1 (Py.int (max_seconds * inject_Z sr))
             else y1)
    /\ (max_seconds <= 0 -> y2 = y1)
    /\ (y' = y2 /\ Forall (fun c => c == 0) (cells y2)
        \/ exists m : Q,
             0 < m
             /\ y' = scale y2 m
             /\ (cells y2 = [] \/ m = Np.max (Np.abs (cells y2)))).
Proof.
  unfold shape_for_analysis.
  set (y1 := match y with
             | Mono _ => y
             | Frames rows => if mono then Mono (mean_axis1 rows) else y
             end).
  set (y2 := if negb (Qeq_bool max_seconds 0) && Py.Qltb 0 max_seconds
             then _ else _).
  intro H. exists y1, y2.
  split.
  { unfold y1. destruct y as [l|rows]; [reflexivity|].
    destruct mono; [|reflexivity].
    unfold len, mean_axis1, Py.len. rewrite length_map. reflexivity. }
  split.
  { intro P. unfold y2.
    assert (C : negb (Qeq_bool max_seconds 0) && Py.Qltb 0 max_seconds
                = true).
    { apply andb_true_iff. split; [|apply Qltb_lt, P].
      apply negb_true_iff. destruct (Qeq_bool max_seconds 0) eqn:E;
        [|reflexivity].
      apply Qeq_bool_iff in E. lra. }
    rewrite C. reflexivity. }
  split.
  { intro NP. unfold y2.
    assert (C : Py.Qltb 0 max_seconds = false) by (apply Qltb_ge, NP).
    rewrite C, andb_false_r. reflexivity. }
  clearbody y2.
  destruct (len y2 =? 0)%Z eqn:L0.
  - apply Z.eqb_eq, len_zero_cells in L0. cbn [Py.bind] in H.
    change (Py.Qltb 0 1) with true in H. injection H as <- _.
    right. exists 1. split; [reflexivity|]. auto.
  - unfold peak in H. destruct (cells y2) as [|c0 cs] eqn:Ec;
      [discriminate|].
    cbn [Py.bind] in H. rewrite <- Ec in *.
    destruct (Py.Qltb 0 (Np.max (Np.abs (cells y2)))) eqn:P;
      injection H as <- _.
    + apply Qltb_lt in P. right. eexists. split; [exact P|]. auto.
    + apply Qltb_ge in P. left. split; [reflexivity|].
      apply normalised_cells; [rewrite Ec; discriminate | lra].
Qed.

(** Every cell of a returned array lies between -1 and 1. *)
Lemma shaped_cells_unit (y : ndarray) (sr : Z) (mono : bool)
  (max_seconds : Q) (y' : ndarray) (sr' : Z) :
  shape_for_analysis y sr mono max_seconds = Py.Ok (y', sr') ->
  Forall (fun c => Qabs c <= 1) (cells y').
Proof.
  intro H.
  destruct (shape_steps _ _ _ _ _ _ H) as (y1 & y2 & _ & _ & _ & S).
  destruct S as [[E0 Z0]|(m & P & E0 & M)]; subst y'.
  - eapply Forall_impl; [|exact Z0]. cbv beta. intros c Hc.
    rewrite Hc. discriminate.
  - rewrite cells_scale. destruct M as [E | ->]; [rewrite E; constructor|].
    destruct (cells y2) as [|c0 cs] eqn:Ec; [constructor|].
    rewrite <- Ec in *.
    assert (NE : cells y2 <> []) by (rewrite Ec; discriminate).
    destruct (normalised_cells (cells y2) NE) as [N _].
    apply (N P).
Qed.

(** X22: peak normalisation: every cell of a returned array lies between -1 and
    1, and unless the array is silent one of them has absolute value
    exactly 1. *)
Theorem loader_peak_normalised (y : ndarray) (sr : Z) (mono : bool)
  (max_seconds : Q) (y' : ndarray) (sr' : Z) :
  shape_for_analysis y sr mono max_seconds = Py.Ok (y', sr') ->
  Forall (fun c => Qabs c <= 1) (cells y')
  /\ (Exists (fun c => ~ c == 0) (cells y') ->
      Exists (fun c => Qabs c == 1) (cells y')).
Proof.
  intro H.
  destruct (shape_steps _ _ _ _ _ _ H) as (y1 & y2 & _ & _ & _ & S).
  destruct S as [[E0 Z0]|(m & P & E0 & M)]; subst y'.
  - split.
    + eapply Forall_impl; [|exact Z0]. cbv beta. intros c Hc.
      rewrite Hc. discriminate.
    + intro Ex. exfalso. apply Exists_exists in Ex as (c & Hin & Hc).
      rewrite Forall_forall in Z0. apply Hc, Z0, Hin.
  - rewrite cells_scale. destruct M as [E | ->].
    + rewrite E. split; [constructor|]. intro Ex. inversion Ex.
    + destruct (cells y2) as [|c0 cs] eqn:Ec.
      * split; [constructor|]. intro Ex. inversion Ex.
      * rewrite <- Ec in *.
        assert (NE : cells y2 <> []) by (rewrite Ec; discriminate).
        destruct (normalised_cells (cells y2) NE) as [N _].
        destruct (N P) as [B T]. split; [exact B | intros _; exact T].
Qed.


(** [loader_peak_normalised] on three samples with a peak of 1/2. *)
Lemma loader_peak_normalised_witness :
  exists l : list Q,
    shape_for_analysis (Mono [1 # 4; - (1 # 2); 0]) 22050 true 180
    = Py.Ok (Mono l, 22050%Z)
    /\ Exists (fun c => Qabs c == 1) l.
Proof.
  destruct (shape_for_analysis (Mono [1 # 4; - (1 # 2); 0]) 22050 true 180)
    as [[y' sr']|e] eqn:E; [|vm_compute in E; discriminate].
  destruct (loader_peak_normalised _ _ _ _ _ _ E) as [_ T].
  vm_compute in E. injection E as <- <-.
  eexists. split; [reflexivity|]. apply T.
  left. discriminate.
Defined.



(** X24: what the loader returns is fit for the detector: on the one-dimensional
    array of a load every score lies between 0 and 1, and every accepted hit
    has a raw strength between 0.08 and 1. *)
Theorem loader_feeds_detector (y : ndarray) (sr : Z) (mono : bool)
  (max_seconds : Q) (l : list Q) (sr' : Z) (hop_ms min_gap_ms : Q) :
  shape_for_analysis y sr mono max_seconds = Py.Ok (Mono l, sr') ->
  Forall (fun x => 0 <= x <= 1) (DetectorRun.score_for l sr' hop_ms)
  /\ (forall raw : list (Q * Q),
        Detector.raw_hits l sr' hop_ms min_gap_ms = Py.Ok raw ->
        Forall (fun h => 8 # 100 <= snd h <= 1) raw).
Proof.
  intro H. pose proof (shaped_cells_unit _ _ _ _ _ _ H) as B.
  cbn [cells] in B.
  assert (P1 : 0 <= 1) by discriminate.
  pose proof (ScoreBounds.within_score_for 1 P1 l sr' hop_ms B) as W.
  split; [exact W|].
  intros raw R. apply DetectorEdges.raw_strength_is_score in R.
  eapply Forall_impl; [|exact R]. cbv beta.
  intros h ((f' & E) & Fl).
  split; [exact Fl|]. rewrite E.
  apply (ScoreBounds.within_nth 1 P1), W.
Qed.

(** [loader_feeds_detector] on a stereo pair reduced to mono. *)
Lemma loader_feeds_detector_witness :
  exists (l : list Q),
    shape_for_analysis (Frames [[1; 0]; [1 # 2; 1 # 2]]) 22050 true 180
    = Py.Ok (Mono l, 22050%Z)
    /\ Forall (fun x => 0 <= x <= 1) (DetectorRun.score_for l 22050 10).
Proof.
  destruct (shape_for_analysis (Frames [[1; 0]; [1 # 2; 1 # 2]]) 22050 true 180)
    as [[y' sr']|e] eqn:E; [|vm_compute in E; discriminate].
  assert (S : exists l, (y', sr') = (Mono l, 22050%Z)).
  { vm_compute in E. injection E as <- <-. eexists. reflexivity. }
  destruct S as [l [= -> ->]].
  exists l. split; [reflexivity|].
  apply (loader_feeds_detector _ _ _ _ l 22050 10 90 E).
Defined.

End LoaderProps.

(* ------------------------------------------------------------------ *)
(** ** Project persistence: defaults, errors, saving again *)

Module PersistProps.
Import Models.

(** X25: loading fills in what the document leaves out: without [bpm],
    [downbeat_t0] and [markers] the project gets 120 BPM, a downbeat at zero
    and no marker; a marker without [label] and [kind] gets the empty label
    and the kind [hit]. *)
Theorem load_defaults (fs : disk) (path : string)
  (d : list (string * json)) (ap : string) :
  fs path = Some (JDict d) ->
  dict_get d "audio_path" = Some (JStr ap) ->
  dict_get d "bpm" = None ->
  dict_get d "downbeat_t0" = None ->
  (dict_get d "markers" = None ->
   load fs path = Py.Ok (mkProject ap 120 0 (Some [])))
  /\ (forall q : Q,
        dict_get d "markers" = Some (JList [JDict [("t"%string, JNum q)]]) ->
        load fs path
        = Py.Ok (mkProject ap 120 0 (Some [mkMarker q "" "hit"]))).
Proof.
  intros F A B T. unfold load, float_field. rewrite F. split.
  - intros M. rewrite M, A, B, T. reflexivity.
  - intros q M. rewrite M, A, B, T. reflexivity.
Qed.

(** [load_defaults] on a document that holds the audio path only. *)
Lemma load_defaults_witness :
  load (fun _ => Some (JDict [("audio_path"%string, JStr "a.wav")])) "p.json"
  = Py.Ok (mkProject "a.wav" 120 0 (Some [])).
Proof.
  apply (load_defaults _ "p.json" [("audio_path"%string, JStr "a.wav")]);
    reflexivity.
Defined.

(** X26: what [load] raises: [FileNotFoundError] when there is no file at the
    path, [KeyError] when the document has no [audio_path] (its markers
    being absent or a list of well-formed markers), and [TypeError] when a
    marker has no [t] or has a key that is none of [t], [label], [kind]. *)
Theorem load_errors (fs : disk) (path : string) :
  (fs path = None -> load fs path = Py.Raise Py.FileNotFoundError)
  /\ (forall d : list (string * json),
        fs path = Some (JDict d) ->
        dict_get d "audio_path" = None ->
        (dict_get d "markers" = None
         \/ exists ms, dict_get d "markers"
                       = Some (JList (map marker_asdict ms))) ->
        load fs path = Py.Raise Py.KeyError)
  /\ (forall (d m : list (string * json)) (rest : list json),
        fs path = Some (JDict d) ->
        dict_get d "markers" = Some (JList (JDict m :: rest)) ->
        (dict_get m "t" = None
         \/ exists k v, In (k, v) m
                        /\ k <> "t"%string /\ k <> "label"%string
                        /\ k <> "kind"%string) ->
        load fs path = Py.Raise Py.TypeError).
Proof.
  split; [intro F; unfold load; rewrite F; reflexivity|]. split.
  - intros d F A M. unfold load. rewrite F, A.
    destruct M as [->|[ms ->]]; [reflexivity|].
    rewrite ModelsProps.markers_of_json_asdict. reflexivity.
  - intros d m rest F M Bad. unfold load. rewrite F, M.
    assert (K : marker_of_json (JDict m) = Py.Raise Py.TypeError).
    { unfold marker_of_json.
      assert (G : forall acc,
                (fst (fst acc) = None -> dict_get m "t" = None ->
                 match marker_kwargs m acc with
                 | Py.Ok (None, _, _) => True
                 | Py.Ok (Some _, _, _) => False
                 | Py.Raise e => e = Py.TypeError
                 end)
                /\ ((exists k v, In (k, v) m
                       /\ k <> "t"%string /\ k <> "label"%string
                       /\ k <> "kind"%string) ->
                    marker_kwargs m acc = Py.Raise Py.TypeError)).
      { clear. induction m as [|[k v] m IH]; intros [[ot ol] ok].
        - split; [cbn; intros -> _; exact I|].
          intros (k & v & [] & _).
        - cbn [marker_kwargs]. split.
          + cbn [fst]. intros -> Hk. cbn [dict_get] in Hk.
            destruct (String.eqb k "t") eqn:Et; [discriminate|].
            destruct (String.eqb k "label");
              [destruct v; try reflexivity;
               apply (proj1 (IH (None, Some s, ok))); auto|].
            destruct (String.eqb k "kind");
              [destruct v; try reflexivity;
               apply (proj1 (IH (None, ol, Some s))); auto|].
            reflexivity.
          + intros (k' & v' & [E|Hin] & N1 & N2 & N3).
            * injection E as -> ->.
              apply String.eqb_neq in N1, N2, N3.
              rewrite N1, N2, N3. reflexivity.
            * assert (R : forall acc', marker_kwargs m acc'
                                       = Py.Raise Py.TypeError).
              { intro acc'. apply (proj2 (IH acc')).
                exists k', v'. auto. }
              destruct (String.eqb k "t");
                [destruct v; try reflexivity; apply R|].
              destruct (String.eqb k "label");
                [destruct v; try reflexivity; apply R|].
              destruct (String.eqb k "kind");
                [destruct v; try reflexivity; apply R|].
              reflexivity. }
      destruct Bad as [NoT|Unknown].
      - pose proof (proj1 (G (None, None, None)) eq_refl NoT) as H.
        destruct (marker_kwargs m (None, None, None))
          as [[[[q|] ol] ok]|e]; cbn [Py.bind];
          [contradiction | reflexivity | congruence].
      - rewrite (proj2 (G (None, None, None)) Unknown). reflexivity. }
    cbn [markers_of_json]. rewrite K. reflexivity.
Qed.

(** X28: saving what was loaded writes the same document again: a project read
    back from its file has the same dictionary as the project that was
    saved. *)
Theorem resave_is_stable (p p' : Project) (fs : disk) (path : string) :
  load (save p fs path) path = Py.Ok p' ->
  to_dict p' = to_dict p
  /\ forall x : string, save p' fs path x = save p fs path x.
Proof.
  rewrite ModelsProps.load_after_save. intros [= <-].
  assert (E : to_dict
                (mkProject (audio_path p) (bpm p) (downbeat_t0 p)
                   (Some match markers p with
                         | Some l => l
                         | None => []
                         end))
              = to_dict p).
  { destruct p as [a b t0 [ms|]]; reflexivity. }
  split; [exact E|].
  intro x. unfold save, write_text. rewrite E. reflexivity.
Qed.

(** [resave_is_stable] on a project whose markers are [None]. *)
Lemma resave_is_stable_witness :
  to_dict (mkProject "b.wav" 90 0 (Some []))
  = to_dict (mkProject "b.wav" 90 0 None).
Proof.
  apply (resave_is_stable (mkProject "b.wav" 90 0 None)
           (mkProject "b.wav" 90 0 (Some [])) (fun _ => None) "q.json").
  reflexivity.
Defined.

End PersistProps.
